(** * Transcription pipeline of transcript-assembly-v6 (server.js)

    A shallow embedding of the helper functions and route handlers of
    [server.js]: media conversion with its WAV fallback, best-effort cleanup,
    the AssemblyAI client (upload, submit, poll) and the two transcription
    routes.  The second server file of the repository has the same helper
    functions, up to comments and the wording of the placeholder
    transcription; line numbers below are those of [server.js].

    Conventions.
    - A JavaScript string is a [string] of bytes (its UTF-8 encoding).  The
      patterns the code searches for (".wav", ".mp3", "auto") are ASCII, and
      an ASCII byte never occurs inside a multi-byte UTF-8 sequence, so
      [endsWith] and [replace] agree with their UTF-16 originals.
    - A JavaScript object used as a dictionary is a [gmap string jsval].
    - Asynchronous code is written in a state-and-exception monad [M] over a
      [world]: the local file system, the answers the network is going to
      give, the trace of external actions and the console.  A promise that
      never settles is the outcome [Hang].
    - What Node, ffmpeg, play-dl and the clock do is not part of the
      repository: it is collected in an environment record [env], over which
      every statement is universally quantified. *)

From Stdlib Require Import Strings.String Strings.Ascii NArith Floats.PrimFloat.
From Stdlib Require Import Numbers.DecimalString.
From stdpp Require Import gmap strings list fin_maps.

Set Warnings "-inexact-float,-register-all".

(** ** Strings *)

Module Str.

(** [s.endsWith(suffix)] *)
Fixpoint endsWith (s suffix : string) : bool :=
  if String.eqb s suffix then true
  else match s with
       | EmptyString => false
       | String _ s' => endsWith s' suffix
       end.

(** [s.slice(n)] for [0 <= n] *)
Fixpoint slice_from (n : nat) (s : string) : string :=
  match n, s with
  | O, _ => s
  | S _, EmptyString => EmptyString
  | S n', String _ s' => slice_from n' s'
  end.

(** [s.replace(pattern, replacement)] with a string pattern: only the first
    occurrence of [pattern] is replaced.  (The replacements used by the
    code contain no [$], so no replacement pattern is expanded.) *)
Fixpoint replace (pattern replacement s : string) : string :=
  if String.prefix pattern s
  then replacement +:+ slice_from (String.length pattern) s
  else match s with
       | EmptyString => EmptyString
       | String c s' => String c (replace pattern replacement s')
       end.

(** Number of positions of [s] at which [pattern] occurs. *)
Fixpoint occurrences (pattern s : string) : nat :=
  (if String.prefix pattern s then 1 else 0) +
  match s with
  | EmptyString => 0
  | String _ s' => occurrences pattern s'
  end.

(** [xs.join(sep)] on an array of strings *)
Fixpoint join (sep : string) (xs : list string) : string :=
  match xs with
  | [] => ""
  | [x] => x
  | x :: rest => x +:+ sep +:+ join sep rest
  end.

(** [s.includes(t)] *)
Fixpoint includes (s t : string) : bool :=
  if String.prefix t s then true
  else match s with
       | EmptyString => false
       | String _ s' => includes s' t
       end.

(** [s.includes(t)], as a proposition *)
Definition contains (s t : string) : Prop :=
  exists before after, s = before +:+ t +:+ after.

(** Decimal rendering of a non-negative integer, as a template literal
    renders an integral Number below 1e21. *)
Definition of_N (n : N) : string := NilZero.string_of_uint (N.to_uint n).

End Str.

(** ** JavaScript values *)

Inductive jsval : Type :=
| JUndefined
| JNull
| JBool (b : bool)
| JNum (x : float)
| JStr (s : string)
| JArr (xs : list jsval)
| JObj (o : gmap string jsval).

(** ToBoolean *)
Definition truthy (v : jsval) : bool :=
  match v with
  | JUndefined | JNull => false
  | JBool b => b
  | JNum x => negb (PrimFloat.eqb x 0 || PrimFloat.is_nan x)
  | JStr s => negb (String.eqb s "")
  | JArr _ | JObj _ => true
  end.

(** [v === 'literal'] *)
Definition strict_eq_str (v : jsval) (s : string) : bool :=
  match v with
  | JStr t => String.eqb t s
  | _ => false
  end.

(** [a || b] *)
Definition js_or (a b : jsval) : jsval := if truthy a then a else b.

(** [o.key] on an own-property dictionary: [undefined] when absent. *)
Definition prop (o : gmap string jsval) (key : string) : jsval :=
  default JUndefined (o !! key).

(** A thrown [Error] object. *)
Record js_error := { error_name : string; message : string }.

Definition Error (msg : string) : js_error :=
  {| error_name := "Error"; message := msg |}.
Definition TypeError (msg : string) : js_error :=
  {| error_name := "TypeError"; message := msg |}.

(** ** The world a request runs in *)

(** An entry of local storage: its byte size, and the error with which
    [fs.unlinkSync] fails on it, if it does (EPERM, EBUSY, EISDIR, ...). *)
Record inode := { size : N; unlink_error : option js_error }.

(** An ffmpeg invocation as assembled by the fluent-ffmpeg builder. *)
Record ffmpeg_command := {
  cmd_input : string;
  cmd_frequency : option N;
  cmd_channels : option N;
  cmd_codec : option string;
  cmd_bitrate : option string;
  cmd_format : option string
}.

(** What one run of the encoder does: it emits ['error'] ([enc_error]), or
    else ['end'] ([enc_end]), or neither of the two, the process never
    exiting; the file it leaves at the output path, if any. *)
Record encode_result := {
  enc_error : option js_error;
  enc_end : bool;
  enc_file : option inode
}.

(** An HTTP request passed to [fetch]. *)
Inductive fetch_body :=
| NoBody
| BodyFile (data : inode)
| BodyJson (o : gmap string jsval).

Record request := {
  req_url : string;
  req_method : string;
  req_headers : list (string * string);
  req_body : fetch_body
}.

(** An HTTP response: [response.ok], [response.status], what
    [response.text()] yields and what [response.json()] yields or throws. *)
Record response := {
  resp_ok : bool;
  resp_status : N;
  resp_text : string;
  resp_json : jsval + js_error
}.

(** [fetch] either rejects (network failure) or resolves with a response. *)
Inductive fetch_outcome :=
| NetFail (e : js_error)
| NetReply (r : response).

(** External actions, in the order they happen. *)
Inductive event :=
| Encode (cmd : ffmpeg_command) (output : string)
| Fetch (rq : request)
| Sleep (ms : N)
| ExistsSync (p : option string)
| StatSync (p : string)
| ReadFileSync (p : string)
| UnlinkSync (p : option string)
| Download (url : jsval) (target : string)
| Respond (status : N) (body : gmap string jsval).

Record world := {
  fs : gmap string inode;        (* local storage *)
  net : list fetch_outcome;      (* what the next calls of fetch will get *)
  ticks : nat;                   (* number of clock readings so far *)
  trace : list event;            (* external actions so far *)
  console : list (string * string) (* console lines: level, leading text *)
}.

Definition set_fs (f : gmap string inode → gmap string inode) (w : world) : world :=
  {| fs := f (fs w); net := net w; ticks := ticks w;
     trace := trace w; console := console w |}.
Definition set_net (n : list fetch_outcome) (w : world) : world :=
  {| fs := fs w; net := n; ticks := ticks w;
     trace := trace w; console := console w |}.
Definition tick (w : world) : world :=
  {| fs := fs w; net := net w; ticks := S (ticks w);
     trace := trace w; console := console w |}.
Definition emit (e : event) (w : world) : world :=
  {| fs := fs w; net := net w; ticks := ticks w;
     trace := trace w ++ [e]; console := console w |}.
Definition print (level text : string) (w : world) : world :=
  {| fs := fs w; net := net w; ticks := ticks w;
     trace := trace w; console := console w ++ [(level, text)] |}.

(** ** The effect monad *)

Inductive outcome (A : Type) : Type :=
| Return (a : A)      (* the promise resolves / the function returns *)
| Throw (e : js_error) (* the promise rejects / the function throws *)
| Hang.               (* the promise never settles *)
Arguments Return {A} a.
Arguments Throw {A} e.
Arguments Hang {A}.

(** The monad over a state [S]; [M] is the one over the [world].  Route
    handlers run over the world paired with their own [let] variables. *)
Definition M_ (S A : Type) : Type := S → outcome A * S.
Abbreviation M := (M_ world).

#[export] Instance M_ret {S} : MRet (M_ S) := λ A a s, (Return a, s).
#[export] Instance M_bind {S} : MBind (M_ S) := λ A B k m s,
  match m s with
  | (Return a, s1) => k a s1
  | (Throw e, s1) => (Throw e, s1)
  | (Hang, s1) => (Hang, s1)
  end.

Definition throw {S A} (e : js_error) : M_ S A := λ s, (Throw e, s).
Definition hang {S A} : M_ S A := λ s, (Hang, s).
Definition act {S} (f : S → S) : M_ S unit := λ s, (Return (), f s).
Definition get_state {S} : M_ S S := λ s, (Return s, s).

(** [try { m } catch (error) { handler error }] *)
Definition try_catch {S A} (m : M_ S A) (handler : js_error → M_ S A)
  : M_ S A := λ s,
  match m s with
  | (Throw e, s1) => handler e s1
  | r => r
  end.

(** [try { m } finally { cleanup }]: the [finally] block runs once [m] has
    settled; if it throws, its error replaces the completion of [m]. *)
Definition try_finally {S A} (m : M_ S A) (cleanup : M_ S unit)
  : M_ S A := λ s,
  match m s with
  | (Hang, s1) => (Hang, s1)
  | (r, s1) =>
      match cleanup s1 with
      | (Return _, s2) => (r, s2)
      | (Throw e, s2) => (Throw e, s2)
      | (Hang, s2) => (Hang, s2)
      end
  end.

(** A function body with local [let] variables [F]: [scope init body] runs
    [body] with the variables initialised to [init]; [call m] runs a
    computation that does not touch them. *)
Definition call {F A} (m : M A) : M_ (F * world) A := λ s,
  let '(r, w1) := m (snd s) in (r, (fst s, w1)).
Definition assign {F} (f : F → F) : M_ (F * world) unit :=
  act (λ s, (f (fst s), snd s)).
Definition scope {F A} (init : F) (body : M_ (F * world) A) : M A := λ w,
  let '(r, s1) := body (init, w) in (r, snd s1).

Definition console_log (text : string) : M unit := act (print "log" text).
Definition console_error (text : string) : M unit := act (print "error" text).

(** ** The environment *)

(** What acquiring a YouTube audio track does: [play.stream] may throw and
    the piping into the write stream may fail ([dl_error]); or else the
    write stream emits ['finish'] ([dl_finish]), or nothing ever happens;
    the file left at the target path, if any. *)
Record download_result := {
  dl_error : option js_error;
  dl_finish : bool;
  dl_file : option inode
}.

Record env := {
  (** [process.env.ASSEMBLYAI_API_KEY] *)
  env_api_key : option string;
  (** Node's [path] module (platform dependent) *)
  path_extname : string → string;
  path_basename : string → string;
  path_basename_ext : string → string → string;
  path_join : string → string → string;
  (** [String.prototype.toLowerCase] (full Unicode case mapping) *)
  toLowerCase : string → string;
  (** Number::toString *)
  Number_toString : float → string;
  (** the ffmpeg binary behind [command.save(output)] *)
  ffmpeg_run : ffmpeg_command → string → encode_result;
  (** [Date.now()], by number of earlier readings *)
  Date_now : nat → N;
  (** play-dl: [play.validate(url)] and the download of an audio stream *)
  play_validate : jsval → jsval + js_error;
  play_download : jsval → string → download_result
}.

(** ** Helper functions of server.js *)

Section Server.

Context (E : env).

(** *** convertVideoToAudio (server.js 52-103) *)

Definition ffmpeg (input : string) : ffmpeg_command :=
  {| cmd_input := input; cmd_frequency := None; cmd_channels := None;
     cmd_codec := None; cmd_bitrate := None; cmd_format := None |}.
Definition audioFrequency (f : N) (c : ffmpeg_command) : ffmpeg_command :=
  {| cmd_input := cmd_input c; cmd_frequency := Some f;
     cmd_channels := cmd_channels c; cmd_codec := cmd_codec c;
     cmd_bitrate := cmd_bitrate c; cmd_format := cmd_format c |}.
Definition audioChannels (n : N) (c : ffmpeg_command) : ffmpeg_command :=
  {| cmd_input := cmd_input c; cmd_frequency := cmd_frequency c;
     cmd_channels := Some n; cmd_codec := cmd_codec c;
     cmd_bitrate := cmd_bitrate c; cmd_format := cmd_format c |}.
Definition audioCodec (codec : string) (c : ffmpeg_command) : ffmpeg_command :=
  {| cmd_input := cmd_input c; cmd_frequency := cmd_frequency c;
     cmd_channels := cmd_channels c; cmd_codec := Some codec;
     cmd_bitrate := cmd_bitrate c; cmd_format := cmd_format c |}.
Definition audioBitrate (rate : string) (c : ffmpeg_command) : ffmpeg_command :=
  {| cmd_input := cmd_input c; cmd_frequency := cmd_frequency c;
     cmd_channels := cmd_channels c; cmd_codec := cmd_codec c;
     cmd_bitrate := Some rate; cmd_format := cmd_format c |}.
Definition format (f : string) (c : ffmpeg_command) : ffmpeg_command :=
  {| cmd_input := cmd_input c; cmd_frequency := cmd_frequency c;
     cmd_channels := cmd_channels c; cmd_codec := cmd_codec c;
     cmd_bitrate := cmd_bitrate c; cmd_format := Some f |}.

(** [command.save(outputPath)]: runs the encoder, which may leave a file at
    the output path; yields [None] when it emits ['end'] and [Some err] when
    it emits ['error'], and never settles when it emits neither. *)
Definition run_encoder (command : ffmpeg_command) (outputPath : string)
  (w : world) : world :=
  let w1 := emit (Encode command outputPath) w in
  match enc_file (ffmpeg_run E command outputPath) with
  | Some f => set_fs (insert outputPath f) w1
  | None => w1
  end.

Definition save (command : ffmpeg_command) (outputPath : string)
  : M (option js_error) := λ w,
  let r := ffmpeg_run E command outputPath in
  (match enc_error r with
   | Some err => Return (Some err)
   | None => if enc_end r then Return None else Hang
   end,
   run_encoder command outputPath w).

(** The command built for an output path (lines 56-58 and 83-99).  The
    builder methods only record options, so the [catch] of lines 93-98 is
    never entered. *)
Definition build_command (inputPath : string) (isWav : bool) : ffmpeg_command :=
  let command := audioChannels 1 (audioFrequency 16000 (ffmpeg inputPath)) in
  if isWav
  then format "wav" (audioCodec "pcm_s16le" command)
  else format "mp3" (audioBitrate "64k" (audioCodec "libmp3lame" command)).

(** One call of [convertVideoToAudio]; the ['error'] handler calls the
    function again, which consumes one unit of [fuel].  The ['start'] and
    ['progress'] handlers only print and are left out. *)
Fixpoint convert_attempt (fuel : nat) (inputPath outputPath : string) : M string :=
  match fuel with
  | O => hang
  | S fuel' =>
      let isWav := Str.endsWith outputPath ".wav" in
      failure ← save (build_command inputPath isWav) outputPath;
      match failure with
      | None =>
          console_log "Conversão concluída:";;
          mret outputPath
      | Some err =>
          console_error "Erro na conversão:";;
          if negb isWav && Str.endsWith outputPath ".mp3" then
            console_log "Tentando conversão para WAV...";;
            let wavPath := Str.replace ".mp3" ".wav" outputPath in
            convert_attempt fuel' inputPath wavPath
          else throw err
      end
  end.

(** Every retry removes one occurrence of ".mp3" from the output path
    ([convert_attempt_fuel] below), so this much fuel is never used up. *)
Definition convertVideoToAudio (inputPath outputPath : string) : M string :=
  convert_attempt (S (Str.occurrences ".mp3" outputPath)) inputPath outputPath.


(** *** Built-ins used by the helpers *)

Definition LF : string := String "010" "".

(** ToString, as applied by template literals and by [+] on a string, where
    it completes ([renders] below). *)
Fixpoint to_string (v : jsval) : string :=
  match v with
  | JUndefined => "undefined"
  | JNull => "null"
  | JBool b => if b then "true" else "false"
  | JNum x => Number_toString E x
  | JStr s => s
  | JArr xs =>
      Str.join ","
        (List.map (λ x, match x with
                        | JUndefined | JNull => ""
                        | _ => to_string x
                        end) xs)
  | JObj _ => "[object Object]"
  end.

(** Whether ToString completes.  A value parsed from JSON holds no
    function: an object with a "toString" key of its own has no callable
    [toString], and its [valueOf], own or inherited, gives no primitive, so
    its conversion throws a TypeError; without such a key it is rendered by
    [Object.prototype.toString].  An array is rendered through its
    elements. *)
Fixpoint renders (v : jsval) : bool :=
  match v with
  | JArr xs => forallb (λ x, renders x) xs
  | JObj o => bool_decide (o !! "toString" = None)
  | _ => true
  end.

(** A value inside a template literal. *)
Definition template (v : jsval) : M string :=
  if renders v then mret (to_string v)
  else throw (TypeError "Cannot convert object to primitive value").

(** [v.key] for the keys read by the code (none of which is a built-in
    property of strings, arrays, numbers or booleans). *)
Definition member (v : jsval) (key : string) : M jsval :=
  match v with
  | JObj o => mret (prop o key)
  | JUndefined | JNull =>
      throw (TypeError ("Cannot read properties of " +:+ to_string v
                        +:+ " (reading '" +:+ key +:+ "')"))
  | _ => mret JUndefined
  end.

(** [{ ...target, ...source }]: the keys of [source] are copied over those
    of [target]. *)
Definition spread (target source : gmap string jsval) : gmap string jsval :=
  source ∪ target.

(** The error of an [fs] call on a path that does not exist, with the
    system call and the path in its message as Node puts them. *)
Definition ENOENT (syscall path : string) : js_error :=
  Error ("ENOENT: no such file or directory, " +:+ syscall
         +:+ " '" +:+ path +:+ "'").

(** [fs.existsSync(p)]; it answers [false] for [null] and [undefined]. *)
Definition existsSync (p : option string) : M bool := λ w,
  (Return match p with
          | Some path => bool_decide (is_Some (fs w !! path))
          | None => false
          end,
   emit (ExistsSync p) w).

Definition statSync (path : string) : M inode := λ w,
  let w1 := emit (StatSync path) w in
  match fs w !! path with
  | Some f => (Return f, w1)
  | None => (Throw (ENOENT "stat" path), w1)
  end.

Definition readFileSync (path : string) : M inode := λ w,
  let w1 := emit (ReadFileSync path) w in
  match fs w !! path with
  | Some f => (Return f, w1)
  | None => (Throw (ENOENT "open" path), w1)
  end.

(** [fs.unlinkSync(p)]; it throws a TypeError for [null] and [undefined]. *)
Definition unlinkSync (p : option string) : M unit := λ w,
  let w1 := emit (UnlinkSync p) w in
  match p with
  | None => (Throw (TypeError "The path argument must be of type string"), w1)
  | Some path =>
      match fs w !! path with
      | None => (Throw (ENOENT "unlink" path), w1)
      | Some f =>
          match unlink_error f with
          | Some e => (Throw e, w1)
          | None => (Return (), set_fs (delete path) w1)
          end
      end
  end.

(** [await fetch(url, init)]: the next answer of the network, or a promise
    that never settles when there is none. *)
Definition fetch (rq : request) : M response := λ w,
  let w1 := emit (Fetch rq) w in
  match net w with
  | [] => (Hang, w1)
  | NetFail e :: rest => (Throw e, set_net rest w1)
  | NetReply r :: rest => (Return r, set_net rest w1)
  end.

Definition response_text (r : response) : M string := mret (resp_text r).
Definition response_json (r : response) : M jsval :=
  match resp_json r with
  | inl v => mret v
  | inr e => throw e
  end.

(** [await new Promise(resolve => setTimeout(resolve, ms))] *)
Definition sleep (ms : N) : M unit := act (emit (Sleep ms)).

(** [Date.now()] *)
Definition now : M N := λ w, (Return (Date_now E (ticks w)), tick w).

(** *** Configuration (server.js 26-27) *)

Definition ASSEMBLYAI_API_KEY : string :=
  match env_api_key E with
  | Some key => if String.eqb key "" then "sua-chave-aqui" else key
  | None => "sua-chave-aqui"
  end.

Definition ASSEMBLYAI_BASE_URL : string := "https://api.assemblyai.com/v2".

(** *** cleanupFile (server.js 105-114) *)

Definition cleanupFile (filePath : option string) : M unit :=
  try_catch
    (found ← existsSync filePath;
     if found : bool then
       unlinkSync filePath;;
       console_log "Arquivo removido:"
     else mret ())
    (λ error, console_error "Erro ao remover arquivo:").

(** *** uploadToAssemblyAI (server.js 116-141) *)

Definition uploadToAssemblyAI (filePath : string) : M jsval :=
  try_catch
    (console_log "Fazendo upload para AssemblyAI...";;
     fileData ← readFileSync filePath;
     response ← fetch
       {| req_url := ASSEMBLYAI_BASE_URL +:+ "/upload";
          req_method := "POST";
          req_headers := [("authorization", ASSEMBLYAI_API_KEY);
                          ("content-type", "application/octet-stream")];
          req_body := BodyFile fileData |};
     if negb (resp_ok response) then
       errorText ← response_text response;
       throw (Error ("Erro no upload: " +:+ Str.of_N (resp_status response)
                     +:+ " - " +:+ errorText))
     else
       data ← response_json response;
       upload_url ← member data "upload_url";
       console_log "Upload concluído:";;
       mret upload_url)
    (λ error, console_error "Erro no upload:";; throw error).

(** *** startTranscription (server.js 143-180) *)

(** The request object of lines 146-157. *)
Definition transcriptRequest (audioUrl : jsval) (options : gmap string jsval)
  : gmap string jsval :=
  let language := prop options "language" in
  let request :=
    spread {[ "audio_url" := audioUrl;
              "language_detection" :=
                JBool (negb (truthy language) || strict_eq_str language "auto");
              "punctuate" := JBool true;
              "format_text" := JBool true ]}
           options in
  if truthy language && negb (strict_eq_str language "auto")
  then delete "language_detection" (<["language_code" := language]> request)
  else request.

(** The job-submission request of lines 159-166; [JSON.stringify] of the
    request object is kept as the object itself. *)
Definition submission (transcriptRequest : gmap string jsval) : request :=
  {| req_url := ASSEMBLYAI_BASE_URL +:+ "/transcript";
     req_method := "POST";
     req_headers := [("authorization", ASSEMBLYAI_API_KEY);
                     ("content-type", "application/json")];
     req_body := BodyJson transcriptRequest |}.

Definition startTranscription (audioUrl : jsval) (options : gmap string jsval)
  : M jsval :=
  try_catch
    (console_log "Iniciando transcrição...";;
     response ← fetch (submission (transcriptRequest audioUrl options));
     if negb (resp_ok response) then
       errorText ← response_text response;
       throw (Error ("Erro ao iniciar transcrição: "
                     +:+ Str.of_N (resp_status response)
                     +:+ " - " +:+ errorText))
     else
       data ← response_json response;
       id ← member data "id";
       console_log "Transcrição iniciada:";;
       mret id)
    (λ error, console_error "Erro ao iniciar transcrição:";; throw error).

(** *** waitForTranscription (server.js 182-213) *)

(** The request of lines 186-190.  The id is rendered by [to_string], as
    an id that the vendor has issued, a string, is. *)
Definition status_request (transcriptId : jsval) : request :=
  {| req_url := ASSEMBLYAI_BASE_URL +:+ "/transcript/" +:+ to_string transcriptId;
     req_method := "GET";
     req_headers := [("authorization", ASSEMBLYAI_API_KEY)];
     req_body := NoBody |}.

(** The [while (true)] loop; one unit of [fuel] per iteration. *)
Fixpoint poll (fuel : nat) (transcriptId : jsval) : M jsval :=
  match fuel with
  | O => hang
  | S fuel' =>
      response ← fetch (status_request transcriptId);
      if negb (resp_ok response) then
        errorText ← response_text response;
        throw (Error ("Erro ao verificar status: "
                      +:+ Str.of_N (resp_status response)
                      +:+ " - " +:+ errorText))
      else
        data ← response_json response;
        status ← member data "status";
        console_log "Status da transcrição:";;
        if strict_eq_str status "completed" then
          console_log "Transcrição concluída!";;
          mret data
        else if strict_eq_str status "error" then
          error ← member data "error";
          rendered ← template error;
          throw (Error ("Erro na transcrição: " +:+ rendered))
        else
          sleep 3000;;
          poll fuel' transcriptId
  end.

(** Every iteration consumes one answer of the network and [fetch] hangs
    when none is left, so a loop that is still running after all answers
    are used neither returns nor throws: the fuel below is never exhausted
    ([poll_fuel]). *)
Definition waitForTranscription (transcriptId : jsval) : M jsval :=
  try_catch
    (console_log "Aguardando conclusão da transcrição...";;
     w ← get_state;
     poll (S (length (net w))) transcriptId)
    (λ error, console_error "Erro ao aguardar transcrição:";; throw error).

(** *** transcribeAudio (server.js 215-238) *)

(** The object returned by [transcribeAudio]; a key that the object does not
    carry reads as [JUndefined]. *)
Record transcription := {
  text : jsval;
  confidence : jsval;
  language_code : jsval;
  words : jsval;
  utterances : jsval
}.

Definition placeholder_text (filePath : string) : string :=
  "Transcrição simulada usando AssemblyAI para o arquivo: "
  +:+ path_basename E filePath +:+ LF +:+ LF
  +:+ "Esta é uma demonstração. Para funcionar de verdade, você precisa configurar sua chave da AssemblyAI nas variáveis de ambiente.".

Definition transcribeAudio (filePath : string) (options : gmap string jsval)
  : M transcription :=
  try_catch
    (if String.eqb ASSEMBLYAI_API_KEY "sua-chave-aqui" then
       mret {| text := JStr (placeholder_text filePath);
               confidence := JNum 0.95;
               language_code := js_or (prop options "language") (JStr "pt");
               words := JUndefined;
               utterances := JUndefined |}
     else
       audioUrl ← uploadToAssemblyAI filePath;
       transcriptId ← startTranscription audioUrl options;
       result ← waitForTranscription transcriptId;
       result_text ← member result "text";
       result_confidence ← member result "confidence";
       result_language_code ← member result "language_code";
       result_words ← member result "words";
       result_utterances ← member result "utterances";
       mret {| text := result_text;
               confidence := result_confidence;
               language_code := result_language_code;
               words := result_words;
               utterances := result_utterances |})
    (λ error, console_error "Erro na transcrição:";; throw error).

(** *** validateMediaFile (server.js 240-262) *)

Record file_info := {
  info_size : N;
  info_extension : string;
  info_name : string
}.

Definition allowedExtensions : list string :=
  [".mp4"; ".avi"; ".mov"; ".mkv"; ".webm"; ".mp3"; ".wav"; ".m4a"; ".aac"; ".flac"].

(** [xs.includes(x)] on an array of strings *)
Definition includes (xs : list string) (x : string) : bool :=
  existsb (String.eqb x) xs.

Definition unsupported_message (extension : string) : string :=
  "Formato não suportado: " +:+ extension +:+ ". Formatos aceitos: "
  +:+ Str.join ", " allowedExtensions.

Definition validateMediaFile (filePath originalName : string) : M file_info :=
  found ← existsSync (Some filePath);
  if negb found then throw (Error "Arquivo não encontrado")
  else
    stats ← statSync filePath;
    if N.eqb (size stats) 0 then throw (Error "Arquivo está vazio")
    else
      let extension := toLowerCase E (path_extname E originalName) in
      if negb (includes allowedExtensions extension) then
        throw (Error (unsupported_message extension))
      else
        console_log "Arquivo validado:";;
        mret {| info_size := size stats;
                info_extension := extension;
                info_name := originalName |}.

(** ** Route handlers of server.js *)

(** [res.status(status).json(body)] and [res.json(body)] (status 200) *)
Definition respond (status : N) (body : gmap string jsval) : M unit :=
  act (emit (Respond status body)).

(** [await play.validate(url)] *)
Definition validate (url : jsval) : M jsval :=
  match play_validate E url with
  | inl v => mret v
  | inr e => throw e
  end.

(** Lines 315-326: [play.stream], the pipe into a write stream on [target]
    and the wait for ['finish'] or ['error']. *)
Definition download (url : jsval) (target : string) : M unit := λ w,
  let r := play_download E url target in
  let w1 := emit (Download url target) w in
  (match dl_error r with
   | Some e => Throw e
   | None => if dl_finish r then Return () else Hang
   end,
   match dl_file r with
   | Some f => set_fs (insert target f) w1
   | None => w1
   end).

(** Lines 334-337 and 400-403 *)
Definition transcriptionOptions (language : jsval) : gmap string jsval :=
  if truthy language && negb (strict_eq_str language "auto")
  then {[ "language" := language ]}
  else ∅.

(** Lines 339-345 and 404-409 *)
Definition transcribe_and_reply (convertedPath : string) (language : jsval)
  : M unit :=
  result ← transcribeAudio convertedPath (transcriptionOptions language);
  respond 200 {[ "transcription" := text result;
                 "confidence" := confidence result;
                 "language_detected" := language_code result ]}.

(** *** POST /api/transcribe-youtube (server.js 293-357) *)

Record youtube_vars := {
  audioPath : option string;
  convertedPath : option string
}.

Definition youtube_try (body : gmap string jsval)
  : M_ (youtube_vars * world) unit :=
  let url := prop body "url" in
  let language := prop body "language" in
  validation ← call (validate url);
  if negb (strict_eq_str validation "yt_video") then
    call (respond 400
            {[ "error" := JStr "URL do YouTube inválida ou não suportada" ]})
  else
    call (console_log "Processando YouTube com play-dl:");;
    t1 ← call now;
    let audio := "temp_youtube_" +:+ Str.of_N t1 +:+ ".webm" in
    assign (λ vars, {| audioPath := Some audio;
                       convertedPath := convertedPath vars |});;
    t2 ← call now;
    let converted := "temp_youtube_" +:+ Str.of_N t2 +:+ ".wav" in
    assign (λ vars, {| audioPath := audioPath vars;
                       convertedPath := Some converted |});;
    call (download url audio;;
          console_log "Áudio baixado, convertendo...";;
          convertVideoToAudio audio converted;;
          transcribe_and_reply converted language).

Definition youtube_catch (error : js_error) : M unit :=
  console_error "Erro YouTube:";;
  respond 500
    {[ "error" := JStr ("Erro ao processar vídeo do YouTube: " +:+ message error) ]}.

Definition youtube_finally : M_ (youtube_vars * world) unit :=
  s ← get_state;
  call (cleanupFile (audioPath (fst s)));;
  call (cleanupFile (convertedPath (fst s))).

Definition transcribe_youtube (body : gmap string jsval) : M unit :=
  scope {| audioPath := None; convertedPath := None |}
    (try_finally
       (try_catch (youtube_try body) (λ error, call (youtube_catch error)))
       youtube_finally).

(** *** POST /api/transcribe-file (server.js 380-419) *)

(** [req.file] as multer fills it in. *)
Record multer_file := {
  file_path : string;
  filename : string;
  originalname : string
}.

(** The only [let] variable of the handler is [convertedPath]. *)
Definition file_try (file : option multer_file) (body : gmap string jsval)
  : M_ (option string * world) unit :=
  match file with
  | None => call (respond 400 {[ "error" := JStr "Nenhum arquivo enviado" ]})
  | Some f =>
      let language := prop body "language" in
      call (console_log "Processando arquivo:");;
      valid ← call (try_catch
                      (validateMediaFile (file_path f) (originalname f);;
                       mret true)
                      (λ error,
                         respond 400
                           {[ "error" := JStr ("Arquivo inválido: "
                                               +:+ message error) ]};;
                         mret false));
      if valid : bool then
        let fileExtension := path_extname E (filename f) in
        let baseName := path_basename_ext E (filename f) fileExtension in
        let converted := path_join E "uploads" (baseName +:+ "_converted.wav") in
        assign (λ _, Some converted);;
        call (console_log "Convertendo para áudio...";;
              convertVideoToAudio (file_path f) converted;;
              transcribe_and_reply converted language)
      else mret ()
  end.

Definition file_catch (error : js_error) : M unit :=
  console_error "Erro arquivo:";;
  respond 500
    {[ "error" := JStr ("Erro ao processar arquivo: " +:+ message error) ]}.

Definition file_finally (file : option multer_file)
  : M_ (option string * world) unit :=
  s ← get_state;
  call (cleanupFile (file_path <$> file));;
  call (cleanupFile (fst s)).

Definition transcribe_file (file : option multer_file) (body : gmap string jsval)
  : M unit :=
  scope None
    (try_finally
       (try_catch (file_try file body) (λ error, call (file_catch error)))
       (file_finally file)).

End Server.

(** ** A concrete environment

    Used to run the model on sample inputs: Node's POSIX [path.extname], a
    plain reading of [basename] and [join] that is enough for paths without
    ["."], [".."] or repeated separators, ASCII case folding, and encoders
    with a fixed behaviour. *)

Module Sample.

(** State of the backward scan of [path.posix.extname]. *)
Record scan := {
  startDot : Z;
  startPart : Z;
  scan_end : Z;
  matchedSlash : bool;
  preDotState : Z;
  stopped : bool
}.

Definition scan_step (st : scan) (ic : nat * ascii) : scan :=
  let i := Z.of_nat (fst ic) in
  let code := snd ic in
  if stopped st then st
  else if Ascii.eqb code "/" then
    if negb (matchedSlash st)
    then {| startDot := startDot st; startPart := i + 1; scan_end := scan_end st;
            matchedSlash := matchedSlash st; preDotState := preDotState st;
            stopped := true |}
    else st
  else
    let st1 :=
      if Z.eqb (scan_end st) (-1)
      then {| startDot := startDot st; startPart := startPart st;
              scan_end := i + 1; matchedSlash := false;
              preDotState := preDotState st; stopped := false |}
      else st in
    if Ascii.eqb code "." then
      if Z.eqb (startDot st1) (-1)
      then {| startDot := i; startPart := startPart st1;
              scan_end := scan_end st1; matchedSlash := matchedSlash st1;
              preDotState := preDotState st1; stopped := false |}
      else if negb (Z.eqb (preDotState st1) 1)
      then {| startDot := startDot st1; startPart := startPart st1;
              scan_end := scan_end st1; matchedSlash := matchedSlash st1;
              preDotState := 1; stopped := false |}
      else st1
    else if negb (Z.eqb (startDot st1) (-1))
    then {| startDot := startDot st1; startPart := startPart st1;
            scan_end := scan_end st1; matchedSlash := matchedSlash st1;
            preDotState := -1; stopped := false |}
    else st1.

Definition posix_extname (path : string) : string :=
  let chars := list_ascii_of_string path in
  let st := fold_left scan_step
              (rev (combine (seq 0 (length chars)) chars))
              {| startDot := -1; startPart := 0; scan_end := -1;
                 matchedSlash := true; preDotState := 0; stopped := false |} in
  if Z.eqb (startDot st) (-1) || Z.eqb (scan_end st) (-1)
     || Z.eqb (preDotState st) 0
     || (Z.eqb (preDotState st) 1
         && Z.eqb (startDot st) (scan_end st - 1)
         && Z.eqb (startDot st) (startPart st + 1))
  then ""
  else String.substring (Z.to_nat (startDot st))
         (Z.to_nat (scan_end st - startDot st)) path.

(** The part of [path] after its last ["/"]. *)
Fixpoint plain_basename (path : string) : string :=
  match path with
  | EmptyString => EmptyString
  | String c rest =>
      if Str.includes rest "/" then plain_basename rest
      else if Ascii.eqb c "/" then rest
      else path
  end.

(** [plain_basename] with the suffix [ext] removed when it is a proper suffix. *)
Definition plain_basename_ext (path ext : string) : string :=
  let name := plain_basename path in
  if Str.endsWith name ext && negb (String.eqb name ext)
  then String.substring 0 (String.length name - String.length ext) name
  else name.

Definition plain_join (dir name : string) : string := dir +:+ "/" +:+ name.

Definition lower (c : ascii) : ascii :=
  let n := nat_of_ascii c in
  if (65 <=? n)%nat && (n <=? 90)%nat then ascii_of_nat (n + 32) else c.

Fixpoint ascii_toLowerCase (s : string) : string :=
  match s with
  | EmptyString => EmptyString
  | String c s' => String (lower c) (ascii_toLowerCase s')
  end.

Definition encoder_error : js_error := Error "ffmpeg exited with code 1".

(** An encoder that fails on every run and leaves no file. *)
Definition failing_encoder (_ : ffmpeg_command) (_ : string) : encode_result :=
  {| enc_error := Some encoder_error; enc_end := false; enc_file := None |}.

(** An encoder that can write WAV only. *)
Definition wav_only_encoder (command : ffmpeg_command) (_ : string)
  : encode_result :=
  match cmd_format command with
  | Some "wav" => {| enc_error := None; enc_end := true;
                     enc_file := Some {| size := 32000; unlink_error := None |} |}
  | _ => {| enc_error := Some encoder_error; enc_end := false;
            enc_file := None |}
  end.

Definition environment (key : option string)
  (encoder : ffmpeg_command → string → encode_result) : env :=
  {| env_api_key := key;
     path_extname := posix_extname;
     path_basename := plain_basename;
     path_basename_ext := plain_basename_ext;
     path_join := plain_join;
     toLowerCase := ascii_toLowerCase;
     Number_toString := λ _, "NaN"; (* no number is rendered in the samples *)
     ffmpeg_run := encoder;
     Date_now := λ n, (1700000000000 + N.of_nat n)%N;
     play_validate := λ _, inl (JStr "yt_video");
     play_download := λ _ _,
       {| dl_error := None; dl_finish := true;
          dl_file := Some {| size := 500000; unlink_error := None |} |} |}.

Definition empty_world : world :=
  {| fs := ∅; net := []; ticks := 0; trace := []; console := [] |}.

(** A world in which the network is going to give the [answers]. *)
Definition vendor_world (answers : list fetch_outcome) : world :=
  {| fs := ∅; net := answers; ticks := 0; trace := []; console := [] |}.

Definition EPERM : js_error := Error "EPERM: operation not permitted, unlink".

(** An upload as multer stores it. *)
Definition upload : multer_file :=
  {| file_path := "uploads/1700-clip.mp4";
     filename := "1700-clip.mp4";
     originalname := "clip.mp4" |}.

(** A world whose storage holds one file. *)
Definition storage_world (path : string) (f : inode) : world :=
  {| fs := {[ path := f ]}; net := []; ticks := 0; trace := []; console := [] |}.

End Sample.

(** ** Notions used in the statements *)

(** A pattern without ["."] *)
Fixpoint dot_free (q : string) : bool :=
  match q with
  | EmptyString => true
  | String a q' => negb (Ascii.eqb a ".") && dot_free q'
  end.

(** The response is a success whose body parses to the object [payload]. *)
Definition carries (r : response) (payload : gmap string jsval) : Prop :=
  resp_ok r = true ∧ resp_json r = inl (JObj payload).

(** An answer to a status request that reports a job still under way: a
    success whose payload has a status other than 'completed' and 'error'
    ('queued', 'processing', ...). *)
Definition pending (o : fetch_outcome) : Prop :=
  ∃ r payload,
    o = NetReply r ∧ carries r payload ∧
    strict_eq_str (prop payload "status") "completed" = false ∧
    strict_eq_str (prop payload "status") "error" = false.

(** The external actions of [n] polls that found the job under way. *)
Definition pending_polls (rq : request) (n : nat) : list event :=
  concat (replicate n [Fetch rq; Sleep 3000]).

(** A mocked vendor answer with the given status and further fields. *)
Definition vendor_reply (status : string) (fields : gmap string jsval)
  : fetch_outcome :=
  NetReply {| resp_ok := true; resp_status := 200; resp_text := "";
              resp_json := inl (JObj (<["status" := JStr status]> fields)) |}.

(** The HTTP responses sent, in order. *)
Definition responses (tr : list event) : list (N * gmap string jsval) :=
  omap (λ e, match e with
             | Respond status body => Some (status, body)
             | _ => None
             end) tr.

(** A computation that sends no HTTP response. *)
Definition quiet {A} (m : M A) : Prop :=
  ∀ w, responses (trace (m w).2) = responses (trace w).

(** What one call of [cleanupFile] on [p] does to the world: it asks whether
    the file exists and, if so, tries to unlink it; the file is gone
    afterwards, or the failure to unlink it is on the console. *)
Definition cleanup_effect (p : option string) (w w' : world) : Prop :=
  net w' = net w ∧ ticks w' = ticks w ∧
  match p ≫= λ path, fs w !! path with
  | None =>
      trace w' = trace w ++ [ExistsSync p] ∧
      fs w' = fs w ∧ console w' = console w
  | Some f =>
      trace w' = trace w ++ [ExistsSync p; UnlinkSync p] ∧
      match unlink_error f with
      | None =>
          fs w' = from_option (λ path, delete path (fs w)) (fs w) p ∧
          console w' = console w ++ [("log", "Arquivo removido:")]
      | Some _ =>
          fs w' = fs w ∧
          console w' = console w ++ [("error", "Erro ao remover arquivo:")]
      end
  end.

(** ** Statements of the specification that the code does not satisfy

    Each is written down as the specification words it and refuted below. *)

(** "If encoding to the compressed format fails for any reason, the
    Normalizer retries the entire conversion targeting the WAV path and
    returns that path": for every output path that does not end in ".wav",
    a failed first attempt is followed by exactly one more run of the
    encoder, on some WAV path, whose success is the result. *)
Definition fallback_for_every_compressed_target : Prop :=
  ∀ (E : env) (inputPath outputPath : string) (w : world) (err : js_error),
    Str.endsWith outputPath ".wav" = false →
    enc_error (ffmpeg_run E (build_command inputPath false) outputPath) = Some err →
    ∃ wavPath : string,
      Str.endsWith wavPath ".wav" = true ∧
      trace (convertVideoToAudio E inputPath outputPath w).2 =
        trace w ++ [Encode (build_command inputPath false) outputPath;
                    Encode (build_command inputPath true) wavPath] ∧
      (enc_error (ffmpeg_run E (build_command inputPath true) wavPath) = None →
       enc_end (ffmpeg_run E (build_command inputPath true) wavPath) = true →
       (convertVideoToAudio E inputPath outputPath w).1 = Return wavPath).

(** "With no credential configured, transcribe returns a placeholder result
    without making any network call, and the placeholder's language_code
    equals the requested option or a fixed default when none was
    requested": for every options value, the requested option being the
    [language] that the options carry. *)
Definition placeholder_language_for_every_options : Prop :=
  ∀ (E : env) (filePath : string) (options : gmap string jsval) (w : world),
    ASSEMBLYAI_API_KEY E = "sua-chave-aqui" →
    ∃ result,
      transcribeAudio E filePath options w = (Return result, w) ∧
      confidence result = JNum 0.95 ∧
      (∀ c, options !! "language" = Some c → language_code result = c) ∧
      (options !! "language" = None → language_code result = JStr "pt").

(** "Request defaults: punctuation enabled, text formatting enabled, language
    auto-detection enabled unless a concrete language code is supplied, in
    which case auto-detection is disabled and the code is passed through":
    for every options value. *)
Definition submission_defaults_for_every_options : Prop :=
  ∀ (audioUrl : jsval) (options : gmap string jsval),
    let request := transcriptRequest audioUrl options in
    request !! "punctuate" = Some (JBool true) ∧
    request !! "format_text" = Some (JBool true) ∧
    (options !! "language" = None ∨ options !! "language" = Some (JStr "auto") →
     request !! "language_detection" = Some (JBool true)) ∧
    (∀ c, options !! "language" = Some c → truthy c = true → c ≠ JStr "auto" →
          request !! "language_code" = Some c ∧
          request !! "language_detection" ≠ Some (JBool true)).

(** "validateMediaFile accepts non-empty files and rejects empty files and
    unsupported extensions, returning the rejecting extension in the error
    message": for every existing file and original name, each of the three
    clauses on its own. *)
Definition validation_contract_for_every_file : Prop :=
  ∀ (E : env) (w : world) (filePath originalName : string) (f : inode),
    fs w !! filePath = Some f →
    let extension := toLowerCase E (path_extname E originalName) in
    let result := (validateMediaFile E filePath originalName w).1 in
    (size f ≠ 0%N → includes allowedExtensions extension = true →
     result = Return {| info_size := size f; info_extension := extension;
                        info_name := originalName |}) ∧
    (size f = 0%N → ∃ e, result = Throw e) ∧
    (includes allowedExtensions extension = false →
     ∃ e, result = Throw e ∧
          Str.contains (message e) extension ∧
          Str.contains (message e) (Str.join ", " allowedExtensions)).

(** ** Text post-processing (server.js 264-285) *)

Module Text.

(** The characters of the class [[.!?]] *)
Definition is_separator (c : ascii) : bool :=
  Ascii.eqb c "." || Ascii.eqb c "!" || Ascii.eqb c "?".

(** [s.split(/[.!?]+/)]: the pieces between maximal runs of separators.
    The first piece of the result is the one being read; [after_separator]
    tells that the previous character belonged to a run, which a further
    separator only prolongs. *)
Fixpoint split_from (after_separator : bool) (s : string) : list string :=
  match s with
  | EmptyString => [""]
  | String c s' =>
      if is_separator c then
        if after_separator then split_from true s'
        else "" :: split_from true s'
      else
        match split_from false s' with
        | piece :: pieces => String c piece :: pieces
        | [] => [String c ""]
        end
  end.

Definition split_sentences (s : string) : list string := split_from false s.

(** White space and line terminators of ECMAScript, in UTF-8: TAB, LF, VT,
    FF, CR and SP in one byte; U+00A0 in two; U+1680, U+2000 to U+200A,
    U+2028, U+2029, U+202F, U+205F, U+3000 and U+FEFF in three. *)
Definition ws1 (a : ascii) : bool :=
  let x := N_of_ascii a in
  ((9 <=? x) && (x <=? 13) || (x =? 32))%N.

Definition ws2 (a b : ascii) : bool :=
  ((N_of_ascii a =? 194) && (N_of_ascii b =? 160))%N.

Definition ws3 (a b c : ascii) : bool :=
  let x := N_of_ascii a in
  let y := N_of_ascii b in
  let z := N_of_ascii c in
  ((x =? 225) && (y =? 154) && (z =? 128)
   || (x =? 226) && (y =? 128)
      && ((128 <=? z) && (z <=? 138) || (z =? 168) || (z =? 169) || (z =? 175))
   || (x =? 226) && (y =? 129) && (z =? 159)
   || (x =? 227) && (y =? 128) && (z =? 128)
   || (x =? 239) && (y =? 187) && (z =? 191))%N.

(** [s.trimStart()] *)
Fixpoint trimStart (s : string) : string :=
  match s with
  | EmptyString => EmptyString
  | String a s1 =>
      if ws1 a then trimStart s1
      else match s1 with
           | EmptyString => s
           | String b s2 =>
               if ws2 a b then trimStart s2
               else match s2 with
                    | EmptyString => s
                    | String c s3 => if ws3 a b c then trimStart s3 else s
                    end
           end
  end.

(** [s.trimEnd()]: the string up to the first position from which on
    everything is white space. *)
Fixpoint trimEnd (s : string) : string :=
  match s with
  | EmptyString => EmptyString
  | String c s' =>
      if String.eqb (trimStart s) "" then EmptyString
      else String c (trimEnd s')
  end.

(** [s.trim()] *)
Definition trim (s : string) : string := trimEnd (trimStart s).

End Text.

Section Processing.

Context (E : env).

(** *** translateText (server.js 264-271) *)

Definition translateText (text : jsval) : M string :=
  try_catch
    (rendered ← template E text;
     mret ("[TRADUÇÃO SIMULADA] " +:+ rendered))
    (λ error,
       console_error "Erro na tradução:";;
       throw (Error ("Falha ao traduzir o texto: " +:+ message error))).

(** *** formatText (server.js 273-285) *)

(** Lines 275-280 on a string. *)
Definition format_sentences (text : string) : string :=
  let formatted :=
    Str.join ("." +:+ LF +:+ LF)
      (List.map Text.trim
         (List.filter (λ sentence, (0 <? String.length (Text.trim sentence))%nat)
            (Text.split_sentences text))) in
  formatted +:+ ".".

(** On a value that is not a string, [text.split] is not callable. *)
Definition formatText (text : jsval) : M string :=
  try_catch
    (match text with
     | JStr s => mret (format_sentences s)
     | JUndefined | JNull =>
         throw (TypeError ("Cannot read properties of " +:+ to_string E text
                           +:+ " (reading 'split')"))
     | _ => throw (TypeError "text.split is not a function")
     end)
    (λ error,
       console_error "Erro na formatação:";;
       throw (Error ("Falha ao formatar o texto: " +:+ message error))).

(** *** POST /api/process-text (server.js 458-484) *)

(** A destructuring default: it applies when the property is [undefined]. *)
Definition default_to (d v : jsval) : jsval :=
  match v with
  | JUndefined => d
  | _ => v
  end.

Definition process_text_try (body : gmap string jsval) : M unit :=
  let text := prop body "text" in
  let shouldTranslate := default_to (JBool true) (prop body "shouldTranslate") in
  let shouldFormat := default_to (JBool true) (prop body "shouldFormat") in
  if negb (truthy text) then
    respond 400 {[ "error" := JStr "Texto não fornecido" ]}
  else
    let processedText := text in
    processedText ←
      (if truthy shouldTranslate
       then translated ← translateText processedText; mret (JStr translated)
       else mret processedText);
    processedText ←
      (if truthy shouldFormat
       then formatted ← formatText processedText; mret (JStr formatted)
       else mret processedText);
    respond 200
      {[ "processedText" := processedText;
         "operations" := JObj {[ "translated" := shouldTranslate;
                                 "formatted" := shouldFormat ]} ]}.

Definition process_text (body : gmap string jsval) : M unit :=
  try_catch (process_text_try body)
    (λ error,
       console_error "Erro ao processar texto:";;
       respond 500
         {[ "error" := JStr ("Erro ao processar texto: " +:+ message error) ]}).

(** *** GET /api/health (server.js 447-455) *)

(** [!!(ASSEMBLYAI_API_KEY && ASSEMBLYAI_API_KEY !== 'sua-chave-aqui')] *)
Definition hasAssemblyAI : bool :=
  truthy (JStr (ASSEMBLYAI_API_KEY E))
  && negb (String.eqb (ASSEMBLYAI_API_KEY E) "sua-chave-aqui").

(** The handler, given what [new Date().toISOString()] and the
    [ffmpeg-static] import evaluate to. *)
Definition health (timestamp : string) (ffmpegStatic : jsval) : M unit :=
  respond 200
    {[ "status" := JStr "ok";
       "timestamp" := JStr timestamp;
       "hasAssemblyAI" := JBool hasAssemblyAI;
       "ffmpegPath" := ffmpegStatic;
       "service" := JStr "AssemblyAI" ]}.

End Processing.

(** ** Further notions used in the statements *)

(** The rest of [s] after one leading white-space character, if [s] starts
    with one. *)
Definition leading_space (s : string) : option string :=
  match s with
  | EmptyString => None
  | String a s1 =>
      if Text.ws1 a then Some s1
      else match s1 with
           | EmptyString => None
           | String b s2 =>
               if Text.ws2 a b then Some s2
               else match s2 with
                    | EmptyString => None
                    | String c s3 => if Text.ws3 a b c then Some s3 else None
                    end
           end
  end.

(** No character of [s] is ".", "!" or "?". *)
Fixpoint separator_free (s : string) : bool :=
  match s with
  | EmptyString => true
  | String c s' => negb (Text.is_separator c) && separator_free s'
  end.

(** The character [c] does not occur in [s]. *)
Fixpoint char_free (c : ascii) (s : string) : bool :=
  match s with
  | EmptyString => true
  | String x s' => negb (Ascii.eqb x c) && char_free c s'
  end.

(** A sentence as [formatText] prints it: not empty, trimmed, and without
    ".", "!" or "?". *)
Definition sentence (q : string) : Prop :=
  q ≠ "" ∧ Text.trim q = q ∧ separator_free q = true.

(** Every character of [s] is ".", "!" or "?". *)
Fixpoint all_separators (s : string) : bool :=
  match s with
  | EmptyString => true
  | String c s' => Text.is_separator c && all_separators s'
  end.

(** A text put together from its pieces: [first], and then every run of
    separators with the piece that follows it. *)
Fixpoint interleave (first : string) (rest : list (string * string)) : string :=
  match rest with
  | [] => first
  | (run, piece) :: rest' => first +:+ run +:+ interleave piece rest'
  end.

(** [pieces] are, in order, the parts of [text] between runs of ".", "!"
    and "?": the text is its pieces with a non-empty run of separators
    between any two neighbours, and no piece contains a separator. *)
Definition cut_at_separators (text : string) (pieces : list string) : Prop :=
  ∃ first rest,
    pieces = first :: List.map snd rest ∧
    text = interleave first rest ∧
    separator_free first = true ∧
    Forall (λ rp : string * string,
              rp.1 ≠ "" ∧ all_separators rp.1 = true ∧
              separator_free rp.2 = true) rest.

(** The pieces as [formatText] prints them: those that are not blank,
    trimmed. *)
Definition printed (pieces : list string) : list string :=
  List.map Text.trim
    (List.filter (λ piece, negb (String.eqb (Text.trim piece) "")) pieces).

(** The separator that [formatText] puts between sentences. *)
Definition paragraph_break : string := "." +:+ LF +:+ LF.

(** A computation all of whose runs relate the world before to the world
    after by [I]. *)
Definition keeps {A} (I : world → world → Prop) (m : M A) : Prop :=
  ∀ w, I w (m w).2.

(** Local storage is the same. *)
Definition same_storage (w w' : world) : Prop := fs w' = fs w.

(** No file has been removed. *)
Definition no_file_lost (w w' : world) : Prop :=
  ∀ path, is_Some (fs w !! path) → is_Some (fs w' !! path).

(** No answer of the network has been consumed. *)
Definition same_network (w w' : world) : Prop := net w' = net w.

(** The external actions in between all satisfy [Q]. *)
Definition emits (Q : event → Prop) (w w' : world) : Prop :=
  ∃ actions, trace w' = trace w ++ actions ∧ Forall Q actions.

(** The actions of [transcribeAudio]: reading the audio file at [filePath],
    requests that carry the credential [key], and waits of 3000 ms. *)
Definition vendor_action (filePath key : string) (e : event) : Prop :=
  match e with
  | ReadFileSync p => p = filePath
  | Fetch rq => ("authorization", key) ∈ req_headers rq
  | Sleep ms => ms = 3000%N
  | _ => False
  end.

(** The actions of [validateMediaFile] on [filePath]. *)
Definition inspection (filePath : string) (e : event) : Prop :=
  e = ExistsSync (Some filePath) ∨ e = StatSync filePath.

(** A run of the encoder on [inputPath] with the canonical audio settings:
    16 kHz, one channel. *)
Definition canonical_run (inputPath : string) (e : event) : Prop :=
  match e with
  | Encode command _ =>
      cmd_input command = inputPath ∧
      cmd_frequency command = Some 16000%N ∧
      cmd_channels command = Some 1%N
  | _ => False
  end.

(** The request of [uploadToAssemblyAI] (server.js 120-127) for a file. *)
Definition upload_request (E : env) (fileData : inode) : request :=
  {| req_url := ASSEMBLYAI_BASE_URL +:+ "/upload";
     req_method := "POST";
     req_headers := [("authorization", ASSEMBLYAI_API_KEY E);
                     ("content-type", "application/octet-stream")];
     req_body := BodyFile fileData |}.

(** The message built from a response with a non-success status. *)
Definition http_failure (what : string) (r : response) : string :=
  what +:+ Str.of_N (resp_status r) +:+ " - " +:+ resp_text r.

(** ** Further sample values *)

Module Scenario.

Definition audio : inode := {| size := 32000; unlink_error := None |}.

(** A world whose storage holds one file and whose network is going to
    give the [answers]. *)
Definition world_with (path : string) (f : inode)
  (answers : list fetch_outcome) : world :=
  {| fs := {[ path := f ]}; net := answers; ticks := 0; trace := [];
     console := [] |}.

(** A success whose body parses to the object [payload]. *)
Definition reply (payload : gmap string jsval) : fetch_outcome :=
  NetReply {| resp_ok := true; resp_status := 200; resp_text := "";
              resp_json := inl (JObj payload) |}.

(** A response with a non-success status and a body that is not JSON. *)
Definition refusal (status : N) (body : string) : fetch_outcome :=
  NetReply {| resp_ok := false; resp_status := status; resp_text := body;
              resp_json := inr (Error "Unexpected token in JSON") |}.

End Scenario.

(** An action of the pipeline proper: a download, a run of the encoder, a
    read of a file's content or a request to the vendor. *)
Definition pipeline_action (e : event) : bool :=
  match e with
  | Download _ _ | Encode _ _ | ReadFileSync _ | Fetch _ => true
  | _ => false
  end.

Definition is_string (v : jsval) : bool :=
  match v with
  | JStr _ => true
  | _ => false
  end.

(** The answer of the YouTube route to a URL that [play.validate] does not
    classify as a video, or on which it throws. *)
Definition youtube_refusal (validation : jsval + js_error)
  : N * gmap string jsval :=
  match validation with
  | inl _ =>
      (400%N, {[ "error" := JStr "URL do YouTube inválida ou não suportada" ]})
  | inr e =>
      (500%N, {[ "error" := JStr ("Erro ao processar vídeo do YouTube: "
                                  +:+ message e) ]})
  end.

(** The status of the answer of the text route (server.js 458-484). *)
Definition process_text_status (text shouldTranslate shouldFormat : jsval) : N :=
  if negb (truthy text) then 400%N
  else if truthy shouldTranslate
       then if renders text then 200%N else 500%N
       else if truthy shouldFormat && negb (is_string text) then 500%N
            else 200%N.

Module Visitor.

(** The sample environment with a [play.validate] that gives [validation]
    for every URL and a download that behaves as [stream]. *)
Definition environment (validation : jsval + js_error)
  (stream : download_result) : env :=
  let E := Sample.environment (Some "key") Sample.failing_encoder in
  {| env_api_key := env_api_key E;
     path_extname := path_extname E;
     path_basename := path_basename E;
     path_basename_ext := path_basename_ext E;
     path_join := path_join E;
     toLowerCase := toLowerCase E;
     Number_toString := Number_toString E;
     ffmpeg_run := ffmpeg_run E;
     Date_now := Date_now E;
     play_validate := λ _, validation;
     play_download := λ _ _, stream |}.

End Visitor.

(** An action of the transcription proper: the read of the audio file, a
    request to the vendor or a wait between two requests. *)
Definition transcription_action (e : event) : bool :=
  match e with
  | ReadFileSync _ | Fetch _ | Sleep _ => true
  | _ => false
  end.

(** The file at [path] is gone, or a failure to remove a file has been
    printed. *)
Definition removed_or_reported (path : string) (w : world) : Prop :=
  fs w !! path = None ∨ ("error", "Erro ao remover arquivo:") ∈ console w.

(** A run of the encoder that ended in an error. *)
Definition failed_run (E : env) (e : event) : Prop :=
  match e with
  | Encode command target => enc_error (ffmpeg_run E command target) ≠ None
  | _ => False
  end.

(** * Properties *)

(** ** Strings *)

Lemma string_app_cons (c : ascii) (a b : string) : String c a +:+ b = String c (a +:+ b).
Proof. reflexivity. Qed.

Lemma string_app_empty (b : string) : "" +:+ b = b.
Proof. reflexivity. Qed.

Lemma prefix_cons (a b : ascii) (p s : string) :
  String.prefix (String a p) (String b s) =
  if ascii_dec a b then String.prefix p s else false.
Proof. reflexivity. Qed.

Lemma prefix_split (p s : string) :
  String.prefix p s = true → s = p +:+ Str.slice_from (String.length p) s.
Proof.
  revert s. induction p as [|a p IH]; intros s H; [reflexivity|].
  destruct s as [|b s]; [discriminate|]. simpl in *.
  destruct (ascii_dec a b) as [->|]; [|discriminate].
  rewrite string_app_cons. f_equal. by apply IH.
Qed.

Lemma endsWith_app (a suffix : string) : Str.endsWith (a +:+ suffix) suffix = true.
Proof.
  induction a as [|c a IH].
  - rewrite string_app_empty. destruct suffix; cbn [Str.endsWith]; by rewrite String.eqb_refl.
  - rewrite string_app_cons. cbn [Str.endsWith]. rewrite IH. by destruct (String.eqb _ _).
Qed.

Lemma endsWith_split (s suffix : string) :
  Str.endsWith s suffix = true → ∃ stem, s = stem +:+ suffix.
Proof.
  induction s as [|c s IH]; cbn [Str.endsWith].
  - destruct (String.eqb "" suffix) eqn:Heq; [|discriminate].
    apply String.eqb_eq in Heq as <-. by exists "".
  - destruct (String.eqb (String c s) suffix) eqn:Heq.
    + apply String.eqb_eq in Heq as <-. by exists "".
    + intros [stem ->]%IH. by exists (String c stem).
Qed.

(** *** Replacing the first ".mp3" by ".wav" *)

Lemma replace_unfold (p r s : string) :
  Str.replace p r s =
  if String.prefix p s then r +:+ Str.slice_from (String.length p) s
  else match s with
       | EmptyString => EmptyString
       | String c s' => String c (Str.replace p r s')
       end.
Proof. by destruct s. Qed.

(** The replacement creates no new match of a dot-free pattern at the head. *)
Lemma prefix_replace_false (q s : string) :
  dot_free q = true →
  String.prefix q s = false →
  String.prefix q (Str.replace ".mp3" ".wav" s) = false.
Proof.
  revert s. induction q as [|a q IH]; intros s Hq Hs.
  - destruct s; discriminate.
  - simpl in Hq. apply andb_true_iff in Hq as [Ha Hq].
    apply negb_true_iff, Ascii.eqb_neq in Ha.
    rewrite replace_unfold. destruct (String.prefix ".mp3" s) eqn:Hp.
    + rewrite string_app_cons, prefix_cons. destruct (ascii_dec a "."); congruence.
    + destruct s as [|c s]; [done|].
      rewrite prefix_cons in Hs |- *. destruct (ascii_dec a c); [|done]. by apply IH.
Qed.

Lemma occurrences_replace (s : string) :
  Str.occurrences ".mp3" s ≠ 0 →
  S (Str.occurrences ".mp3" (Str.replace ".mp3" ".wav" s)) = Str.occurrences ".mp3" s.
Proof.
  induction s as [|c s IH]; intros Hocc; [done|].
  cbn [Str.replace Str.occurrences] in *.
  destruct (String.prefix ".mp3" (String c s)) eqn:Hp.
  - apply prefix_split in Hp.
    remember (Str.slice_from (String.length ".mp3") (String c s)) as t eqn:Ht.
    clear Ht. rewrite !string_app_cons, string_app_empty in Hp. injection Hp as -> ->.
    rewrite !string_app_cons, string_app_empty. reflexivity.
  - cbn [Str.occurrences].
    assert (String.prefix ".mp3" (String c (Str.replace ".mp3" ".wav" s)) = false) as ->.
    { rewrite prefix_cons in Hp |- *. destruct (ascii_dec "." c); [|done].
      by apply prefix_replace_false. }
    simpl in *. by apply IH.
Qed.

Lemma occurrences_suffix (stem pattern : string) :
  Str.occurrences pattern (stem +:+ pattern) ≠ 0.
Proof.
  induction stem as [|c stem IH].
  - rewrite string_app_empty.
    assert (String.prefix pattern pattern = true) as Hp.
    { induction pattern as [|a p IHp]; simpl; [done|].
      by destruct (ascii_dec a a). }
    destruct pattern; cbn [Str.occurrences]; rewrite Hp; lia.
  - rewrite string_app_cons. cbn [Str.occurrences]. lia.
Qed.

Lemma occurrences_endsWith (s pattern : string) :
  Str.endsWith s pattern = true → Str.occurrences pattern s ≠ 0.
Proof. intros [stem ->]%endsWith_split. apply occurrences_suffix. Qed.

(** When ".mp3" occurs only as the extension, the replacement yields the
    same stem with the extension ".wav". *)
Lemma replace_extension (stem : string) :
  Str.occurrences ".mp3" (stem +:+ ".mp3") = 1 →
  Str.replace ".mp3" ".wav" (stem +:+ ".mp3") = stem +:+ ".wav".
Proof.
  induction stem as [|c stem IH]; [done|].
  rewrite !string_app_cons. cbn [Str.replace Str.occurrences].
  pose proof (occurrences_suffix stem ".mp3").
  destruct (String.prefix ".mp3" (String c (stem +:+ ".mp3"))); [lia|].
  intros Hocc. simpl in Hocc. by rewrite IH.
Qed.

Lemma eqb_length_ne (s t : string) :
  String.length s ≠ String.length t → String.eqb s t = false.
Proof. intros H. apply String.eqb_neq. congruence. Qed.

Lemma string_length_app (a b : string) :
  String.length (a +:+ b) = String.length a + String.length b.
Proof. induction a as [|c a IH]; [done|]. rewrite string_app_cons. simpl. by rewrite IH. Qed.

Lemma endsWith_short (s suffix : string) :
  String.length s < String.length suffix → Str.endsWith s suffix = false.
Proof.
  induction s as [|c s IH]; intros Hlen; cbn [Str.endsWith];
    (rewrite eqb_length_ne by lia); [done|].
  apply IH. simpl in Hlen. lia.
Qed.

(** Against a suffix of the same length, only the extension decides. *)
Lemma endsWith_extension (stem ext suffix : string) :
  String.length ext = String.length suffix →
  Str.endsWith (stem +:+ ext) suffix = String.eqb ext suffix.
Proof.
  intros Hlen. induction stem as [|c stem IH].
  - rewrite string_app_empty. destruct ext as [|a ext]; cbn [Str.endsWith];
      destruct (String.eqb _ suffix) eqn:Heq; try done.
    apply endsWith_short. simpl in Hlen. lia.
  - rewrite string_app_cons. cbn [Str.endsWith]. rewrite <- string_app_cons.
    rewrite eqb_length_ne; [done|].
    rewrite string_length_app. simpl. lia.
Qed.

(** ** convertVideoToAudio *)

Section ConvertFacts.

Context (E : env).

Lemma trace_print level text w : trace (print level text w) = trace w.
Proof. reflexivity. Qed.

Lemma trace_run_encoder command outputPath w :
  trace (run_encoder E command outputPath w) = trace w ++ [Encode command outputPath].
Proof. unfold run_encoder. by destruct (enc_file _). Qed.

(** One call of the function, read off its definition. *)
Lemma convert_attempt_S fuel inputPath outputPath w :
  convert_attempt E (S fuel) inputPath outputPath w =
  let isWav := Str.endsWith outputPath ".wav" in
  let command := build_command inputPath isWav in
  let w1 := run_encoder E command outputPath w in
  match enc_error (ffmpeg_run E command outputPath) with
  | None =>
      if enc_end (ffmpeg_run E command outputPath)
      then (Return outputPath, print "log" "Conversão concluída:" w1)
      else (Hang, w1)
  | Some err =>
      let w2 := print "error" "Erro na conversão:" w1 in
      if negb isWav && Str.endsWith outputPath ".mp3"
      then convert_attempt E fuel inputPath
             (Str.replace ".mp3" ".wav" outputPath)
             (print "log" "Tentando conversão para WAV..." w2)
      else (Throw err, w2)
  end.
Proof.
  cbn [convert_attempt]. unfold mbind, M_bind, save. cbv zeta.
  destruct (enc_error _); [|by destruct (enc_end _)]. cbn.
  by destruct (negb _ && _).
Qed.

(** The fuel given by [convertVideoToAudio] is never exhausted: any larger
    amount gives the same run. *)
Lemma convert_attempt_fuel fuel1 fuel2 inputPath outputPath w :
  Str.occurrences ".mp3" outputPath < fuel1 →
  Str.occurrences ".mp3" outputPath < fuel2 →
  convert_attempt E fuel1 inputPath outputPath w =
  convert_attempt E fuel2 inputPath outputPath w.
Proof.
  revert fuel2 outputPath w.
  induction fuel1 as [|fuel1 IH]; intros [|fuel2] outputPath w H1 H2; try lia.
  rewrite !convert_attempt_S. cbv zeta.
  destruct (enc_error _); [|done].
  destruct (negb _ && _) eqn:Hretry; [|done].
  apply andb_true_iff in Hretry as [_ Hmp3].
  pose proof (occurrences_replace outputPath (occurrences_endsWith _ _ Hmp3)).
  apply IH; lia.
Qed.

(** A call runs the encoder at most once per occurrence of ".mp3" in the
    output path, and once more. *)
Lemma convert_attempt_bounded fuel inputPath outputPath w :
  Str.occurrences ".mp3" outputPath < fuel →
  ∃ runs, trace (convert_attempt E fuel inputPath outputPath w).2 = trace w ++ runs ∧
          length runs ≤ S (Str.occurrences ".mp3" outputPath).
Proof.
  revert outputPath w.
  induction fuel as [|fuel IH]; intros outputPath w Hfuel; [lia|].
  rewrite convert_attempt_S. cbv zeta.
  destruct (enc_error _).
  - destruct (negb _ && _) eqn:Hretry.
    + apply andb_true_iff in Hretry as [_ Hmp3].
      pose proof (occurrences_replace outputPath (occurrences_endsWith _ _ Hmp3)).
      match goal with
      | |- context [convert_attempt E fuel inputPath ?out ?w0] =>
          destruct (IH out w0) as (runs & Htrace & Hlen); [lia|]
      end.
      rewrite Htrace.
      exists (Encode (build_command inputPath (Str.endsWith outputPath ".wav"))
                outputPath :: runs).
      split; [|cbn [length]; lia].
      by rewrite !trace_print, trace_run_encoder, <- app_assoc.
    + cbn [snd]. eexists; split;
        [by rewrite trace_print, trace_run_encoder|]. cbn. lia.
  - destruct (enc_end _); cbn [snd]; eexists; split;
      [by rewrite trace_print, trace_run_encoder | cbn; lia
      | by rewrite trace_run_encoder | cbn; lia].
Qed.

(** [convertVideoToAudio] runs the encoder at most once per occurrence of
    ".mp3" in the output path, and once more. *)
Lemma convertVideoToAudio_bounded inputPath outputPath w :
  ∃ runs, trace (convertVideoToAudio E inputPath outputPath w).2 = trace w ++ runs ∧
          length runs ≤ S (Str.occurrences ".mp3" outputPath).
Proof. apply convert_attempt_bounded. lia. Qed.

End ConvertFacts.

Example posix_extname_samples :
  Sample.posix_extname "video.MP4" = ".MP4" ∧
  Sample.posix_extname "archive.tar.gz" = ".gz" ∧
  Sample.posix_extname ".bashrc" = "" ∧
  Sample.posix_extname "dir.d/file" = "" ∧
  Sample.posix_extname "name." = "." ∧
  Sample.posix_extname ".." = "" ∧
  Sample.posix_extname "a/b.wav/" = ".wav" ∧
  Sample.plain_basename_ext "1700-clip.mp4" ".mp4" = "1700-clip" ∧
  Sample.ascii_toLowerCase ".MP4" = ".mp4".
Proof. repeat split; reflexivity. Qed.

Section ConvertResults.

Context (E : env).

(** A first attempt that succeeds resolves with the output path. *)
Lemma convert_first_attempt_succeeds inputPath outputPath w :
  enc_error (ffmpeg_run E (build_command inputPath (Str.endsWith outputPath ".wav"))
               outputPath) = None →
  enc_end (ffmpeg_run E (build_command inputPath (Str.endsWith outputPath ".wav"))
             outputPath) = true →
  ∃ w', convertVideoToAudio E inputPath outputPath w = (Return outputPath, w') ∧
        trace w' = trace w ++
          [Encode (build_command inputPath (Str.endsWith outputPath ".wav")) outputPath].
Proof.
  intros Hok Hend. unfold convertVideoToAudio. rewrite convert_attempt_S.
  cbv zeta. rewrite Hok, Hend. eexists; split; [done|].
  by rewrite trace_print, trace_run_encoder.
Qed.

(** A failing conversion to a ".wav" target rejects with the encoder's error
    after a single run of the encoder. *)
Lemma convert_wav_terminal inputPath outputPath w err :
  Str.endsWith outputPath ".wav" = true →
  enc_error (ffmpeg_run E (build_command inputPath true) outputPath) = Some err →
  ∃ w', convertVideoToAudio E inputPath outputPath w = (Throw err, w') ∧
        fs w' = fs (run_encoder E (build_command inputPath true) outputPath w) ∧
        trace w' = trace w ++ [Encode (build_command inputPath true) outputPath].
Proof.
  intros Hwav Herr. unfold convertVideoToAudio. rewrite convert_attempt_S.
  cbv zeta. rewrite Hwav, Herr. cbn [negb andb].
  eexists; split; [done|]. split; [done|].
  by rewrite trace_print, trace_run_encoder.
Qed.

(** A failing conversion to a target that ends neither in ".wav" nor in
    ".mp3" rejects with the encoder's error and is not retried. *)
Lemma convert_other_target_terminal inputPath outputPath w err :
  Str.endsWith outputPath ".wav" = false →
  Str.endsWith outputPath ".mp3" = false →
  enc_error (ffmpeg_run E (build_command inputPath false) outputPath) = Some err →
  ∃ w', convertVideoToAudio E inputPath outputPath w = (Throw err, w') ∧
        trace w' = trace w ++ [Encode (build_command inputPath false) outputPath].
Proof.
  intros Hwav Hmp3 Herr. unfold convertVideoToAudio. rewrite convert_attempt_S.
  cbv zeta. rewrite Hwav, Hmp3, Herr. cbn [negb andb].
  eexists; split; [done|].
  by rewrite trace_print, trace_run_encoder.
Qed.

(** C3 (as amended): for an output path [stem.mp3] in which ".mp3" occurs
    only as the extension, a failed first attempt is followed by exactly one
    retry, on [stem.wav] with the WAV settings; the call resolves with
    [stem.wav] when the retry succeeds, rejects with the retry's error when
    the retry fails, and stays pending as long as the retry does.  For an
    output path that ends neither in ".wav" nor in ".mp3" there is no
    fallback: a failed first attempt rejects with its error after that one
    run of the encoder. *)
Theorem convert_mp3_falls_back_once :
  (∀ inputPath stem w err,
     Str.occurrences ".mp3" (stem +:+ ".mp3") = 1 →
     enc_error (ffmpeg_run E (build_command inputPath false) (stem +:+ ".mp3"))
       = Some err →
     let retry := ffmpeg_run E (build_command inputPath true) (stem +:+ ".wav") in
     ∃ w',
       convertVideoToAudio E inputPath (stem +:+ ".mp3") w =
         (match enc_error retry with
          | None => if enc_end retry then Return (stem +:+ ".wav") else Hang
          | Some err' => Throw err'
          end, w') ∧
       trace w' =
         trace w ++ [Encode (build_command inputPath false) (stem +:+ ".mp3");
                     Encode (build_command inputPath true) (stem +:+ ".wav")]) ∧
  (∀ inputPath outputPath w err,
     Str.endsWith outputPath ".wav" = false →
     Str.endsWith outputPath ".mp3" = false →
     enc_error (ffmpeg_run E (build_command inputPath false) outputPath)
       = Some err →
     ∃ w',
       convertVideoToAudio E inputPath outputPath w = (Throw err, w') ∧
       trace w' = trace w ++ [Encode (build_command inputPath false) outputPath]).
Proof.
  split; [|apply convert_other_target_terminal].
  intros inputPath stem w err Hocc Herr. cbv zeta.
  assert (Str.endsWith (stem +:+ ".mp3") ".wav" = false) as Hwav
    by by rewrite endsWith_extension.
  assert (Str.endsWith (stem +:+ ".wav") ".wav" = true) as Hwav'
    by apply endsWith_app.
  unfold convertVideoToAudio. rewrite Hocc.
  rewrite convert_attempt_S. cbv zeta.
  rewrite Hwav, Herr, endsWith_app. cbn [negb andb].
  rewrite (replace_extension _ Hocc), convert_attempt_S. cbv zeta.
  rewrite Hwav'. cbn [negb andb].
  destruct (enc_error (ffmpeg_run E (build_command inputPath true) _));
    [|destruct (enc_end _)];
    (eexists; split; [done|]);
    rewrite ?trace_print, ?trace_run_encoder, ?trace_print, ?trace_run_encoder;
    by rewrite <- app_assoc.
Qed.

End ConvertResults.

Lemma convert_mp3_falls_back_once_witness :
  let E := Sample.environment None Sample.wav_only_encoder in
  (Str.occurrences ".mp3" "out.mp3" = 1 ∧
   enc_error (ffmpeg_run E (build_command "in.webm" false) "out.mp3")
     = Some Sample.encoder_error ∧
   ∃ w',
     convertVideoToAudio E "in.webm" "out.mp3" Sample.empty_world
       = (Return "out.wav", w') ∧
     trace w' = [Encode (build_command "in.webm" false) "out.mp3";
                 Encode (build_command "in.webm" true) "out.wav"]) ∧
  (Str.endsWith "out.ogg" ".wav" = false ∧
   Str.endsWith "out.ogg" ".mp3" = false ∧
   enc_error (ffmpeg_run E (build_command "in.webm" false) "out.ogg")
     = Some Sample.encoder_error ∧
   ∃ w',
     convertVideoToAudio E "in.webm" "out.ogg" Sample.empty_world
       = (Throw Sample.encoder_error, w') ∧
     trace w' = [Encode (build_command "in.webm" false) "out.ogg"]).
Proof.
  cbv zeta.
  pose proof (convert_mp3_falls_back_once
                (Sample.environment None Sample.wav_only_encoder))
    as [Hmp3 Hother].
  split.
  - split; [reflexivity|]. split; [reflexivity|].
    exact (Hmp3 "in.webm" "out" Sample.empty_world Sample.encoder_error
             eq_refl eq_refl).
  - split; [reflexivity|]. split; [reflexivity|]. split; [reflexivity|].
    exact (Hother "in.webm" "out.ogg" Sample.empty_world Sample.encoder_error
             eq_refl eq_refl eq_refl).
Defined.

(** C2: on the output path "song.mp3.mp3" with an encoder that fails on
    every run, the error handler falls back twice: [replace] rewrites the
    first ".mp3", so the first fallback targets "song.wav.mp3", which is
    again an MP3 target and falls back to "song.wav.wav". *)
Theorem convert_nested_mp3_falls_back_twice :
  let run := convertVideoToAudio (Sample.environment None Sample.failing_encoder)
               "in.webm" "song.mp3.mp3" Sample.empty_world in
  run.1 = Throw Sample.encoder_error ∧
  trace run.2 = [Encode (build_command "in.webm" false) "song.mp3.mp3";
                 Encode (build_command "in.webm" false) "song.wav.mp3";
                 Encode (build_command "in.webm" true) "song.wav.wav"].
Proof. split; reflexivity. Qed.

(** C3 (as stated) fails: a failing conversion to "out.ogg" is rejected
    after a single run of the encoder, without any retry. *)
Lemma ogg_target_is_not_retried :
  (let run := convertVideoToAudio (Sample.environment None Sample.failing_encoder)
                "in.webm" "out.ogg" Sample.empty_world in
   run.1 = Throw Sample.encoder_error ∧
   trace run.2 = [Encode (build_command "in.webm" false) "out.ogg"]) ∧
  ¬ fallback_for_every_compressed_target.
Proof.
  split; [split; reflexivity|].
  intros H.
  destruct (H (Sample.environment None Sample.failing_encoder)
              "in.webm" "out.ogg" Sample.empty_world Sample.encoder_error
              eq_refl eq_refl) as (wavPath & _ & Htrace & _).
  discriminate Htrace.
Qed.

(** ** waitForTranscription *)

Ltac unfold_monad :=
  unfold mbind, M_bind, mret, M_ret, throw, hang, act, get_state,
    console_log, console_error, sleep, response_text, response_json.

Section PollFacts.

Context (E : env).

Lemma pending_polls_S rq n :
  pending_polls rq (S n) = Fetch rq :: Sleep 3000 :: pending_polls rq n.
Proof. reflexivity. Qed.

(** An iteration that finds the job under way sleeps and goes round again. *)
Lemma poll_pending_step fuel transcriptId w o rest :
  net w = o :: rest →
  pending o →
  ∃ w', poll E (S fuel) transcriptId w = poll E fuel transcriptId w' ∧
        net w' = rest ∧ fs w' = fs w ∧
        trace w' = trace w ++ [Fetch (status_request E transcriptId); Sleep 3000].
Proof.
  intros Hnet (r & payload & -> & [Hok Hjson] & Hc & He).
  cbn [poll]. unfold_monad. unfold fetch. rewrite Hnet, Hok. cbn.
  rewrite Hjson. cbn. rewrite Hc, He. cbn.
  eexists; split; [reflexivity|]. cbn. by rewrite <- app_assoc.
Qed.

Lemma poll_pending_prefix before fuel transcriptId w rest :
  net w = before ++ rest →
  Forall pending before →
  ∃ w', poll E (length before + fuel) transcriptId w = poll E fuel transcriptId w' ∧
        net w' = rest ∧ fs w' = fs w ∧
        trace w' = trace w ++
          pending_polls (status_request E transcriptId) (length before).
Proof.
  revert w. induction before as [|o before IH]; intros w Hnet Hall.
  - exists w. by rewrite app_nil_r.
  - inversion Hall as [|? ? Ho Hall']; subst.
    destruct (poll_pending_step (length before + fuel) transcriptId w o
                (before ++ rest) Hnet Ho) as (w1 & Hrun & Hnet1 & Hfs1 & Htr1).
    destruct (IH w1 Hnet1 Hall') as (w2 & Hrun2 & Hnet2 & Hfs2 & Htr2).
    exists w2. cbn [length Nat.add]. rewrite Hrun, Hrun2.
    repeat split; [done|congruence|].
    rewrite Htr2, Htr1, pending_polls_S, <- app_assoc. done.
Qed.

(** The fuel of [waitForTranscription] is never exhausted: more fuel gives
    the same run. *)
Lemma poll_fuel fuel1 fuel2 transcriptId w :
  length (net w) < fuel1 →
  length (net w) < fuel2 →
  poll E fuel1 transcriptId w = poll E fuel2 transcriptId w.
Proof.
  revert fuel2 w.
  induction fuel1 as [|fuel1 IH]; intros [|fuel2] w H1 H2; try lia.
  cbn [poll]. unfold_monad. unfold fetch.
  destruct (net w) as [|[e|r] rest] eqn:Hnet; [done..|]. cbn.
  destruct (resp_ok r); cbn; [|done].
  destruct (resp_json r) as [data|e]; cbn; [|done].
  destruct (member E data "status" _) as [[status| |] w1] eqn:Hm; [|done..].
  assert (net w1 = rest) as Hnet1.
  { destruct data; cbn in Hm; unfold mret, M_ret, throw in Hm; by simplify_eq. }
  destruct (strict_eq_str status "completed"); [done|].
  destruct (strict_eq_str status "error"); [done|]. cbn.
  apply IH; cbn in *; rewrite Hnet1; lia.
Qed.

End PollFacts.

Section WaitResults.

Context (E : env).

Lemma contains_suffix (s t : string) : Str.contains (s +:+ t) t.
Proof.
  exists s, "". f_equal. induction t as [|c t IH]; [done|].
  rewrite string_app_cons. by f_equal.
Qed.

Lemma waitForTranscription_unfold transcriptId w :
  waitForTranscription E transcriptId w =
  try_catch (poll E (S (length (net w))) transcriptId)
    (λ error, console_error "Erro ao aguardar transcrição:";; throw error)
    (print "log" "Aguardando conclusão da transcrição..." w).
Proof. reflexivity. Qed.

(** The loop of [waitForTranscription], entered with enough fuel, skips the
    answers that report the job under way. *)
Lemma wait_enters_loop transcriptId w before o rest :
  net w = before ++ o :: rest →
  Forall pending before →
  ∃ w1,
    waitForTranscription E transcriptId w =
      try_catch (poll E (S (S (length rest))) transcriptId)
        (λ error, console_error "Erro ao aguardar transcrição:";; throw error) w1 ∧
    net w1 = o :: rest ∧ fs w1 = fs w ∧
    trace w1 = trace w ++
      pending_polls (status_request E transcriptId) (length before).
Proof.
  intros Hnet Hall.
  set (w0 := print "log" "Aguardando conclusão da transcrição..." w).
  destruct (poll_pending_prefix E before (S (S (length rest))) transcriptId w0
              (o :: rest) Hnet Hall) as (w1 & Hrun & Hnet1 & Hfs1 & Htr1).
  exists w1. split; [|done].
  rewrite waitForTranscription_unfold. fold w0.
  rewrite Hnet, length_app. cbn [length].
  replace (S (length before + S (length rest)))
    with (length before + S (S (length rest))) by lia.
  unfold try_catch. by rewrite Hrun.
Qed.

(** C4: with a vendor whose answers to the status requests are [before]
    (all reporting the job under way) followed by an answer with status
    'completed', [waitForTranscription] issues one status request per
    answer up to that one, sleeps 3000 ms between consecutive requests,
    consumes no later answer, and resolves with the whole payload of the
    completed answer.  For [before] = processing, processing these are
    exactly three requests. *)
Theorem wait_polls_until_completed transcriptId w before r payload rest :
  net w = before ++ NetReply r :: rest →
  Forall pending before →
  carries r payload →
  prop payload "status" = JStr "completed" →
  ∃ w',
    waitForTranscription E transcriptId w = (Return (JObj payload), w') ∧
    trace w' = trace w ++
      pending_polls (status_request E transcriptId) (length before) ++
      [Fetch (status_request E transcriptId)] ∧
    net w' = rest.
Proof.
  intros Hnet Hall [Hok Hjson] Hstatus.
  destruct (wait_enters_loop transcriptId w before _ rest Hnet Hall)
    as (w1 & -> & Hnet1 & _ & Htr1).
  unfold try_catch. cbn [poll]. unfold_monad. unfold fetch.
  rewrite Hnet1, Hok. cbn. rewrite Hjson. cbn. rewrite Hstatus. cbn.
  eexists; split; [reflexivity|]. cbn. by rewrite Htr1, <- app_assoc.
Qed.

(** C5: when the first answer that does not report the job under way has
    status 'error' and the error message [m], [waitForTranscription]
    rejects with an error whose message ends in [m]; the request that got
    this answer is the last one, and no later answer is consumed. *)
Theorem wait_fails_on_error_status transcriptId w before r payload rest m :
  net w = before ++ NetReply r :: rest →
  Forall pending before →
  carries r payload →
  prop payload "status" = JStr "error" →
  prop payload "error" = JStr m →
  ∃ w' e,
    waitForTranscription E transcriptId w = (Throw e, w') ∧
    message e = "Erro na transcrição: " +:+ m ∧
    Str.contains (message e) m ∧
    trace w' = trace w ++
      pending_polls (status_request E transcriptId) (length before) ++
      [Fetch (status_request E transcriptId)] ∧
    net w' = rest.
Proof.
  intros Hnet Hall [Hok Hjson] Hstatus Herror.
  destruct (wait_enters_loop transcriptId w before _ rest Hnet Hall)
    as (w1 & -> & Hnet1 & _ & Htr1).
  unfold try_catch. cbn [poll]. unfold_monad. unfold fetch.
  rewrite Hnet1, Hok. cbn. rewrite Hjson. cbn. rewrite Hstatus. cbn.
  rewrite Herror. cbn.
  eexists _, _; split; [reflexivity|]. cbn.
  split; [done|]. split; [apply contains_suffix|].
  by rewrite Htr1, <- app_assoc.
Qed.

End WaitResults.

(** ** startTranscription *)

Lemma strict_eq_str_false (v : jsval) (s : string) :
  v ≠ JStr s → strict_eq_str v s = false.
Proof.
  intros Hne. destruct v; try done. cbn.
  apply String.eqb_neq. congruence.
Qed.

Lemma prop_lookup (o : gmap string jsval) (key : string) (v : jsval) :
  o !! key = Some v → prop o key = v.
Proof. unfold prop. by intros ->. Qed.

Lemma prop_absent (o : gmap string jsval) (key : string) :
  o !! key = None → prop o key = JUndefined.
Proof. unfold prop. by intros ->. Qed.

Section SubmitFacts.

Context (E : env).

(** Whatever the vendor answers, [startTranscription] sends exactly the
    request object of [transcriptRequest], once. *)
Lemma startTranscription_trace audioUrl options w :
  trace (startTranscription E audioUrl options w).2 =
  trace w ++ [Fetch (submission E (transcriptRequest audioUrl options))].
Proof.
  unfold startTranscription, try_catch. unfold_monad. unfold fetch. cbn.
  destruct (net w) as [|[e|r] rest]; cbn; [done..|].
  destruct (resp_ok r); cbn; [|done].
  destruct (resp_json r) as [data|e]; cbn; [|done].
  by destruct data.
Qed.

(** The request for a concrete language code. *)
Lemma transcriptRequest_concrete audioUrl options c :
  options !! "language" = Some c → truthy c = true → c ≠ JStr "auto" →
  transcriptRequest audioUrl options =
  delete "language_detection"
    (<["language_code" := c]>
       (spread {[ "audio_url" := audioUrl;
                  "language_detection" := JBool false;
                  "punctuate" := JBool true;
                  "format_text" := JBool true ]} options)).
Proof.
  intros Hlang Htruthy Hauto. unfold transcriptRequest.
  rewrite (prop_lookup _ _ _ Hlang), Htruthy, (strict_eq_str_false _ _ Hauto).
  done.
Qed.

(** The request without a concrete language code. *)
Lemma transcriptRequest_detect audioUrl options :
  options !! "language" = None ∨ options !! "language" = Some (JStr "auto") →
  transcriptRequest audioUrl options =
  spread {[ "audio_url" := audioUrl;
            "language_detection" := JBool true;
            "punctuate" := JBool true;
            "format_text" := JBool true ]} options.
Proof.
  intros [Hlang|Hlang]; unfold transcriptRequest.
  - by rewrite (prop_absent _ _ Hlang).
  - by rewrite (prop_lookup _ _ _ Hlang).
Qed.

(** A default survives unless the options carry the same key, and then the
    key is the options' own. *)
Lemma transcriptRequest_lookup audioUrl options key :
  key ≠ "language_code" → key ≠ "language_detection" →
  transcriptRequest audioUrl options !! key =
  match options !! key with
  | Some v => Some v
  | None =>
      ({[ "audio_url" := audioUrl; "punctuate" := JBool true;
          "format_text" := JBool true ]} : gmap string jsval) !! key
  end.
Proof.
  intros Hcode Hdetect. unfold transcriptRequest, spread.
  destruct (truthy _ && negb _);
    rewrite ?lookup_delete_ne, ?lookup_insert_ne by done;
    rewrite lookup_union; destruct (options !! key) as [v|].
  1,3: by destruct (_ !! key).
  all: rewrite !lookup_insert, !lookup_singleton;
    repeat case_decide; by simplify_eq.
Qed.

(** C6 (as amended): the request sent by [startTranscription] has
    [punctuate = true] and [format_text = true] unless the options carry
    these keys themselves; without a language, or with 'auto', it has
    [language_detection = true] unless the options carry that key; with a
    concrete language code it has [language_code] equal to the code and no
    [language_detection] key at all. *)
Theorem submission_defaults audioUrl options w :
  let request := transcriptRequest audioUrl options in
  trace (startTranscription E audioUrl options w).2 =
    trace w ++ [Fetch (submission E request)] ∧
  (options !! "punctuate" = None → request !! "punctuate" = Some (JBool true)) ∧
  (options !! "format_text" = None → request !! "format_text" = Some (JBool true)) ∧
  (options !! "language_detection" = None →
   options !! "language" = None ∨ options !! "language" = Some (JStr "auto") →
   request !! "language_detection" = Some (JBool true)) ∧
  (∀ c, options !! "language" = Some c → truthy c = true → c ≠ JStr "auto" →
        request !! "language_code" = Some c ∧
        request !! "language_detection" = None).
Proof.
  cbv zeta. split; [apply startTranscription_trace|].
  repeat split.
  - intros H. by rewrite transcriptRequest_lookup, H.
  - intros H. by rewrite transcriptRequest_lookup, H.
  - intros Hdetect Hlang. rewrite (transcriptRequest_detect _ _ Hlang).
    unfold spread. by rewrite lookup_union, Hdetect.
  - rewrite (transcriptRequest_concrete _ _ c) by done.
    rewrite lookup_delete_ne by done. apply lookup_insert_eq.
  - rewrite (transcriptRequest_concrete _ _ c) by done.
    apply lookup_delete_eq.
Qed.

(** C9: for options with a concrete language code [c], the request sent by
    [startTranscription] carries [language = c] next to
    [language_code = c]: every key of the options other than
    [language_code] and [language_detection] is in the request with the
    options' value. *)
Theorem submission_keeps_language_key audioUrl options w c :
  options !! "language" = Some c → truthy c = true → c ≠ JStr "auto" →
  let request := transcriptRequest audioUrl options in
  trace (startTranscription E audioUrl options w).2 =
    trace w ++ [Fetch (submission E request)] ∧
  request !! "language_code" = Some c ∧
  request !! "language" = Some c ∧
  (∀ key value, options !! key = Some value →
                key ≠ "language_code" → key ≠ "language_detection" →
                request !! key = Some value).
Proof.
  intros Hlang Htruthy Hauto. cbv zeta.
  split; [apply startTranscription_trace|]. repeat split.
  - rewrite (transcriptRequest_concrete _ _ c) by done.
    rewrite lookup_delete_ne by done. apply lookup_insert_eq.
  - by rewrite transcriptRequest_lookup, Hlang.
  - intros key value Hkey ??. by rewrite transcriptRequest_lookup, Hkey.
Qed.

End SubmitFacts.

(** C6 (as stated) fails: options that carry [punctuate: false] are spread
    over the default, so the request has [punctuate = false]. *)
Lemma punctuate_option_overrides_default :
  transcriptRequest (JStr "https://cdn.example/upload/1")
    {[ "punctuate" := JBool false ]} !! "punctuate" = Some (JBool false) ∧
  ¬ submission_defaults_for_every_options.
Proof.
  assert (transcriptRequest (JStr "https://cdn.example/upload/1")
            {[ "punctuate" := JBool false ]} !! "punctuate"
          = Some (JBool false)) as Hfalse by (vm_compute; reflexivity).
  split; [exact Hfalse|].
  intros H.
  destruct (H (JStr "https://cdn.example/upload/1")
              {[ "punctuate" := JBool false ]}) as [Htrue _].
  cbv zeta in Htrue. rewrite Hfalse in Htrue. discriminate Htrue.
Qed.

Lemma submission_defaults_witness :
  let options : gmap string jsval := {[ "language" := JStr "pt" ]} in
  let request := transcriptRequest (JStr "https://cdn.example/upload/1") options in
  request !! "punctuate" = Some (JBool true) ∧
  request !! "format_text" = Some (JBool true) ∧
  request !! "language_code" = Some (JStr "pt") ∧
  request !! "language_detection" = None ∧
  transcriptRequest (JStr "https://cdn.example/upload/1") ∅ !! "language_detection"
    = Some (JBool true).
Proof.
  pose proof (submission_defaults
                (Sample.environment None Sample.failing_encoder)
                (JStr "https://cdn.example/upload/1")
                {[ "language" := JStr "pt" ]} Sample.empty_world)
    as (_ & Hpunctuate & Hformat & _ & Hcode).
  pose proof (submission_defaults
                (Sample.environment None Sample.failing_encoder)
                (JStr "https://cdn.example/upload/1")
                ∅ Sample.empty_world)
    as (_ & _ & _ & Hdetect & _).
  destruct (Hcode (JStr "pt")) as [Hcode1 Hcode2];
    [reflexivity | reflexivity | discriminate |].
  cbv zeta.
  exact (conj (Hpunctuate eq_refl)
           (conj (Hformat eq_refl)
              (conj Hcode1
                 (conj Hcode2 (Hdetect eq_refl (or_introl eq_refl)))))).
Defined.

Lemma submission_keeps_language_key_witness :
  let options : gmap string jsval := {[ "language" := JStr "pt" ]} in
  let request := transcriptRequest (JStr "https://cdn.example/upload/1") options in
  options !! "language" = Some (JStr "pt") ∧
  request !! "language_code" = Some (JStr "pt") ∧
  request !! "language" = Some (JStr "pt").
Proof.
  cbv zeta. split; [reflexivity|].
  destruct (submission_keeps_language_key
              (Sample.environment None Sample.failing_encoder)
              (JStr "https://cdn.example/upload/1")
              {[ "language" := JStr "pt" ]} Sample.empty_world (JStr "pt"))
    as (_ & Hcode & Hlang & _); [reflexivity | reflexivity | discriminate |].
  split; [exact Hcode | exact Hlang].
Defined.

Lemma wait_polls_until_completed_witness :
  let answers := [vendor_reply "processing" ∅; vendor_reply "processing" ∅;
                  vendor_reply "completed" {[ "text" := JStr "bom dia" ]}] in
  let E := Sample.environment (Some "key") Sample.failing_encoder in
  ∃ w',
    waitForTranscription E (JStr "job-1") (Sample.vendor_world answers) =
      (Return (JObj {[ "status" := JStr "completed"; "text" := JStr "bom dia" ]}), w') ∧
    trace w' = [Fetch (status_request E (JStr "job-1")); Sleep 3000;
                Fetch (status_request E (JStr "job-1")); Sleep 3000;
                Fetch (status_request E (JStr "job-1"))] ∧
    net w' = [].
Proof.
  cbv zeta.
  refine (wait_polls_until_completed
            (Sample.environment (Some "key") Sample.failing_encoder)
            (JStr "job-1")
            (Sample.vendor_world
               [vendor_reply "processing" ∅; vendor_reply "processing" ∅;
                vendor_reply "completed" {[ "text" := JStr "bom dia" ]}])
            [vendor_reply "processing" ∅; vendor_reply "processing" ∅]
            _ (<["status" := JStr "completed"]> {[ "text" := JStr "bom dia" ]})
            [] eq_refl _ _ _).
  - repeat constructor; eexists _, _; (split; [reflexivity|]);
      (split; [split; reflexivity|]); split; reflexivity.
  - split; reflexivity.
  - reflexivity.
Defined.

Lemma wait_fails_on_error_status_witness :
  let answers := [vendor_reply "queued" ∅;
                  vendor_reply "error" {[ "error" := JStr "bad audio" ]};
                  vendor_reply "completed" ∅] in
  let E := Sample.environment (Some "key") Sample.failing_encoder in
  ∃ w' e,
    waitForTranscription E (JStr "job-1") (Sample.vendor_world answers) = (Throw e, w') ∧
    message e = "Erro na transcrição: bad audio" ∧
    Str.contains (message e) "bad audio" ∧
    trace w' = [Fetch (status_request E (JStr "job-1")); Sleep 3000;
                Fetch (status_request E (JStr "job-1"))] ∧
    net w' = [vendor_reply "completed" ∅].
Proof.
  cbv zeta.
  refine (wait_fails_on_error_status
            (Sample.environment (Some "key") Sample.failing_encoder)
            (JStr "job-1")
            (Sample.vendor_world
               [vendor_reply "queued" ∅;
                vendor_reply "error" {[ "error" := JStr "bad audio" ]};
                vendor_reply "completed" ∅])
            [vendor_reply "queued" ∅]
            _ (<["status" := JStr "error"]> {[ "error" := JStr "bad audio" ]})
            [vendor_reply "completed" ∅] "bad audio" eq_refl _ _ _ _).
  - repeat constructor; eexists _, _; (split; [reflexivity|]);
      (split; [split; reflexivity|]); split; reflexivity.
  - split; reflexivity.
  - reflexivity.
  - reflexivity.
Defined.

(** ** transcribeAudio *)

(** C7 (as amended): with the placeholder credential, [transcribeAudio]
    resolves at once and leaves the world as it was (no file read, no
    request, no wait), for every options value; the result has confidence
    0.95, and its language is the [language] of the options when that is
    truthy, and 'pt' when the options carry no language or a falsy one (the
    empty string, [null], 0, [false]). *)
Theorem transcribe_without_credential E filePath options w :
  ASSEMBLYAI_API_KEY E = "sua-chave-aqui" →
  ∃ result,
    transcribeAudio E filePath options w = (Return result, w) ∧
    text result = JStr (placeholder_text E filePath) ∧
    confidence result = JNum 0.95 ∧
    (∀ c, options !! "language" = Some c → truthy c = true →
          language_code result = c) ∧
    (∀ c, options !! "language" = Some c → truthy c = false →
          language_code result = JStr "pt") ∧
    (options !! "language" = None → language_code result = JStr "pt").
Proof.
  intros Hkey. unfold transcribeAudio, try_catch. rewrite Hkey. cbn.
  eexists; split; [reflexivity|]. cbn. repeat split.
  - intros c Hc Htruthy. unfold js_or.
    by rewrite (prop_lookup _ _ _ Hc), Htruthy.
  - intros c Hc Hfalsy. unfold js_or.
    by rewrite (prop_lookup _ _ _ Hc), Hfalsy.
  - intros Hc. unfold js_or. by rewrite (prop_absent _ _ Hc).
Qed.

Lemma transcribe_without_credential_witness :
  let E := Sample.environment None Sample.failing_encoder in
  ASSEMBLYAI_API_KEY E = "sua-chave-aqui" ∧
  ∃ result,
    transcribeAudio E "uploads/clip_converted.wav" {[ "language" := JStr "en" ]}
      (Sample.vendor_world [vendor_reply "completed" ∅]) =
      (Return result, Sample.vendor_world [vendor_reply "completed" ∅]) ∧
    confidence result = JNum 0.95 ∧
    language_code result = JStr "en".
Proof.
  cbv zeta. split; [reflexivity|].
  destruct (transcribe_without_credential
              (Sample.environment None Sample.failing_encoder)
              "uploads/clip_converted.wav" {[ "language" := JStr "en" ]}
              (Sample.vendor_world [vendor_reply "completed" ∅]) eq_refl)
    as (result & Hrun & _ & Hconfidence & Hlanguage & _).
  exists result.
  exact (conj Hrun (conj Hconfidence (Hlanguage (JStr "en") eq_refl eq_refl))).
Defined.

(** C7 (as stated) fails: for options that carry the empty string as
    [language], the placeholder result has the language 'pt', not the
    requested one. *)
Lemma empty_language_gets_default :
  (∃ result,
     transcribeAudio (Sample.environment None Sample.failing_encoder)
       "uploads/clip_converted.wav" {[ "language" := JStr "" ]}
       Sample.empty_world = (Return result, Sample.empty_world) ∧
     language_code result = JStr "pt") ∧
  ¬ placeholder_language_for_every_options.
Proof.
  split; [eexists; split; reflexivity|].
  intros H.
  destruct (H (Sample.environment None Sample.failing_encoder)
              "uploads/clip_converted.wav" {[ "language" := JStr "" ]}
              Sample.empty_world eq_refl)
    as (result & Hrun & _ & Hlanguage & _).
  specialize (Hlanguage (JStr "") eq_refl).
  injection Hrun as <-. discriminate Hlanguage.
Qed.

(** ** validateMediaFile *)

Lemma contains_middle (a t b : string) : Str.contains (a +:+ t +:+ b) t.
Proof. by exists a, b. Qed.

Lemma string_app_assoc (a b c : string) : (a +:+ b) +:+ c = a +:+ b +:+ c.
Proof.
  induction a as [|x a IH]; [done|]. rewrite !string_app_cons. by f_equal.
Qed.

Lemma prefix_app (t rest : string) : String.prefix t (t +:+ rest) = true.
Proof.
  induction t as [|c t IH]; [by destruct rest|].
  rewrite string_app_cons, prefix_cons. by destruct (ascii_dec c c).
Qed.

(** [Str.includes] decides [Str.contains]. *)
Lemma contains_includes (s t : string) :
  Str.contains s t → Str.includes s t = true.
Proof.
  intros (before & after & ->).
  induction before as [|c before IH].
  - rewrite string_app_empty.
    assert (∀ s, Str.includes s t =
                 if String.prefix t s then true
                 else match s with
                      | EmptyString => false
                      | String _ s' => Str.includes s' t
                      end) as -> by (by intros []).
    by rewrite prefix_app.
  - rewrite string_app_cons. cbn [Str.includes]. rewrite IH.
    by destruct (String.prefix _ _).
Qed.

Section ValidateFacts.

Context (E : env).

Lemma validateMediaFile_existing filePath originalName w f :
  fs w !! filePath = Some f →
  (validateMediaFile E filePath originalName w).1 =
  if N.eqb (size f) 0 then Throw (Error "Arquivo está vazio")
  else
    let extension := toLowerCase E (path_extname E originalName) in
    if includes allowedExtensions extension
    then Return {| info_size := size f; info_extension := extension;
                   info_name := originalName |}
    else Throw (Error (unsupported_message extension)).
Proof.
  intros Hf. unfold validateMediaFile. unfold_monad.
  unfold existsSync, statSync. cbn -[includes]. rewrite Hf.
  rewrite bool_decide_true by done. cbn -[includes]. rewrite Hf.
  destruct (N.eqb (size f) 0); [done|].
  by destruct (includes _ _).
Qed.

(** C8 (as amended): for an existing file, [validateMediaFile] resolves with
    the size, the lower-cased extension and the name when the file is not
    empty and the extension is allowed; it rejects when the file is empty;
    and when the file is not empty and the extension is not allowed, it
    rejects with a message that contains the extension and the list of the
    accepted ones. *)
Theorem validation_contract filePath originalName w f :
  fs w !! filePath = Some f →
  let extension := toLowerCase E (path_extname E originalName) in
  let result := (validateMediaFile E filePath originalName w).1 in
  (size f ≠ 0%N → includes allowedExtensions extension = true →
   result = Return {| info_size := size f; info_extension := extension;
                      info_name := originalName |}) ∧
  (size f = 0%N → ∃ e, result = Throw e) ∧
  (size f ≠ 0%N → includes allowedExtensions extension = false →
   ∃ e, result = Throw e ∧
        Str.contains (message e) extension ∧
        Str.contains (message e) (Str.join ", " allowedExtensions)).
Proof.
  intros Hf. cbv zeta. rewrite (validateMediaFile_existing _ _ _ _ Hf).
  split; [|split].
  - intros Hsize%N.eqb_neq Hallowed. cbv zeta. by rewrite Hsize, Hallowed.
  - intros Hsize%N.eqb_eq. rewrite Hsize. by eexists.
  - intros Hsize%N.eqb_neq Hallowed. cbv zeta. rewrite Hsize, Hallowed.
    eexists; split; [reflexivity|]. cbn [message Error]. split.
    + apply contains_middle.
    + unfold unsupported_message.
      rewrite <- !string_app_assoc. apply contains_suffix.
Qed.

(** C10: an existing empty file is rejected as empty whatever the original
    name is, also when its extension is not allowed; the message is not the
    unsupported-format message of any extension. *)
Theorem validation_checks_emptiness_first filePath originalName w f :
  fs w !! filePath = Some f →
  size f = 0%N →
  (validateMediaFile E filePath originalName w).1 =
    Throw (Error "Arquivo está vazio") ∧
  ∀ extension, "Arquivo está vazio" ≠ unsupported_message extension.
Proof.
  intros Hf Hsize%N.eqb_eq.
  rewrite (validateMediaFile_existing _ _ _ _ Hf), Hsize.
  split; [done|]. intros extension. unfold unsupported_message.
  rewrite !string_app_cons. discriminate.
Qed.

End ValidateFacts.

(** C8 (as stated) fails in its third clause: an empty file whose extension
    is not allowed is rejected as empty, with a message that does not
    contain the extension. *)
Lemma empty_file_rejection_lacks_extension :
  (let E := Sample.environment None Sample.failing_encoder in
   let w := Sample.storage_world "uploads/1700-setup.exe"
              {| size := 0; unlink_error := None |} in
   toLowerCase E (path_extname E "setup.exe") = ".exe" ∧
   includes allowedExtensions ".exe" = false ∧
   (validateMediaFile E "uploads/1700-setup.exe" "setup.exe" w).1 =
     Throw (Error "Arquivo está vazio") ∧
   Str.includes "Arquivo está vazio" ".exe" = false) ∧
  ¬ validation_contract_for_every_file.
Proof.
  split; [repeat split; vm_compute; reflexivity|].
  intros H.
  destruct (H (Sample.environment None Sample.failing_encoder)
              (Sample.storage_world "uploads/1700-setup.exe"
                 {| size := 0; unlink_error := None |})
              "uploads/1700-setup.exe" "setup.exe"
              {| size := 0; unlink_error := None |})
    as (_ & _ & Hext); [vm_compute; reflexivity|].
  destruct Hext as (e & He & Hcontains & _); [vm_compute; reflexivity|].
  vm_compute in He. injection He as <-.
  apply contains_includes in Hcontains.
  vm_compute in Hcontains. discriminate Hcontains.
Qed.

Lemma validation_contract_witness :
  let E := Sample.environment None Sample.failing_encoder in
  let w := Sample.storage_world "uploads/1700-video.MP4"
             {| size := 1024; unlink_error := None |} in
  fs w !! "uploads/1700-video.MP4" = Some {| size := 1024; unlink_error := None |} ∧
  (validateMediaFile E "uploads/1700-video.MP4" "video.MP4" w).1 =
    Return {| info_size := 1024; info_extension := ".mp4";
              info_name := "video.MP4" |}.
Proof.
  cbv zeta.
  assert (fs (Sample.storage_world "uploads/1700-video.MP4"
                {| size := 1024; unlink_error := None |})
            !! "uploads/1700-video.MP4"
          = Some {| size := 1024; unlink_error := None |}) as Hf
    by (vm_compute; reflexivity).
  split; [exact Hf|].
  destruct (validation_contract
              (Sample.environment None Sample.failing_encoder)
              "uploads/1700-video.MP4" "video.MP4" _ _ Hf) as (Haccept & _).
  apply Haccept; [discriminate | vm_compute; reflexivity].
Defined.

Lemma validation_checks_emptiness_first_witness :
  let E := Sample.environment None Sample.failing_encoder in
  let w := Sample.storage_world "uploads/1700-setup.exe"
             {| size := 0; unlink_error := None |} in
  fs w !! "uploads/1700-setup.exe" = Some {| size := 0; unlink_error := None |} ∧
  (validateMediaFile E "uploads/1700-setup.exe" "setup.exe" w).1 =
    Throw (Error "Arquivo está vazio").
Proof.
  cbv zeta.
  assert (fs (Sample.storage_world "uploads/1700-setup.exe"
                {| size := 0; unlink_error := None |})
            !! "uploads/1700-setup.exe"
          = Some {| size := 0; unlink_error := None |}) as Hf
    by (vm_compute; reflexivity).
  split; [exact Hf|].
  exact (proj1 (validation_checks_emptiness_first
                  (Sample.environment None Sample.failing_encoder)
                  "uploads/1700-setup.exe" "setup.exe" _ _ Hf eq_refl)).
Defined.

(** ** Cleanup after the pipeline *)

Lemma bind_Return_inv {S A B} (m : M_ S A) (k : A → M_ S B) s b s' :
  (m ≫= k) s = (Return b, s') →
  ∃ a s1, m s = (Return a, s1) ∧ k a s1 = (Return b, s').
Proof.
  unfold mbind, M_bind. destruct (m s) as [[a|e|] s1]; [|done..].
  intros Hk. by exists a, s1.
Qed.

Section CleanupFacts.

(** [cleanupFile] returns normally in every world and for every argument:
    a failing [unlinkSync] is caught and only printed. *)
Lemma cleanupFile_never_throws p w :
  ∃ w', cleanupFile p w = (Return (), w') ∧ cleanup_effect p w w'.
Proof.
  unfold cleanupFile, try_catch, cleanup_effect.
  unfold_monad. unfold existsSync, unlinkSync.
  destruct p as [path|]; cbn; [|by eexists].
  destruct (fs w !! path) as [f|] eqn:Hf; cbn.
  - rewrite Hf.
    destruct (unlink_error f); cbn; eexists; (split; [reflexivity|]);
      cbn; by rewrite <- app_assoc.
  - by eexists.
Qed.

(** After the cleanup of a path, the file is gone unless unlinking it
    failed, in which case the failure is on the console. *)
Lemma cleanup_effect_file path w w' :
  cleanup_effect (Some path) w w' →
  fs w' !! path = None ∨
  ("error", "Erro ao remover arquivo:") ∈ console w'.
Proof.
  unfold cleanup_effect. cbn. intros (_ & _ & H).
  destruct (fs w !! path) as [f|] eqn:Hf.
  - destruct H as [_ H]. destruct (unlink_error f).
    + right. destruct H as [_ ->]. apply elem_of_app. right. by left.
    + left. destruct H as [-> _]. cbn. apply lookup_delete_eq.
  - left. destruct H as (_ & -> & _). done.
Qed.

(** The [finally] block of a handler whose variables hold [p1] and [p2]. *)
Lemma finally_runs {F A} (body : M_ (F * world) A) (cleanup : M_ (F * world) unit)
    (p1 p2 : option string) init w o vars w1 :
  body (init, w) = (o, (vars, w1)) →
  o ≠ Hang →
  (∀ w2, cleanup (vars, w2) =
         (call (cleanupFile p1);; call (cleanupFile p2)) (vars, w2)) →
  ∃ w3 w4,
    cleanup_effect p1 w1 w3 ∧ cleanup_effect p2 w3 w4 ∧
    scope init (try_finally body cleanup) w = (o, w4).
Proof.
  intros Hbody Hsettled Hcleanup.
  destruct (cleanupFile_never_throws p1 w1) as (w3 & Hrun1 & Heff1).
  destruct (cleanupFile_never_throws p2 w3) as (w4 & Hrun2 & Heff2).
  exists w3, w4. split; [done|]. split; [done|].
  unfold scope, try_finally. rewrite Hbody, Hcleanup.
  unfold call. unfold_monad. cbn. rewrite Hrun1. cbn. rewrite Hrun2. cbn.
  by destruct o.
Qed.

End CleanupFacts.

(** *** The helpers send no response *)

Lemma responses_app tr1 tr2 :
  responses (tr1 ++ tr2) = responses tr1 ++ responses tr2.
Proof. apply omap_app. Qed.

Lemma quiet_ret {A} (a : A) : quiet (mret a).
Proof. by intros w. Qed.

Lemma quiet_throw {A} e : quiet (throw e : M A).
Proof. by intros w. Qed.

Lemma quiet_hang {A} : quiet (hang : M A).
Proof. by intros w. Qed.

Lemma quiet_bind {A B} (m : M A) (k : A → M B) :
  quiet m → (∀ a, quiet (k a)) → quiet (m ≫= k).
Proof.
  intros Hm Hk w. specialize (Hm w). unfold mbind, M_bind.
  destruct (m w) as [[a|e|] w1]; [|done..].
  cbn in Hm. by rewrite Hk.
Qed.

Lemma quiet_try_catch {A} (m : M A) (handler : js_error → M A) :
  quiet m → (∀ e, quiet (handler e)) → quiet (try_catch m handler).
Proof.
  intros Hm Hh w. specialize (Hm w). unfold try_catch.
  destruct (m w) as [[a|e|] w1]; [done| |done].
  cbn in Hm. by rewrite Hh.
Qed.

Lemma quiet_print level text : quiet (act (print level text)).
Proof. by intros w. Qed.

Lemma quiet_log text : quiet (console_log text).
Proof. apply quiet_print. Qed.

Lemma quiet_error text : quiet (console_error text).
Proof. apply quiet_print. Qed.

Lemma quiet_get_state : quiet (get_state : M world).
Proof. by intros w. Qed.

Lemma quiet_sleep ms : quiet (sleep ms).
Proof. intros w. cbn. by rewrite responses_app, app_nil_r. Qed.

Lemma quiet_fetch rq : quiet (fetch rq).
Proof.
  intros w. unfold fetch. destruct (net w) as [|[e|r] rest]; cbn;
    by rewrite responses_app, app_nil_r.
Qed.

Lemma quiet_existsSync p : quiet (existsSync p).
Proof. intros w. cbn. by rewrite responses_app, app_nil_r. Qed.

Lemma quiet_statSync path : quiet (statSync path).
Proof.
  intros w. unfold statSync. destruct (fs w !! path); cbn;
    by rewrite responses_app, app_nil_r.
Qed.

Lemma quiet_readFileSync path : quiet (readFileSync path).
Proof.
  intros w. unfold readFileSync. destruct (fs w !! path); cbn;
    by rewrite responses_app, app_nil_r.
Qed.

Lemma quiet_response_text r : quiet (response_text r).
Proof. by intros w. Qed.

Lemma quiet_response_json r : quiet (response_json r).
Proof. intros w. unfold response_json. by destruct (resp_json r). Qed.

Lemma quiet_member E v key : quiet (member E v key).
Proof. intros w. by destruct v. Qed.

Lemma quiet_template E v : quiet (template E v).
Proof. intros w. unfold template. by destruct (renders v). Qed.

Lemma quiet_save E command outputPath : quiet (save E command outputPath).
Proof.
  intros w. unfold save. cbn.
  by rewrite trace_run_encoder, responses_app, app_nil_r.
Qed.

Lemma quiet_download E url target : quiet (download E url target).
Proof.
  intros w. unfold download. cbn.
  destruct (dl_file _); cbn; by rewrite responses_app, app_nil_r.
Qed.

Create HintDb quiet.
#[export] Hint Resolve quiet_ret quiet_throw quiet_hang quiet_log quiet_error
  quiet_get_state quiet_sleep quiet_fetch quiet_existsSync quiet_statSync
  quiet_readFileSync quiet_response_text quiet_response_json quiet_member
  quiet_template quiet_save quiet_download : quiet.

(** Decomposes a computation along its binds, handlers and branches. *)
Ltac solve_quiet :=
  repeat first
    [ progress eauto with quiet
    | apply quiet_bind; [|intros ?]
    | apply quiet_try_catch; [|intros ?]
    | match goal with
      | |- quiet (if ?b then _ else _) => destruct b
      | |- quiet (match ?x with _ => _ end) => destruct x
      end ].

Section QuietHelpers.

Context (E : env).

Lemma quiet_convert_attempt fuel inputPath outputPath :
  quiet (convert_attempt E fuel inputPath outputPath).
Proof.
  revert outputPath. induction fuel as [|fuel IH]; intros outputPath;
    cbn [convert_attempt]; solve_quiet.
Qed.

Lemma quiet_convertVideoToAudio inputPath outputPath :
  quiet (convertVideoToAudio E inputPath outputPath).
Proof. apply quiet_convert_attempt. Qed.

Lemma quiet_poll fuel transcriptId : quiet (poll E fuel transcriptId).
Proof. induction fuel as [|fuel IH]; cbn [poll]; solve_quiet. Qed.

Lemma quiet_uploadToAssemblyAI filePath : quiet (uploadToAssemblyAI E filePath).
Proof. unfold uploadToAssemblyAI. solve_quiet. Qed.

Lemma quiet_startTranscription audioUrl options :
  quiet (startTranscription E audioUrl options).
Proof. unfold startTranscription. solve_quiet. Qed.

Lemma quiet_waitForTranscription transcriptId :
  quiet (waitForTranscription E transcriptId).
Proof. unfold waitForTranscription. solve_quiet. apply quiet_poll. Qed.

Lemma quiet_transcribeAudio filePath options :
  quiet (transcribeAudio E filePath options).
Proof.
  unfold transcribeAudio.
  pose proof quiet_uploadToAssemblyAI. pose proof quiet_startTranscription.
  pose proof quiet_waitForTranscription. solve_quiet.
Qed.

Lemma quiet_validateMediaFile filePath originalName :
  quiet (validateMediaFile E filePath originalName).
Proof. unfold validateMediaFile. solve_quiet. Qed.

End QuietHelpers.

(** *** The try blocks of the routes *)

Section RouteFacts.

Context (E : env).

(** What [transcribe_and_reply] amounts to: the reply follows a successful
    transcription and nothing follows a failed one. *)
Lemma transcribe_and_reply_run convertedPath language w :
  transcribe_and_reply E convertedPath language w =
  match transcribeAudio E convertedPath (transcriptionOptions language) w with
  | (Return result, w1) =>
      (Return (),
       emit (Respond 200 {[ "transcription" := text result;
                            "confidence" := confidence result;
                            "language_detected" := language_code result ]}) w1)
  | (Throw e, w1) => (Throw e, w1)
  | (Hang, w1) => (Hang, w1)
  end.
Proof.
  unfold transcribe_and_reply. unfold mbind, M_bind.
  by destruct (transcribeAudio _ _ _ _) as [[?| |] ?].
Qed.

(** The steps of a route from the conversion on: when they return, the
    last action is the reply with the transcription; when they throw, no
    response has been sent. *)
Lemma convert_transcribe_reply (prelude : M unit) inputPath convertedPath language w o w1 :
  quiet prelude →
  (prelude;; convertVideoToAudio E inputPath convertedPath;;
   transcribe_and_reply E convertedPath language) w = (o, w1) →
  match o with
  | Return _ =>
      ∃ result w0 w2,
        transcribeAudio E convertedPath (transcriptionOptions language) w0
          = (Return result, w2) ∧
        trace w1 = trace w2 ++
          [Respond 200 {[ "transcription" := text result;
                          "confidence" := confidence result;
                          "language_detected" := language_code result ]}] ∧
        responses (trace w2) = responses (trace w)
  | _ => responses (trace w1) = responses (trace w)
  end.
Proof.
  intros Hprelude. unfold mbind at 1, M_bind at 1.
  pose proof (Hprelude w) as Hq0.
  destruct (prelude w) as [[[]|e|] wa]; cbn in Hq0;
    [|intros [= <- <-]; done..].
  unfold mbind, M_bind.
  pose proof (quiet_convertVideoToAudio E inputPath convertedPath wa) as Hq1.
  destruct (convertVideoToAudio _ _ _ wa) as [[path|e|] wb]; cbn in Hq1;
    [|intros [= <- <-]; congruence..].
  rewrite transcribe_and_reply_run.
  pose proof (quiet_transcribeAudio E convertedPath
                (transcriptionOptions language) wb) as Hq2.
  destruct (transcribeAudio _ _ _ wb) as [[result|e|] wc] eqn:Hrun; cbn in Hq2;
    intros [= <- <-]; [|congruence..].
  exists result, wb, wc. split; [done|]. split; [done|]. congruence.
Qed.

Lemma bind_assoc {S A B C} (m : M_ S A) (k : A → M_ S B) (h : B → M_ S C) s :
  (m ≫= λ a, k a ≫= h) s = ((m ≫= k) ≫= h) s.
Proof.
  unfold mbind, M_bind. by destruct (m s) as [[a|e|] s1].
Qed.

Lemma responses_cleanup_effect p w w' :
  cleanup_effect p w w' → responses (trace w') = responses (trace w).
Proof.
  unfold cleanup_effect. intros (_ & _ & H).
  destruct (p ≫= _) as [f|]; destruct H as [-> _];
    by rewrite responses_app, app_nil_r.
Qed.

(** Past a successful validation of the URL, the try block of the YouTube
    route sets both paths and runs the pipeline on them. *)
Lemma youtube_try_valid body w :
  play_validate E (prop body "url") = inl (JStr "yt_video") →
  let audio := "temp_youtube_" +:+ Str.of_N (Date_now E (ticks w)) +:+ ".webm" in
  let converted :=
    "temp_youtube_" +:+ Str.of_N (Date_now E (S (ticks w))) +:+ ".wav" in
  let run :=
    ((download E (prop body "url") audio;;
      console_log "Áudio baixado, convertendo...");;
     convertVideoToAudio E audio converted;;
     transcribe_and_reply E converted (prop body "language"))
      (tick (tick (print "log" "Processando YouTube com play-dl:" w))) in
  youtube_try E body ({| audioPath := None; convertedPath := None |}, w) =
  (run.1, ({| audioPath := Some audio; convertedPath := Some converted |}, run.2)).
Proof.
  intros Hvalid. cbv zeta. rewrite <- bind_assoc.
  unfold youtube_try, validate. rewrite Hvalid.
  unfold call, assign, now. unfold mbind at 1 2 3 4 5 6, M_bind at 1 2 3 4 5 6.
  cbn -[download convertVideoToAudio transcribe_and_reply mbind].
  match goal with
  | |- (let '(_, _) := ?run in _) = _ => by destruct run
  end.
Qed.

(** The shape shared by the two routes: a try block that, past its
    checks, sets the handler's variables and runs the pipeline; a catch
    block that prints and replies 500 with the error's message; a finally
    block that cleans up two paths.  Whatever the try block does short of
    hanging, the handler returns normally, exactly one response is sent
    (the transcription, or the error of the stage that failed), and both
    paths are cleaned up after it. *)
Lemma route_cleanup {F} (try_block : M_ (F * world) ())
    (catch_block : js_error → M ()) (finally_block : M_ (F * world) ())
    (init vars : F) (prelude : M ()) (w w0 : world)
    (inputPath converted label failure : string) (language : jsval)
    (p1 p2 : option string) o vars' w1 :
  quiet prelude →
  responses (trace w0) = responses (trace w) →
  (let run := (prelude;; convertVideoToAudio E inputPath converted;;
               transcribe_and_reply E converted language) w0 in
   try_block (init, w) = (run.1, (vars, run.2))) →
  (∀ e, catch_block e =
        (console_error label;;
         respond 500 {[ "error" := JStr (failure +:+ message e) ]})) →
  (∀ w2, finally_block (vars, w2) =
         (call (cleanupFile p1);; call (cleanupFile p2)) (vars, w2)) →
  try_block (init, w) = (o, (vars', w1)) →
  o ≠ Hang →
  ∃ reply w2 w3 w4,
    vars' = vars ∧
    scope init
      (try_finally (try_catch try_block (λ error, call (catch_block error)))
         finally_block) w = (Return (), w4) ∧
    responses (trace w2) = responses (trace w) ++ [reply] ∧
    responses (trace w4) = responses (trace w) ++ [reply] ∧
    cleanup_effect p1 w2 w3 ∧
    cleanup_effect p2 w3 w4 ∧
    match o with
    | Return _ =>
        ∃ result wc wt,
          transcribeAudio E converted (transcriptionOptions language) wc
            = (Return result, wt) ∧
          reply = (200%N, {[ "transcription" := text result;
                             "confidence" := confidence result;
                             "language_detected" := language_code result ]})
    | Throw e => reply = (500%N, {[ "error" := JStr (failure +:+ message e) ]})
    | Hang => False
    end.
Proof.
  intros Hprelude Hw0 Hshape Hcatch Hfinally Htry Hsettled.
  cbv zeta in Hshape. rewrite Hshape in Htry.
  injection Htry as Ho Hvars Hw1.
  match type of Ho with
  | (?run ?w0).1 = _ =>
      assert (run w0 = (o, w1)) as Hrun
        by (rewrite (surjective_pairing (run w0)); congruence)
  end.
  apply convert_transcribe_reply in Hrun; [|done].
  rewrite Hw0 in Hrun.
  set (body_caught := try_catch try_block (λ error, call (catch_block error))).
  assert (∃ reply w2,
            body_caught (init, w) = (Return (), (vars, w2)) ∧
            responses (trace w2) = responses (trace w) ++ [reply] ∧
            match o with
            | Return _ =>
                ∃ result wc wt,
                  transcribeAudio E converted (transcriptionOptions language) wc
                    = (Return result, wt) ∧
                  reply = (200%N, {[ "transcription" := text result;
                                     "confidence" := confidence result;
                                     "language_detected" := language_code result ]})
            | Throw e =>
                reply = (500%N, {[ "error" := JStr (failure +:+ message e) ]})
            | Hang => False
            end) as (reply & w2 & Hcaught & Hreply & Hwhich).
  { unfold body_caught, try_catch. rewrite Hshape, Ho, Hw1.
    destruct o as [[]|e|]; [| |done].
    - destruct Hrun as (result & wc & wt & Htranscribe & Htrace & Hquiet).
      eexists _, w1. split; [done|]. split; [|by eexists _, _, _].
      by rewrite Htrace, responses_app, Hquiet.
    - rewrite Hcatch. eexists _, _. split; [reflexivity|]. split; [|done].
      cbn. by rewrite responses_app, Hrun. }
  destruct (finally_runs body_caught finally_block p1 p2 _ w _ vars w2 Hcaught)
    as (w3 & w4 & Heff1 & Heff2 & Hhandler); [done|done|].
  exists reply, w2, w3, w4.
  split; [done|]. split; [exact Hhandler|]. split; [exact Hreply|].
  split; [|done].
  by rewrite (responses_cleanup_effect _ _ _ Heff2),
       (responses_cleanup_effect _ _ _ Heff1).
Qed.

(** The YouTube route past the validation of the URL. *)
Lemma youtube_cleanup body w o vars w1 :
  play_validate E (prop body "url") = inl (JStr "yt_video") →
  youtube_try E body ({| audioPath := None; convertedPath := None |}, w)
    = (o, (vars, w1)) →
  o ≠ Hang →
  let audio := "temp_youtube_" +:+ Str.of_N (Date_now E (ticks w)) +:+ ".webm" in
  let converted :=
    "temp_youtube_" +:+ Str.of_N (Date_now E (S (ticks w))) +:+ ".wav" in
  ∃ reply w2 w3 w4,
    vars = {| audioPath := Some audio; convertedPath := Some converted |} ∧
    transcribe_youtube E body w = (Return (), w4) ∧
    responses (trace w2) = responses (trace w) ++ [reply] ∧
    responses (trace w4) = responses (trace w) ++ [reply] ∧
    cleanup_effect (Some audio) w2 w3 ∧
    cleanup_effect (Some converted) w3 w4 ∧
    match o with
    | Return _ =>
        ∃ result wc wt,
          transcribeAudio E converted
            (transcriptionOptions (prop body "language")) wc = (Return result, wt) ∧
          reply = (200%N, {[ "transcription" := text result;
                             "confidence" := confidence result;
                             "language_detected" := language_code result ]})
    | Throw e =>
        reply = (500%N, {[ "error" := JStr ("Erro ao processar vídeo do YouTube: "
                                            +:+ message e) ]})
    | Hang => False
    end.
Proof.
  intros Hvalid Htry Hsettled.
  eapply (route_cleanup (youtube_try E body) youtube_catch youtube_finally);
    [| |apply (youtube_try_valid body w Hvalid)| | |exact Htry|exact Hsettled].
  - solve_quiet.
  - reflexivity.
  - reflexivity.
  - reflexivity.
Qed.

Lemma bind_log {A} text (k : () → M A) w :
  (console_log text ≫= k) w = k () (print "log" text w).
Proof. reflexivity. Qed.

(** A file that passes validation. *)
Lemma validateMediaFile_accepts filePath originalName w f :
  fs w !! filePath = Some f →
  size f ≠ 0%N →
  includes allowedExtensions (toLowerCase E (path_extname E originalName)) = true →
  validateMediaFile E filePath originalName w =
  (Return {| info_size := size f;
             info_extension := toLowerCase E (path_extname E originalName);
             info_name := originalName |},
   print "log" "Arquivo validado:"
     (emit (StatSync filePath) (emit (ExistsSync (Some filePath)) w))).
Proof.
  intros Hf Hsize%N.eqb_neq Hallowed. unfold validateMediaFile. unfold_monad.
  unfold existsSync, statSync. cbn -[includes]. rewrite Hf.
  rewrite bool_decide_true by done. cbn -[includes].
  by rewrite Hf, Hsize, Hallowed.
Qed.

(** Past a successful validation of the upload, the try block of the file
    route sets the converted path and runs the pipeline on it. *)
Lemma file_try_valid file body w f :
  fs w !! file_path file = Some f →
  size f ≠ 0%N →
  includes allowedExtensions
    (toLowerCase E (path_extname E (originalname file))) = true →
  let converted :=
    path_join E "uploads"
      (path_basename_ext E (filename file) (path_extname E (filename file))
       +:+ "_converted.wav") in
  let run :=
    (console_log "Convertendo para áudio...";;
     convertVideoToAudio E (file_path file) converted;;
     transcribe_and_reply E converted (prop body "language"))
      (print "log" "Arquivo validado:"
         (emit (StatSync (file_path file))
            (emit (ExistsSync (Some (file_path file)))
               (print "log" "Processando arquivo:" w)))) in
  file_try E (Some file) body (None, w) = (run.1, (Some converted, run.2)).
Proof.
  intros Hf Hsize Hallowed. cbv zeta.
  unfold file_try, call, assign, try_catch.
  unfold mbind at 1 2 3 4, M_bind at 1 2 3 4.
  cbn -[validateMediaFile convertVideoToAudio transcribe_and_reply mbind].
  unfold mbind at 1, M_bind at 1.
  rewrite (validateMediaFile_accepts _ _ (print "log" "Processando arquivo:" w)
             f Hf Hsize Hallowed).
  cbn -[convertVideoToAudio transcribe_and_reply mbind].
  rewrite !bind_log.
  match goal with
  | |- (let '(_, _) := ?run in _) = _ => by destruct run
  end.
Qed.

(** The file route past the validation of the upload. *)
Lemma file_cleanup file body w f o var w1 :
  fs w !! file_path file = Some f →
  size f ≠ 0%N →
  includes allowedExtensions
    (toLowerCase E (path_extname E (originalname file))) = true →
  file_try E (Some file) body (None, w) = (o, (var, w1)) →
  o ≠ Hang →
  let converted :=
    path_join E "uploads"
      (path_basename_ext E (filename file) (path_extname E (filename file))
       +:+ "_converted.wav") in
  ∃ reply w2 w3 w4,
    var = Some converted ∧
    transcribe_file E (Some file) body w = (Return (), w4) ∧
    responses (trace w2) = responses (trace w) ++ [reply] ∧
    responses (trace w4) = responses (trace w) ++ [reply] ∧
    cleanup_effect (Some (file_path file)) w2 w3 ∧
    cleanup_effect (Some converted) w3 w4 ∧
    match o with
    | Return _ =>
        ∃ result wc wt,
          transcribeAudio E converted
            (transcriptionOptions (prop body "language")) wc = (Return result, wt) ∧
          reply = (200%N, {[ "transcription" := text result;
                             "confidence" := confidence result;
                             "language_detected" := language_code result ]})
    | Throw e =>
        reply = (500%N, {[ "error" := JStr ("Erro ao processar arquivo: "
                                            +:+ message e) ]})
    | Hang => False
    end.
Proof.
  intros Hf Hsize Hallowed Htry Hsettled.
  eapply (route_cleanup (file_try E (Some file) body) file_catch
            (file_finally (Some file)));
    [| |apply (file_try_valid file body w f Hf Hsize Hallowed)| |
     |exact Htry|exact Hsettled].
  - solve_quiet.
  - cbn. by rewrite !responses_app, !app_nil_r.
  - reflexivity.
  - reflexivity.
Qed.

End RouteFacts.

(** C1: [cleanupFile] returns normally for every argument and in every
    world, a failed deletion being caught and printed only.  In both
    transcription routes, once the request is past the checks that precede
    the pipeline (the URL is a YouTube video; the upload is a non-empty file
    of an allowed type), whatever the try block does short of hanging
    (success, or a failure of the download, of the conversion or of the
    transcription), the handler returns normally, exactly one response is
    sent, which is the transcription on success and the error of the failed
    stage otherwise, and after it [cleanupFile] runs on the raw input path
    and then on the converted audio path. *)
Theorem cleanup_follows_every_pipeline_outcome (E : env) :
  (∀ p w, ∃ w', cleanupFile p w = (Return (), w') ∧ cleanup_effect p w w') ∧
  (∀ body w o vars w1,
     play_validate E (prop body "url") = inl (JStr "yt_video") →
     youtube_try E body ({| audioPath := None; convertedPath := None |}, w)
       = (o, (vars, w1)) →
     o ≠ Hang →
     let audio :=
       "temp_youtube_" +:+ Str.of_N (Date_now E (ticks w)) +:+ ".webm" in
     let converted :=
       "temp_youtube_" +:+ Str.of_N (Date_now E (S (ticks w))) +:+ ".wav" in
     ∃ reply w2 w3 w4,
       vars = {| audioPath := Some audio; convertedPath := Some converted |} ∧
       transcribe_youtube E body w = (Return (), w4) ∧
       responses (trace w2) = responses (trace w) ++ [reply] ∧
       responses (trace w4) = responses (trace w) ++ [reply] ∧
       cleanup_effect (Some audio) w2 w3 ∧
       cleanup_effect (Some converted) w3 w4 ∧
       match o with
       | Return _ =>
           ∃ result wc wt,
             transcribeAudio E converted
               (transcriptionOptions (prop body "language")) wc
               = (Return result, wt) ∧
             reply = (200%N, {[ "transcription" := text result;
                                "confidence" := confidence result;
                                "language_detected" := language_code result ]})
       | Throw e =>
           reply = (500%N,
                    {[ "error" := JStr ("Erro ao processar vídeo do YouTube: "
                                        +:+ message e) ]})
       | Hang => False
       end) ∧
  (∀ file body w f o var w1,
     fs w !! file_path file = Some f →
     size f ≠ 0%N →
     includes allowedExtensions
       (toLowerCase E (path_extname E (originalname file))) = true →
     file_try E (Some file) body (None, w) = (o, (var, w1)) →
     o ≠ Hang →
     let converted :=
       path_join E "uploads"
         (path_basename_ext E (filename file) (path_extname E (filename file))
          +:+ "_converted.wav") in
     ∃ reply w2 w3 w4,
       var = Some converted ∧
       transcribe_file E (Some file) body w = (Return (), w4) ∧
       responses (trace w2) = responses (trace w) ++ [reply] ∧
       responses (trace w4) = responses (trace w) ++ [reply] ∧
       cleanup_effect (Some (file_path file)) w2 w3 ∧
       cleanup_effect (Some converted) w3 w4 ∧
       match o with
       | Return _ =>
           ∃ result wc wt,
             transcribeAudio E converted
               (transcriptionOptions (prop body "language")) wc
               = (Return result, wt) ∧
             reply = (200%N, {[ "transcription" := text result;
                                "confidence" := confidence result;
                                "language_detected" := language_code result ]})
       | Throw e =>
           reply = (500%N,
                    {[ "error" := JStr ("Erro ao processar arquivo: "
                                        +:+ message e) ]})
       | Hang => False
       end).
Proof.
  split; [apply cleanupFile_never_throws|]. split.
  - intros body w o vars w1. apply youtube_cleanup.
  - intros file body w f o var w1. apply file_cleanup.
Qed.

(** An upload that cannot be deleted: the transcription is sent all the
    same, the handler returns normally, the failed deletion is on the
    console and the converted file is gone. *)
Lemma cleanup_follows_every_pipeline_outcome_witness :
  let E := Sample.environment None Sample.wav_only_encoder in
  let w := Sample.storage_world "uploads/1700-clip.mp4"
             {| size := 2048; unlink_error := Some Sample.EPERM |} in
  ∃ reply w4,
    transcribe_file E (Some Sample.upload) ∅ w = (Return (), w4) ∧
    responses (trace w4) = [reply] ∧
    reply.1 = 200%N ∧
    ("error", "Erro ao remover arquivo:") ∈ console w4 ∧
    fs w4 !! "uploads/1700-clip_converted.wav" = None.
Proof.
  cbv zeta.
  set (E := Sample.environment None Sample.wav_only_encoder).
  set (w := Sample.storage_world "uploads/1700-clip.mp4"
              {| size := 2048; unlink_error := Some Sample.EPERM |}).
  destruct (file_try E (Some Sample.upload) ∅ (None, w)) as [o [var w1]] eqn:Htry.
  assert (o = Return ()) as Ho by (vm_compute in Htry; congruence).
  destruct (proj2 (proj2 (cleanup_follows_every_pipeline_outcome E))
              Sample.upload ∅ w {| size := 2048; unlink_error := Some Sample.EPERM |}
              o var w1)
    as (reply & w2 & w3 & w4 & _ & Hrun & _ & Hreply & _ & _ & Hwhich);
    [vm_compute; reflexivity | discriminate | vm_compute; reflexivity
    | exact Htry | rewrite Ho; discriminate |].
  exists reply, w4. split; [exact Hrun|]. split; [exact Hreply|].
  rewrite Ho in Hwhich. destruct Hwhich as (result & wc & wt & _ & ->).
  split; [reflexivity|].
  vm_compute in Hrun. injection Hrun as <-.
  split; [|vm_compute; reflexivity].
  apply list_elem_of_In. vm_compute. tauto.
Defined.

(** * Further properties of the code *)

(** ** Text post-processing *)

Example split_sentences_samples :
  Text.split_sentences "a.b" = ["a"; "b"] ∧
  Text.split_sentences "a..b" = ["a"; "b"] ∧
  Text.split_sentences ".a" = [""; "a"] ∧
  Text.split_sentences "a." = ["a"; ""] ∧
  Text.split_sentences "" = [""] ∧
  Text.split_sentences "?!." = [""; ""] ∧
  Text.trim (" " +:+ LF +:+ "a b" +:+ LF +:+ " ") = "a b" ∧
  Text.trim (String "194" (String "160" "x")) = "x" ∧
  Text.trim (String "226" (String "128" (String "148" "x")))
    = String "226" (String "128" (String "148" "x")) ∧
  Text.trim ("x" +:+ String "239" (String "187" (String "191" ""))) = "x" ∧
  format_sentences "Bom dia!  Tudo bem? Sim" =
    "Bom dia." +:+ LF +:+ LF +:+ "Tudo bem." +:+ LF +:+ LF +:+ "Sim." ∧
  format_sentences "" = ".".
Proof. repeat split; vm_compute; reflexivity. Qed.

Lemma trimStart_unfold (s : string) :
  Text.trimStart s =
  match leading_space s with
  | Some rest => Text.trimStart rest
  | None => s
  end.
Proof.
  destruct s as [|a s1]; [done|]. cbn [Text.trimStart leading_space].
  destruct (Text.ws1 a); [done|].
  destruct s1 as [|b s2]; [done|]. destruct (Text.ws2 a b); [done|].
  destruct s2 as [|c s3]; [done|]. by destruct (Text.ws3 a b c).
Qed.

Lemma leading_space_shorter (s rest : string) :
  leading_space s = Some rest → String.length rest < String.length s.
Proof.
  destruct s as [|a [|b [|c s]]]; cbn [leading_space];
    repeat (match goal with |- context [if ?b then _ else _] => destruct b end);
    intros [= <-]; cbn; lia.
Qed.

Lemma leading_space_app (s rest more : string) :
  leading_space s = Some rest → leading_space (s +:+ more) = Some (rest +:+ more).
Proof.
  destruct s as [|a [|b [|c s]]]; rewrite ?string_app_cons;
    cbn [leading_space];
    repeat (match goal with |- context [if ?b then _ else _] => destruct b end);
    by intros [= <-].
Qed.

(** A string and a prefix of it: when the whole does not start with white
    space, neither does the prefix. *)
Lemma leading_space_prefix (s more : string) :
  leading_space (s +:+ more) = None → leading_space s = None.
Proof.
  destruct (leading_space s) as [rest|] eqn:Hs; [|done].
  by rewrite (leading_space_app _ _ more Hs).
Qed.

Lemma leading_space_suffix (s rest : string) :
  leading_space s = Some rest →
  ∃ space, s = space +:+ rest ∧ leading_space space = Some "".
Proof.
  destruct s as [|a s1]; [done|]. cbn [leading_space].
  destruct (Text.ws1 a) eqn:H1.
  { intros [= <-]. exists (String a ""). split; [done|].
    cbn [leading_space]. by rewrite H1. }
  destruct s1 as [|b s2]; [done|]. destruct (Text.ws2 a b) eqn:H2.
  { intros [= <-]. exists (String a (String b "")). split; [done|].
    cbn [leading_space]. by rewrite H1, H2. }
  destruct s2 as [|c s3]; [done|]. destruct (Text.ws3 a b c) eqn:H3; [|done].
  intros [= <-]. exists (String a (String b (String c ""))). split; [done|].
  cbn [leading_space]. by rewrite H1, H2, H3.
Qed.

(** Induction on the length of a string. *)
Lemma string_length_ind (P : string → Prop) :
  (∀ s, (∀ t, String.length t < String.length s → P t) → P s) → ∀ s, P s.
Proof.
  intros Hstep s. remember (String.length s) as n eqn:Hn.
  revert s Hn. induction (lt_wf n) as [n _ IH]. intros s ->.
  apply Hstep. intros t Ht. by apply (IH (String.length t)).
Qed.

Lemma trimStart_no_leading_space (s : string) :
  leading_space (Text.trimStart s) = None.
Proof.
  induction s as [s IH] using string_length_ind.
  rewrite trimStart_unfold. destruct (leading_space s) as [rest|] eqn:Hs; [|done].
  apply IH. by apply leading_space_shorter.
Qed.

Lemma trimStart_fixed (s : string) :
  leading_space s = None → Text.trimStart s = s.
Proof. intros Hs. by rewrite trimStart_unfold, Hs. Qed.

(** What [trimStart] removes. *)
Lemma trimStart_suffix (s : string) :
  ∃ space, s = space +:+ Text.trimStart s ∧ Text.trimStart space = "".
Proof.
  induction s as [s IH] using string_length_ind.
  rewrite trimStart_unfold. destruct (leading_space s) as [rest|] eqn:Hs.
  - destruct (IH rest (leading_space_shorter _ _ Hs)) as (space & Hrest & Hspace).
    destruct (leading_space_suffix _ _ Hs) as (first & -> & Hfirst).
    exists (first +:+ space). split.
    + rewrite string_app_assoc. by rewrite <- Hrest.
    + rewrite trimStart_unfold.
      by rewrite (leading_space_app _ _ space Hfirst), string_app_empty.
  - exists "". by rewrite string_app_empty.
Qed.

(** White space in front of a string is dropped with it. *)
Lemma trimStart_app_space (space rest : string) :
  Text.trimStart space = "" →
  Text.trimStart (space +:+ rest) = Text.trimStart rest.
Proof.
  induction space as [space IH] using string_length_ind.
  rewrite (trimStart_unfold space).
  destruct (leading_space space) as [space'|] eqn:Hs.
  - intros Hspace. rewrite trimStart_unfold, (leading_space_app _ _ rest Hs).
    apply IH; [by apply leading_space_shorter | done].
  - intros ->. by rewrite string_app_empty.
Qed.

Lemma trimEnd_unfold (s : string) :
  Text.trimEnd s =
  if String.eqb (Text.trimStart s) "" then ""
  else match s with
       | EmptyString => ""
       | String c s' => String c (Text.trimEnd s')
       end.
Proof. by destruct s. Qed.

(** What [trimEnd] removes. *)
Lemma trimEnd_prefix (s : string) :
  ∃ space, s = Text.trimEnd s +:+ space ∧ Text.trimStart space = "".
Proof.
  induction s as [|c s IH]; [by exists ""|].
  rewrite trimEnd_unfold.
  destruct (String.eqb _ "") eqn:Hall.
  - apply String.eqb_eq in Hall. exists (String c s). by rewrite string_app_empty.
  - destruct IH as (space & Hs & Hspace). exists space.
    split; [|done]. rewrite string_app_cons. by f_equal.
Qed.

Lemma trimEnd_idempotent (s : string) :
  Text.trimEnd (Text.trimEnd s) = Text.trimEnd s.
Proof.
  induction s as [|c s IH]; [done|].
  rewrite (trimEnd_unfold (String c s)).
  destruct (String.eqb (Text.trimStart (String c s)) "") eqn:Hall; [done|].
  rewrite trimEnd_unfold, IH.
  destruct (String.eqb (Text.trimStart (String c (Text.trimEnd s))) "") eqn:Hall';
    [|done].
  apply String.eqb_eq in Hall'. apply String.eqb_neq in Hall.
  destruct (trimEnd_prefix s) as (space & Hs & Hspace).
  exfalso. apply Hall. rewrite Hs, <- string_app_cons.
  by rewrite (trimStart_app_space _ _ Hall').
Qed.

Lemma trim_idempotent (s : string) : Text.trim (Text.trim s) = Text.trim s.
Proof.
  unfold Text.trim.
  destruct (trimEnd_prefix (Text.trimStart s)) as (space & Hs & _).
  rewrite (trimStart_fixed (Text.trimEnd (Text.trimStart s))).
  - apply trimEnd_idempotent.
  - apply (leading_space_prefix _ space). rewrite <- Hs.
    apply trimStart_no_leading_space.
Qed.

(** White space before a trimmed string is trimmed away. *)
Lemma trim_app_space (space s : string) :
  Text.trimStart space = "" → Text.trim (space +:+ s) = Text.trim s.
Proof. intros Hspace. unfold Text.trim. by rewrite trimStart_app_space. Qed.

Lemma trim_empty_iff (s : string) :
  (0 <? String.length (Text.trim s))%nat = negb (String.eqb (Text.trim s) "").
Proof. by destruct (Text.trim s). Qed.

Lemma separator_free_app (a b : string) :
  separator_free (a +:+ b) = separator_free a && separator_free b.
Proof.
  induction a as [|c a IH]; [done|].
  rewrite string_app_cons. cbn [separator_free]. by rewrite IH, andb_assoc.
Qed.

Lemma char_free_app (c : ascii) (a b : string) :
  char_free c (a +:+ b) = char_free c a && char_free c b.
Proof.
  induction a as [|x a IH]; [done|].
  rewrite string_app_cons. cbn [char_free]. by rewrite IH, andb_assoc.
Qed.

Lemma separator_free_char_free (c : ascii) (s : string) :
  Text.is_separator c = true → separator_free s = true → char_free c s = true.
Proof.
  intros Hc. induction s as [|x s IH]; [done|]. cbn [separator_free char_free].
  intros [Hx Hs]%andb_true_iff. rewrite (IH Hs), andb_true_r.
  destruct (Ascii.eqb x c) eqn:Heq; [|done].
  apply Ascii.eqb_eq in Heq as ->. by rewrite Hc in Hx.
Qed.

Lemma separator_free_trim (s : string) :
  separator_free s = true → separator_free (Text.trim s) = true.
Proof.
  intros Hs. unfold Text.trim.
  destruct (trimStart_suffix s) as (space & Hstart & _).
  destruct (trimEnd_prefix (Text.trimStart s)) as (space' & Hend & _).
  rewrite Hstart, Hend, !separator_free_app in Hs.
  by apply andb_true_iff in Hs as [_ [Hs _]%andb_true_iff].
Qed.

Lemma split_from_nonempty (after : bool) (s : string) : Text.split_from after s ≠ [].
Proof.
  revert after. induction s as [|c s IH]; intros after; [done|].
  cbn [Text.split_from]. destruct (Text.is_separator c).
  - destruct after; [apply IH | done].
  - by destruct (Text.split_from false s).
Qed.

(** The pieces of a split contain no separator. *)
Lemma split_from_separator_free (after : bool) (s : string) :
  Forall (λ piece, separator_free piece = true) (Text.split_from after s).
Proof.
  revert after. induction s as [|c s IH]; intros after.
  - by repeat constructor.
  - cbn [Text.split_from]. destruct (Text.is_separator c) eqn:Hc.
    + destruct after; [apply IH | constructor; [done | apply IH]].
    + specialize (IH false). destruct (Text.split_from false s) as [|piece pieces].
      * repeat constructor. cbn. by rewrite Hc.
      * inversion IH; subst. constructor; [|done]. cbn. by rewrite Hc.
Qed.

(** A piece without separators, followed by a separator, is split off. *)
Lemma split_from_piece (after : bool) (piece rest : string) (c : ascii) :
  piece ≠ "" ∨ after = false →
  separator_free piece = true →
  Text.is_separator c = true →
  Text.split_from after (piece +:+ String c rest) = piece :: Text.split_from true rest.
Proof.
  intros Hstart Hfree Hc. revert after Hstart.
  induction piece as [|x piece IH]; intros after Hstart.
  - destruct Hstart as [? | ->]; [done|].
    rewrite string_app_empty. cbn [Text.split_from]. by rewrite Hc.
  - rewrite string_app_cons. cbn [Text.split_from separator_free] in *.
    apply andb_true_iff in Hfree as [Hx Hfree].
    apply negb_true_iff in Hx. rewrite Hx.
    by rewrite (IH Hfree false (or_intror eq_refl)).
Qed.

Lemma join_cons (sep q : string) (qs : list string) :
  qs ≠ [] → Str.join sep (q :: qs) = q +:+ sep +:+ Str.join sep qs.
Proof. by destruct qs. Qed.

(** Splitting, filtering and trimming a printed list of sentences gives the
    sentences back; [space] is what precedes the first of them. *)
Lemma format_pieces (space : string) (qs : list string) :
  qs ≠ [] →
  Forall sentence qs →
  Text.trimStart space = "" →
  separator_free space = true →
  List.map Text.trim
    (List.filter (λ piece, (0 <? String.length (Text.trim piece))%nat)
       (Text.split_from false (space +:+ Str.join paragraph_break qs +:+ "."))) = qs.
Proof.
  intros Hne Hqs. revert space Hne.
  induction Hqs as [|q qs (Hq & Htrim & Hfree) Hqs IH]; intros space Hne Hspace Hsfree;
    [done|].
  assert (Text.trim (space +:+ q) = q) as Htrim'
    by (by rewrite trim_app_space).
  assert (String.eqb q "" = false) as Hqb by (by apply String.eqb_neq).
  assert (separator_free (space +:+ q) = true) as Hfree'
    by (by rewrite separator_free_app, Hsfree, Hfree).
  destruct qs as [|q' qs].
  - cbn [Str.join]. rewrite <- string_app_assoc.
    rewrite (split_from_piece false _ "" ".") by auto.
    cbn [Text.split_from List.filter List.map].
    rewrite trim_empty_iff, Htrim', Hqb.
    change (0 <? String.length (Text.trim ""))%nat with false.
    cbn [negb List.map]. by rewrite Htrim'.
  - rewrite join_cons by done. unfold paragraph_break at 1.
    rewrite !string_app_assoc, <- (string_app_assoc space q).
    rewrite (string_app_cons "." ""), string_app_empty.
    rewrite (split_from_piece false _ _ ".") by auto.
    cbn [List.filter List.map]. rewrite trim_empty_iff, Htrim', Hqb.
    cbn [negb List.map]. rewrite Htrim'. f_equal.
    rewrite <- (string_app_assoc LF LF).
    assert (∀ s, Text.split_from true ((LF +:+ LF) +:+ s)
                 = Text.split_from false ((LF +:+ LF) +:+ s)) as -> by done.
    by apply IH.
Qed.

Lemma format_sentences_shape (text : string) :
  ∃ sentences,
    format_sentences text = Str.join paragraph_break sentences +:+ "." ∧
    Forall sentence sentences.
Proof.
  eexists. split; [reflexivity|].
  apply Forall_forall. intros q Hq%list_elem_of_In.
  apply in_map_iff in Hq as [piece [<- Hpiece]].
  apply filter_In in Hpiece as [Hin Hnonblank].
  rewrite trim_empty_iff in Hnonblank.
  apply negb_true_iff, String.eqb_neq in Hnonblank.
  split; [done|]. split; [apply trim_idempotent|].
  apply separator_free_trim.
  pose proof (split_from_separator_free false text) as Hfree.
  rewrite Forall_forall in Hfree. by apply Hfree, list_elem_of_In.
Qed.

Lemma char_free_join (c : ascii) (sep : string) (qs : list string) :
  char_free c sep = true →
  Forall (λ q, char_free c q = true) qs →
  char_free c (Str.join sep qs) = true.
Proof.
  intros Hsep. induction 1 as [|q qs Hq Hqs IH]; [done|].
  destruct qs as [|q' qs]; [done|].
  rewrite join_cons by done. by rewrite !char_free_app, Hq, Hsep, IH.
Qed.

Lemma interleave_cons (c : ascii) (first : string) rest :
  interleave (String c first) rest = String c (interleave first rest).
Proof. destruct rest as [|[run piece] rest]; [done|]. cbn. by rewrite string_app_cons. Qed.

(** [split] cuts a text at its runs of separators; a run that has begun
    before the text is prolonged by the separators at its start. *)
Lemma split_from_interleave (after : bool) (s : string) :
  ∃ run first rest,
    Text.split_from after s = first :: List.map snd rest ∧
    s = run +:+ interleave first rest ∧
    all_separators run = true ∧
    (after = false → run = "") ∧
    separator_free first = true ∧
    Forall (λ rp : string * string,
              rp.1 ≠ "" ∧ all_separators rp.1 = true ∧
              separator_free rp.2 = true) rest.
Proof.
  revert after. induction s as [|c s IH]; intros after.
  - by exists "", "", [].
  - cbn [Text.split_from]. destruct (Text.is_separator c) eqn:Hc.
    + destruct (IH true) as (run & first & rest & -> & Hs & Hrun & _ & Hfirst & Hrest).
      destruct after.
      * exists (String c run), first, rest. rewrite string_app_cons, <- Hs.
        repeat split; try done. cbn. by rewrite Hc.
      * exists "", "", ((String c run, first) :: rest).
        cbn [interleave List.map snd]. rewrite !string_app_empty.
        rewrite string_app_cons, <- Hs.
        repeat split; try done.
        constructor; [|done]. cbn. by rewrite Hc.
    + destruct (IH false) as (run & first & rest & -> & Hs & _ & Hrun & Hfirst & Hrest).
      rewrite Hrun, string_app_empty in Hs by done.
      exists "", (String c first), rest.
      rewrite string_app_empty, interleave_cons, <- Hs.
      repeat split; try done. cbn. by rewrite Hc.
Qed.

Lemma split_sentences_cut (text : string) :
  cut_at_separators text (Text.split_sentences text).
Proof.
  destruct (split_from_interleave false text)
    as (run & first & rest & Hsplit & Htext & _ & Hrun & Hfirst & Hrest).
  rewrite Hrun, string_app_empty in Htext by done.
  by exists first, rest.
Qed.

Lemma format_sentences_printed (text : string) :
  format_sentences text =
  Str.join paragraph_break (printed (Text.split_sentences text)) +:+ ".".
Proof.
  unfold format_sentences, printed.
  by rewrite (List.filter_ext _ _ trim_empty_iff).
Qed.

Lemma printed_sentences (pieces : list string) :
  Forall (λ piece, separator_free piece = true) pieces →
  Forall sentence (printed pieces).
Proof.
  intros Hfree. apply Forall_forall. intros q Hq%list_elem_of_In.
  apply in_map_iff in Hq as [piece [<- Hpiece]].
  apply filter_In in Hpiece as [Hin Hnonblank].
  apply negb_true_iff, String.eqb_neq in Hnonblank.
  split; [done|]. split; [apply trim_idempotent|].
  apply separator_free_trim.
  rewrite Forall_forall in Hfree. by apply Hfree, list_elem_of_In.
Qed.

Section FormatResults.

Context (E : env).

(** X1: on a string, [formatText] returns without any effect the pieces of
    the input that lie between its runs of ".", "!" and "?", in their
    order, each trimmed and followed by ".", the blank ones left out, with
    two line feeds between neighbours (for an input without such a piece
    the result is "."); every printed piece is non-empty, trimmed and
    without ".", "!" or "?", and the result contains no "!" and no "?" at
    all. *)
Theorem formatText_prints_sentences (text : string) (w : world) :
  ∃ pieces,
    cut_at_separators text pieces ∧
    formatText E (JStr text) w =
      (Return (Str.join paragraph_break (printed pieces) +:+ "."), w) ∧
    Forall sentence (printed pieces) ∧
    char_free "!" (Str.join paragraph_break (printed pieces) +:+ ".") = true ∧
    char_free "?" (Str.join paragraph_break (printed pieces) +:+ ".") = true.
Proof.
  exists (Text.split_sentences text).
  pose proof (printed_sentences _ (split_from_separator_free false text))
    as Hsentences.
  split; [apply split_sentences_cut|]. split; [|split; [done|]].
  - unfold formatText, try_catch. cbn. by rewrite format_sentences_printed.
  - split; rewrite char_free_app, andb_true_r;
      (apply char_free_join; [done|]);
      (eapply Forall_impl; [exact Hsentences|]);
      intros q (_ & _ & Hfree); by apply separator_free_char_free.
Qed.

(** X2: formatting is idempotent: applied to its own result, [formatText]
    returns it unchanged. *)
Theorem formatText_idempotent (text : string) (w : world) :
  ∃ formatted,
    formatText E (JStr text) w = (Return formatted, w) ∧
    formatText E (JStr formatted) w = (Return formatted, w).
Proof.
  destruct (format_sentences_shape text) as (sentences & Hshape & Hsentences).
  exists (format_sentences text). split; [done|].
  unfold formatText, try_catch. cbn [mret M_ret]. do 2 f_equal.
  rewrite Hshape. destruct sentences as [|q qs]; [by vm_compute|].
  unfold format_sentences at 1, Text.split_sentences.
  pose proof (format_pieces "" (q :: qs)) as Hpieces.
  rewrite string_app_empty in Hpieces. by rewrite Hpieces.
Qed.

(** X3: on a value that is not a string, [formatText] rejects with an
    error whose message starts with 'Falha ao formatar o texto: ', after
    printing the failure; nothing else happens. *)
Theorem formatText_rejects_non_strings (text : jsval) (w : world) :
  (∀ s, text ≠ JStr s) →
  ∃ reason,
    formatText E text w =
      (Throw (Error ("Falha ao formatar o texto: " +:+ reason)),
       print "error" "Erro na formatação:" w).
Proof.
  intros Hnot. unfold formatText, try_catch.
  destruct text; try (by eexists); by destruct (Hnot s).
Qed.

End FormatResults.

Lemma formatText_rejects_non_strings_witness :
  (∀ s, JNum 42 ≠ JStr s) ∧
  formatText (Sample.environment None Sample.failing_encoder) (JNum 42)
    Sample.empty_world =
    (Throw (Error "Falha ao formatar o texto: text.split is not a function"),
     print "error" "Erro na formatação:" Sample.empty_world).
Proof.
  assert (∀ s, JNum 42 ≠ JStr s) as Hnot by done.
  split; [exact Hnot|].
  destruct (formatText_rejects_non_strings
              (Sample.environment None Sample.failing_encoder) (JNum 42)
              Sample.empty_world Hnot) as (reason & Hrun).
  rewrite Hrun. vm_compute in Hrun. by injection Hrun as ->.
Defined.

(** ** What the helpers leave alone *)

Section Keeps.

Context (I : world → world → Prop) `{!Reflexive I, !Transitive I}.

Lemma keeps_ret {A} (a : A) : keeps I (mret a).
Proof. intros w. cbn. reflexivity. Qed.

Lemma keeps_throw {A} e : keeps I (throw e : M A).
Proof. intros w. cbn. reflexivity. Qed.

Lemma keeps_hang {A} : keeps I (hang : M A).
Proof. intros w. cbn. reflexivity. Qed.

Lemma keeps_get_state : keeps I (get_state : M world).
Proof. intros w. cbn. reflexivity. Qed.

Lemma keeps_bind {A B} (m : M A) (k : A → M B) :
  keeps I m → (∀ a, keeps I (k a)) → keeps I (m ≫= k).
Proof.
  intros Hm Hk w. specialize (Hm w). unfold mbind, M_bind.
  destruct (m w) as [[a|e|] w1]; [|done..].
  cbn in Hm. etrans; [exact Hm | apply Hk].
Qed.

Lemma keeps_try_catch {A} (m : M A) (handler : js_error → M A) :
  keeps I m → (∀ e, keeps I (handler e)) → keeps I (try_catch m handler).
Proof.
  intros Hm Hh w. specialize (Hm w). unfold try_catch.
  destruct (m w) as [[a|e|] w1]; [done| |done].
  cbn in Hm. etrans; [exact Hm | apply Hh].
Qed.

Lemma keeps_response_text r : keeps I (response_text r).
Proof. apply keeps_ret. Qed.

Lemma keeps_response_json r : keeps I (response_json r).
Proof.
  unfold response_json. destruct (resp_json r); [apply keeps_ret | apply keeps_throw].
Qed.

Lemma keeps_member E v key : keeps I (member E v key).
Proof. destruct v; first [apply keeps_ret | apply keeps_throw]. Qed.

Lemma keeps_template E v : keeps I (template E v).
Proof.
  unfold template. destruct (renders v); [apply keeps_ret | apply keeps_throw].
Qed.

End Keeps.

#[export] Instance same_storage_refl : Reflexive same_storage.
Proof. by intros w. Qed.
#[export] Instance same_storage_trans : Transitive same_storage.
Proof. unfold same_storage. intros w1 w2 w3 H12 H23. congruence. Qed.

#[export] Instance no_file_lost_refl : Reflexive no_file_lost.
Proof. by intros w path. Qed.
#[export] Instance no_file_lost_trans : Transitive no_file_lost.
Proof. intros w1 w2 w3 H12 H23 path Hp. by apply H23, H12. Qed.

#[export] Instance same_network_refl : Reflexive same_network.
Proof. by intros w. Qed.
#[export] Instance same_network_trans : Transitive same_network.
Proof. unfold same_network. intros w1 w2 w3 H12 H23. congruence. Qed.

#[export] Instance emits_refl Q : Reflexive (emits Q).
Proof. intros w. exists []. by rewrite app_nil_r. Qed.
#[export] Instance emits_trans Q : Transitive (emits Q).
Proof.
  intros w1 w2 w3 (a12 & H12 & Hq12) (a23 & H23 & Hq23).
  exists (a12 ++ a23). split; [by rewrite H23, H12, app_assoc|].
  by apply Forall_app.
Qed.

(** Steps that touch one component of the world. *)
Lemma keeps_print I `{!Reflexive I} level text :
  (∀ w, I w (print level text w)) → keeps I (act (print level text)).
Proof. intros H w. apply H. Qed.

Lemma emits_one Q e w : Q e → emits Q w (emit e w).
Proof. intros He. exists [e]. split; [done|]. by constructor. Qed.

Lemma emits_nothing Q w w' : trace w' = trace w → emits Q w w'.
Proof. intros H. exists []. by rewrite app_nil_r. Qed.

Ltac unfold_step :=
  intros w;
  unfold fetch, existsSync, statSync, readFileSync, unlinkSync, save,
    run_encoder, download, sleep, console_log, console_error, act,
    same_storage, same_network;
  repeat case_match; cbn; try done.

Lemma same_storage_log text : keeps same_storage (console_log text).
Proof. unfold_step. Qed.
Lemma same_storage_error text : keeps same_storage (console_error text).
Proof. unfold_step. Qed.
Lemma same_storage_sleep ms : keeps same_storage (sleep ms).
Proof. unfold_step. Qed.
Lemma same_storage_fetch rq : keeps same_storage (fetch rq).
Proof. unfold_step. Qed.
Lemma same_storage_existsSync p : keeps same_storage (existsSync p).
Proof. unfold_step. Qed.
Lemma same_storage_statSync p : keeps same_storage (statSync p).
Proof. unfold_step. Qed.
Lemma same_storage_readFileSync p : keeps same_storage (readFileSync p).
Proof. unfold_step. Qed.

Lemma same_network_log text : keeps same_network (console_log text).
Proof. unfold_step. Qed.
Lemma same_network_error text : keeps same_network (console_error text).
Proof. unfold_step. Qed.
Lemma same_network_existsSync p : keeps same_network (existsSync p).
Proof. unfold_step. Qed.
Lemma same_network_statSync p : keeps same_network (statSync p).
Proof. unfold_step. Qed.
Lemma same_network_unlinkSync p : keeps same_network (unlinkSync p).
Proof. unfold_step. Qed.
Lemma same_network_save E command outputPath :
  keeps same_network (save E command outputPath).
Proof. unfold_step. Qed.

Lemma no_file_lost_log text : keeps no_file_lost (console_log text).
Proof. by intros w path. Qed.
Lemma no_file_lost_error text : keeps no_file_lost (console_error text).
Proof. by intros w path. Qed.
Lemma no_file_lost_save E command outputPath :
  keeps no_file_lost (save E command outputPath).
Proof.
  intros w path Hpath. unfold save, run_encoder. cbn.
  destruct (enc_file _); cbn; [|done].
  rewrite lookup_insert. by case_decide.
Qed.

Lemma emits_log Q text : keeps (emits Q) (console_log text).
Proof. intros w. by apply emits_nothing. Qed.
Lemma emits_error Q text : keeps (emits Q) (console_error text).
Proof. intros w. by apply emits_nothing. Qed.
Lemma emits_sleep (Q : event → Prop) ms : Q (Sleep ms) → keeps (emits Q) (sleep ms).
Proof. intros H w. by apply emits_one. Qed.
Lemma emits_fetch (Q : event → Prop) rq : Q (Fetch rq) → keeps (emits Q) (fetch rq).
Proof.
  intros H w. unfold fetch.
  destruct (net w) as [|[e|r] rest]; cbn; exists [Fetch rq]; split; try done;
    by constructor.
Qed.
Lemma emits_existsSync (Q : event → Prop) p :
  Q (ExistsSync p) → keeps (emits Q) (existsSync p).
Proof. intros H w. by apply emits_one. Qed.
Lemma emits_statSync (Q : event → Prop) p :
  Q (StatSync p) → keeps (emits Q) (statSync p).
Proof.
  intros H w. unfold statSync.
  destruct (fs w !! p); cbn; exists [StatSync p]; split; try done; by constructor.
Qed.
Lemma emits_readFileSync (Q : event → Prop) p :
  Q (ReadFileSync p) → keeps (emits Q) (readFileSync p).
Proof.
  intros H w. unfold readFileSync.
  destruct (fs w !! p); cbn; exists [ReadFileSync p]; split; try done;
    by constructor.
Qed.
Lemma emits_save (Q : event → Prop) E command outputPath :
  Q (Encode command outputPath) → keeps (emits Q) (save E command outputPath).
Proof.
  intros H w. unfold save. cbn. exists [Encode command outputPath].
  split; [apply trace_run_encoder | by constructor].
Qed.

Create HintDb keeps.
#[export] Hint Resolve keeps_ret keeps_throw keeps_hang keeps_get_state
  keeps_response_text keeps_response_json keeps_member keeps_template
  same_storage_log same_storage_error same_storage_sleep same_storage_fetch
  same_storage_existsSync same_storage_statSync same_storage_readFileSync
  same_network_log same_network_error same_network_existsSync
  same_network_statSync same_network_unlinkSync same_network_save
  no_file_lost_log no_file_lost_error no_file_lost_save
  emits_log emits_error : keeps.

(** Decomposes a computation along its binds, handlers and branches. *)
Ltac solve_keeps :=
  repeat first
    [ progress eauto with keeps typeclass_instances
    | apply keeps_bind; [apply _ | | intros ?]
    | apply keeps_try_catch; [apply _ | | intros ?]
    | match goal with
      | |- keeps _ (if ?b then _ else _) => destruct b
      | |- keeps _ (match ?x with _ => _ end) => destruct x
      end ].

Section KeptByHelpers.

Context (E : env).

Lemma convert_attempt_keeps I `{!Reflexive I, !Transitive I} fuel inputPath :
  (∀ text, keeps I (console_log text)) →
  (∀ text, keeps I (console_error text)) →
  (∀ isWav outputPath, keeps I (save E (build_command inputPath isWav) outputPath)) →
  ∀ outputPath, keeps I (convert_attempt E fuel inputPath outputPath).
Proof.
  intros Hlog Herror Hsave.
  induction fuel as [|fuel IH]; intros outputPath; cbn [convert_attempt];
    solve_keeps.
Qed.

Lemma convert_runs_encoder_only inputPath outputPath w :
  let w' := (convertVideoToAudio E inputPath outputPath w).2 in
  (∃ runs, trace w' = trace w ++ runs ∧ Forall (canonical_run inputPath) runs) ∧
  net w' = net w.
Proof.
  cbv zeta. split.
  - apply (convert_attempt_keeps (emits (canonical_run inputPath)));
      [apply emits_log | apply emits_error |].
    intros isWav out. apply emits_save. by destruct isWav.
  - apply (convert_attempt_keeps same_network);
      [apply same_network_log | apply same_network_error |].
    intros. apply same_network_save.
Qed.

(** X4: [convertVideoToAudio] only ever runs the encoder, on the given input
    and with 16 kHz mono output, in every attempt; it removes no file from
    storage and consumes no answer of the network. *)
Theorem convert_runs_canonical_encoder inputPath outputPath w :
  let w' := (convertVideoToAudio E inputPath outputPath w).2 in
  (∃ runs, trace w' = trace w ++ runs ∧ Forall (canonical_run inputPath) runs) ∧
  (∀ path, is_Some (fs w !! path) → is_Some (fs w' !! path)) ∧
  net w' = net w.
Proof.
  cbv zeta. split; [|split].
  - apply (convert_attempt_keeps (emits (canonical_run inputPath)));
      [apply emits_log | apply emits_error |].
    intros isWav out. apply emits_save. by destruct isWav.
  - apply (convert_attempt_keeps no_file_lost);
      [apply no_file_lost_log | apply no_file_lost_error |].
    intros. apply no_file_lost_save.
  - apply (convert_attempt_keeps same_network);
      [apply same_network_log | apply same_network_error |].
    intros. apply same_network_save.
Qed.

(** X5: [validateMediaFile] is read-only: it changes neither storage nor
    the pending answers of the network, and its only external actions are
    [existsSync] and [statSync] on the given path. *)
Theorem validation_is_read_only filePath originalName w :
  let w' := (validateMediaFile E filePath originalName w).2 in
  fs w' = fs w ∧ net w' = net w ∧
  ∃ actions, trace w' = trace w ++ actions ∧ Forall (inspection filePath) actions.
Proof.
  cbv zeta. split; [|split].
  - apply (λ H : keeps same_storage (validateMediaFile E filePath originalName),
             H w).
    unfold validateMediaFile. solve_keeps.
  - apply (λ H : keeps same_network (validateMediaFile E filePath originalName),
             H w).
    unfold validateMediaFile. solve_keeps.
  - apply (λ H : keeps (emits (inspection filePath))
                   (validateMediaFile E filePath originalName), H w).
    unfold validateMediaFile.
    apply keeps_bind; [apply _ | apply emits_existsSync; by left |].
    intros found. destruct (negb found); [solve_keeps|].
    apply keeps_bind; [apply _ | apply emits_statSync; by right |].
    intros stats. solve_keeps.
Qed.

Lemma submission_authorized request :
  ("authorization", ASSEMBLYAI_API_KEY E) ∈ req_headers (submission E request).
Proof. by left. Qed.

Lemma status_request_authorized transcriptId :
  ("authorization", ASSEMBLYAI_API_KEY E)
    ∈ req_headers (status_request E transcriptId).
Proof. by left. Qed.

Lemma transcribeAudio_keeps I `{!Reflexive I, !Transitive I} filePath options :
  (∀ text, keeps I (console_log text)) →
  (∀ text, keeps I (console_error text)) →
  keeps I (readFileSync filePath) →
  (∀ rq, ("authorization", ASSEMBLYAI_API_KEY E) ∈ req_headers rq →
         keeps I (fetch rq)) →
  keeps I (sleep 3000) →
  keeps I (transcribeAudio E filePath options).
Proof.
  intros Hlog Herror Hread Hfetch Hsleep.
  pose proof submission_authorized as Hsubmission.
  pose proof status_request_authorized as Hstatus.
  assert (∀ fuel transcriptId, keeps I (poll E fuel transcriptId)) as Hpoll.
  { induction fuel as [|fuel IH]; intros transcriptId; cbn [poll]; solve_keeps. }
  assert (keeps I (uploadToAssemblyAI E filePath)) as Hupload.
  { unfold uploadToAssemblyAI.
    apply keeps_try_catch; [apply _ | | intros ?; solve_keeps].
    apply keeps_bind; [apply _ | done | intros _].
    apply keeps_bind; [apply _ | done | intros fileData].
    apply keeps_bind; [apply _ | apply Hfetch; by left | intros response].
    solve_keeps. }
  assert (∀ transcriptId, keeps I (waitForTranscription E transcriptId)) as Hwait.
  { intros transcriptId. unfold waitForTranscription. solve_keeps. }
  assert (∀ audioUrl, keeps I (startTranscription E audioUrl options)) as Hstart.
  { intros audioUrl. unfold startTranscription. solve_keeps. }
  unfold transcribeAudio. solve_keeps.
Qed.

(** X6: whatever the vendor answers, [transcribeAudio] leaves local storage
    as it is; its only external actions are reading the audio file,
    requests that carry the configured credential, and waits of 3000 ms. *)
Theorem transcribe_only_talks_to_vendor filePath options w :
  let w' := (transcribeAudio E filePath options w).2 in
  fs w' = fs w ∧
  ∃ actions,
    trace w' = trace w ++ actions ∧
    Forall (vendor_action filePath (ASSEMBLYAI_API_KEY E)) actions.
Proof.
  cbv zeta. split.
  - apply (transcribeAudio_keeps same_storage); auto with keeps.
  - apply (transcribeAudio_keeps
             (emits (vendor_action filePath (ASSEMBLYAI_API_KEY E))));
      auto with keeps.
    + by apply emits_readFileSync.
    + intros rq Hrq. by apply emits_fetch.
    + by apply emits_sleep.
Qed.

End KeptByHelpers.

(** ** The vendor client *)

Section VendorClient.

Context (E : env).

(** X7: there is no cap on the number of polls: as long as every answer
    reports the job under way, [waitForTranscription] keeps asking; after
    [n] such answers it has made [n + 1] requests and has not settled. *)
Theorem wait_never_gives_up transcriptId w :
  Forall pending (net w) →
  ∃ w',
    waitForTranscription E transcriptId w = (Hang, w') ∧
    trace w' = trace w ++
      pending_polls (status_request E transcriptId) (length (net w)) ++
      [Fetch (status_request E transcriptId)] ∧
    net w' = [].
Proof.
  intros Hall.
  set (w0 := print "log" "Aguardando conclusão da transcrição..." w).
  destruct (poll_pending_prefix E (net w) 1 transcriptId w0 [])
    as (w1 & Hrun & Hnet1 & _ & Htr1); [by rewrite app_nil_r | done |].
  rewrite waitForTranscription_unfold. fold w0. unfold try_catch.
  replace (S (length (net w))) with (length (net w) + 1) by lia.
  rewrite Hrun. cbn [poll]. unfold_monad. unfold fetch. rewrite Hnet1.
  eexists; split; [reflexivity|]. cbn. by rewrite Htr1, <- app_assoc.
Qed.

(** X8: polling stops at the first answer that is not a success: a response
    with a non-success status rejects with a message that carries the
    status code and the body, a failed request rejects with its own error;
    no further request is made. *)
Theorem wait_stops_at_transport_failure transcriptId w before o rest :
  net w = before ++ o :: rest →
  Forall pending before →
  match o with
  | NetFail _ => True
  | NetReply r => resp_ok r = false
  end →
  ∃ w',
    waitForTranscription E transcriptId w =
      (Throw match o with
             | NetFail e => e
             | NetReply r => Error (http_failure "Erro ao verificar status: " r)
             end, w') ∧
    trace w' = trace w ++
      pending_polls (status_request E transcriptId) (length before) ++
      [Fetch (status_request E transcriptId)] ∧
    net w' = rest.
Proof.
  intros Hnet Hall Ho.
  destruct (wait_enters_loop E transcriptId w before _ rest Hnet Hall)
    as (w1 & -> & Hnet1 & _ & Htr1).
  unfold try_catch. cbn [poll]. unfold_monad. unfold fetch. rewrite Hnet1.
  destruct o as [e|r]; cbn; [|rewrite Ho; cbn];
    (eexists; split; [reflexivity|]); cbn; by rewrite Htr1, <- app_assoc.
Qed.

Lemma member_world v key w (r : outcome jsval) w1 :
  member E v key w = (r, w1) → w1 = w.
Proof.
  destruct v; cbn; unfold mret, M_ret, throw; by intros [= _ <-].
Qed.

Ltac poll_stops :=
  exists 0; cbn; split; [lia|]; rewrite ?drop_0; done.

Lemma poll_cadence fuel transcriptId w :
  length (net w) < fuel →
  let w' := (poll E fuel transcriptId w).2 in
  ∃ n, n ≤ length (net w) ∧
       trace w' = trace w ++
         pending_polls (status_request E transcriptId) n ++
         [Fetch (status_request E transcriptId)] ∧
       net w' = drop (S n) (net w).
Proof.
  revert w. induction fuel as [|fuel IH]; intros w Hfuel; [lia|]. cbv zeta.
  cbn [poll]. unfold_monad. unfold fetch.
  destruct (net w) as [|o rest] eqn:Hnet; [by exists 0|].
  destruct o as [e|r]; [poll_stops|].
  destruct (resp_ok r); cbn [negb]; [|poll_stops].
  destruct (resp_json r) as [data|e]; [|poll_stops].
  unfold mret, M_ret, act; cbv beta iota.
  destruct (member E data "status" _) as [[status| |] w1] eqn:Hm;
    apply member_world in Hm as ->; [|poll_stops..].
  destruct (strict_eq_str status "completed"); [poll_stops|].
  destruct (strict_eq_str status "error"); cbv beta iota.
  { destruct (member E data "error" _) as [[error| |] w2] eqn:Hm2;
      apply member_world in Hm2 as ->; unfold template;
      try destruct (renders error); poll_stops. }
  match goal with
  | |- context [poll E fuel transcriptId ?w2] =>
      destruct (IH w2) as (n & Hle & Htrace & Hdrop); [cbn in *; lia|]
  end.
  exists (S n). cbn in Hle, Htrace, Hdrop. split; [cbn; lia|].
  rewrite Htrace, Hdrop, <- !app_assoc. done.
Qed.

(** X9: whatever the vendor answers, the external actions of
    [waitForTranscription] are requests for the status of the same job,
    consecutive requests being separated by exactly one wait of 3000 ms;
    the last action is a request, and one answer is consumed per request. *)
Theorem wait_polls_at_fixed_interval transcriptId w :
  let w' := (waitForTranscription E transcriptId w).2 in
  ∃ n, n ≤ length (net w) ∧
       trace w' = trace w ++
         pending_polls (status_request E transcriptId) n ++
         [Fetch (status_request E transcriptId)] ∧
       net w' = drop (S n) (net w).
Proof.
  cbv zeta. rewrite waitForTranscription_unfold. unfold try_catch.
  set (w0 := print "log" "Aguardando conclusão da transcrição..." w).
  destruct (poll_cadence (S (length (net w))) transcriptId w0)
    as (n & Hle & Htrace & Hdrop); [cbn; lia|].
  exists n. split; [done|].
  by destruct (poll E _ transcriptId w0) as [[data|e|] w1].
Qed.

End VendorClient.

Lemma wait_never_gives_up_witness :
  let answers := [vendor_reply "queued" ∅; vendor_reply "processing" ∅] in
  let E := Sample.environment (Some "key") Sample.failing_encoder in
  ∃ w',
    waitForTranscription E (JStr "job-1") (Sample.vendor_world answers) =
      (Hang, w') ∧
    trace w' = [Fetch (status_request E (JStr "job-1")); Sleep 3000;
                Fetch (status_request E (JStr "job-1")); Sleep 3000;
                Fetch (status_request E (JStr "job-1"))] ∧
    net w' = [].
Proof.
  cbv zeta.
  refine (wait_never_gives_up
            (Sample.environment (Some "key") Sample.failing_encoder)
            (JStr "job-1")
            (Sample.vendor_world
               [vendor_reply "queued" ∅; vendor_reply "processing" ∅]) _).
  repeat constructor; eexists _, _; (split; [reflexivity|]);
    (split; [split; reflexivity|]); split; reflexivity.
Defined.

Lemma wait_stops_at_transport_failure_witness :
  let busy := {| resp_ok := false; resp_status := 503; resp_text := "busy";
                 resp_json := inr (Error "Unexpected token b") |} in
  let answers := [vendor_reply "queued" ∅; NetReply busy;
                  vendor_reply "completed" ∅] in
  let E := Sample.environment (Some "key") Sample.failing_encoder in
  ∃ w',
    waitForTranscription E (JStr "job-1") (Sample.vendor_world answers) =
      (Throw (Error "Erro ao verificar status: 503 - busy"), w') ∧
    trace w' = [Fetch (status_request E (JStr "job-1")); Sleep 3000;
                Fetch (status_request E (JStr "job-1"))] ∧
    net w' = [vendor_reply "completed" ∅].
Proof.
  cbv zeta.
  refine (wait_stops_at_transport_failure
            (Sample.environment (Some "key") Sample.failing_encoder)
            (JStr "job-1")
            (Sample.vendor_world
               [vendor_reply "queued" ∅;
                NetReply {| resp_ok := false; resp_status := 503;
                            resp_text := "busy";
                            resp_json := inr (Error "Unexpected token b") |};
                vendor_reply "completed" ∅])
            [vendor_reply "queued" ∅]
            (NetReply {| resp_ok := false; resp_status := 503;
                         resp_text := "busy";
                         resp_json := inr (Error "Unexpected token b") |})
            [vendor_reply "completed" ∅] eq_refl _ eq_refl).
  repeat constructor; eexists _, _; (split; [reflexivity|]);
    (split; [split; reflexivity|]); split; reflexivity.
Defined.

(** ** Requests to the vendor *)

Section VendorRequests.

Context (E : env).

(** X10: a file that is not there is never uploaded: [uploadToAssemblyAI]
    rejects with the error of [readFileSync], whose message names the
    system call and the path, after trying to read the file, and sends no
    request. *)
Theorem upload_missing_file_sends_nothing filePath w :
  fs w !! filePath = None →
  ∃ w',
    uploadToAssemblyAI E filePath w =
      (Throw (Error ("ENOENT: no such file or directory, open '"
                     +:+ filePath +:+ "'")), w') ∧
    trace w' = trace w ++ [ReadFileSync filePath] ∧
    net w' = net w ∧ fs w' = fs w.
Proof.
  intros Hf. unfold uploadToAssemblyAI, try_catch. unfold_monad.
  unfold readFileSync. cbn. rewrite Hf. cbn.
  eexists; split; [reflexivity|]. done.
Qed.

(** X11: for a file that is there, [uploadToAssemblyAI] reads it and sends
    its content in exactly one request, whatever the answer; it consumes
    that one answer and leaves storage alone.  A failed request rejects
    with its own error, a response with a non-success status with a message
    that carries the status code and the body, a body that is not JSON with
    the parse error; otherwise the result is the [upload_url] of the
    payload. *)
Theorem upload_sends_file_once filePath w f :
  fs w !! filePath = Some f →
  let run := uploadToAssemblyAI E filePath w in
  trace run.2 = trace w ++ [ReadFileSync filePath; Fetch (upload_request E f)] ∧
  net run.2 = drop 1 (net w) ∧
  fs run.2 = fs w ∧
  run.1 = match net w with
          | [] => Hang
          | NetFail e :: _ => Throw e
          | NetReply r :: _ =>
              if resp_ok r then
                match resp_json r with
                | inl data => (member E data "upload_url" w).1
                | inr e => Throw e
                end
              else Throw (Error (http_failure "Erro no upload: " r))
          end.
Proof.
  intros Hf. cbv zeta. unfold uploadToAssemblyAI, try_catch. unfold_monad.
  unfold readFileSync, fetch. cbn. rewrite Hf. cbn.
  destruct (net w) as [|[e|r] rest] eqn:Hnet; cbn;
    rewrite ?Hnet, <- ?app_assoc, ?drop_0; [done..|].
  destruct (resp_ok r); cbn; [|by rewrite <- app_assoc].
  destruct (resp_json r) as [data|e]; cbn; [|by rewrite <- app_assoc].
  destruct data; cbn; by rewrite <- app_assoc.
Qed.

(** X12: [startTranscription] consumes exactly one answer and leaves
    storage alone.  A failed request rejects with its own error, a response
    with a non-success status with a message that carries the status code
    and the body, a body that is not JSON with the parse error; otherwise
    the result is the [id] of the payload. *)
Theorem submission_outcomes audioUrl options w :
  let run := startTranscription E audioUrl options w in
  net run.2 = drop 1 (net w) ∧
  fs run.2 = fs w ∧
  run.1 = match net w with
          | [] => Hang
          | NetFail e :: _ => Throw e
          | NetReply r :: _ =>
              if resp_ok r then
                match resp_json r with
                | inl data => (member E data "id" w).1
                | inr e => Throw e
                end
              else Throw (Error (http_failure "Erro ao iniciar transcrição: " r))
          end.
Proof.
  cbv zeta. unfold startTranscription, try_catch. unfold_monad.
  unfold fetch. cbn.
  destruct (net w) as [|[e|r] rest] eqn:Hnet; cbn;
    rewrite ?Hnet, ?drop_0; [done..|].
  destruct (resp_ok r); cbn; [|done].
  destruct (resp_json r) as [data|e]; cbn; [|done].
  by destruct data.
Qed.

End VendorRequests.

Lemma upload_missing_file_sends_nothing_witness :
  let E := Sample.environment (Some "key") Sample.failing_encoder in
  ∃ w',
    uploadToAssemblyAI E "a.wav"
      (Sample.vendor_world [Scenario.reply {[ "upload_url" := JStr "u" ]}])
      = (Throw (Error "ENOENT: no such file or directory, open 'a.wav'"), w') ∧
    trace w' = [ReadFileSync "a.wav"] ∧
    net w' = [Scenario.reply {[ "upload_url" := JStr "u" ]}] ∧
    fs w' = ∅.
Proof.
  cbv zeta.
  exact (upload_missing_file_sends_nothing
           (Sample.environment (Some "key") Sample.failing_encoder) "a.wav"
           (Sample.vendor_world [Scenario.reply {[ "upload_url" := JStr "u" ]}])
           eq_refl).
Defined.

Lemma upload_sends_file_once_witness :
  let E := Sample.environment (Some "key") Sample.failing_encoder in
  let w := Scenario.world_with "a.wav" Scenario.audio
             [Scenario.refusal 401 "bad key";
              Scenario.reply {[ "upload_url" := JStr "u" ]}] in
  let run := uploadToAssemblyAI E "a.wav" w in
  trace run.2 = [ReadFileSync "a.wav"; Fetch (upload_request E Scenario.audio)] ∧
  net run.2 = [Scenario.reply {[ "upload_url" := JStr "u" ]}] ∧
  fs run.2 = {[ "a.wav" := Scenario.audio ]} ∧
  run.1 = Throw (Error "Erro no upload: 401 - bad key").
Proof.
  cbv zeta.
  exact (upload_sends_file_once
           (Sample.environment (Some "key") Sample.failing_encoder) "a.wav"
           (Scenario.world_with "a.wav" Scenario.audio
              [Scenario.refusal 401 "bad key";
               Scenario.reply {[ "upload_url" := JStr "u" ]}])
           Scenario.audio eq_refl).
Defined.

(** ** transcribeAudio with a credential *)

Section Pipeline.

Context (E : env).

Lemma upload_returns_url filePath w f r rest payload :
  fs w !! filePath = Some f →
  net w = NetReply r :: rest →
  carries r payload →
  ∃ w1,
    uploadToAssemblyAI E filePath w = (Return (prop payload "upload_url"), w1) ∧
    net w1 = rest ∧ fs w1 = fs w ∧
    trace w1 = trace w ++ [ReadFileSync filePath; Fetch (upload_request E f)].
Proof.
  intros Hf Hnet [Hok Hjson].
  unfold uploadToAssemblyAI, try_catch. unfold_monad.
  unfold readFileSync, fetch. cbn. rewrite Hf. cbn. rewrite Hnet. cbn.
  rewrite Hok. cbn. rewrite Hjson. cbn.
  eexists; split; [reflexivity|]. cbn. by rewrite <- app_assoc.
Qed.

Lemma start_returns_id audioUrl options w r rest payload :
  net w = NetReply r :: rest →
  carries r payload →
  ∃ w1,
    startTranscription E audioUrl options w = (Return (prop payload "id"), w1) ∧
    net w1 = rest ∧ fs w1 = fs w ∧
    trace w1 = trace w ++
      [Fetch (submission E (transcriptRequest audioUrl options))].
Proof.
  intros Hnet [Hok Hjson].
  unfold startTranscription, try_catch. unfold_monad.
  unfold fetch. cbn. rewrite Hnet. cbn. rewrite Hok. cbn. rewrite Hjson. cbn.
  eexists; split; [reflexivity|]. done.
Qed.

Lemma start_rejected audioUrl options w r rest :
  net w = NetReply r :: rest →
  resp_ok r = false →
  ∃ w1,
    startTranscription E audioUrl options w =
      (Throw (Error (http_failure "Erro ao iniciar transcrição: " r)), w1) ∧
    net w1 = rest ∧ fs w1 = fs w ∧
    trace w1 = trace w ++
      [Fetch (submission E (transcriptRequest audioUrl options))].
Proof.
  intros Hnet Hok.
  unfold startTranscription, try_catch. unfold_monad.
  unfold fetch. cbn. rewrite Hnet. cbn. rewrite Hok. cbn.
  eexists; split; [reflexivity|]. done.
Qed.

Lemma wait_returns_payload transcriptId w before r payload rest :
  net w = before ++ NetReply r :: rest →
  Forall pending before →
  carries r payload →
  prop payload "status" = JStr "completed" →
  ∃ w',
    waitForTranscription E transcriptId w = (Return (JObj payload), w') ∧
    net w' = rest ∧ fs w' = fs w ∧
    trace w' = trace w ++
      pending_polls (status_request E transcriptId) (length before) ++
      [Fetch (status_request E transcriptId)].
Proof.
  intros Hnet Hall [Hok Hjson] Hstatus.
  destruct (wait_enters_loop E transcriptId w before _ rest Hnet Hall)
    as (w1 & -> & Hnet1 & Hfs1 & Htr1).
  unfold try_catch. cbn [poll]. unfold_monad. unfold fetch.
  rewrite Hnet1, Hok. cbn. rewrite Hjson. cbn. rewrite Hstatus. cbn.
  eexists; split; [reflexivity|]. cbn. by rewrite Htr1, <- app_assoc.
Qed.

(** X13: with a credential, [transcribeAudio] chains the three vendor
    calls: the file is read and uploaded; for options without an
    [audio_url] key of their own, the URL that the upload returns is the
    [audio_url] of the submitted job; the id that the submission returns,
    a string, is the job that is polled, at [<base>/transcript/<id>]; and
    the result is made of the five fields of the completed answer.  There
    is one request per answer and later answers are not consumed. *)
Theorem transcribe_chains_vendor_calls filePath options w f
    r1 uploaded r2 submitted id before r3 final rest :
  ASSEMBLYAI_API_KEY E ≠ "sua-chave-aqui" →
  fs w !! filePath = Some f →
  net w = NetReply r1 :: NetReply r2 :: before ++ NetReply r3 :: rest →
  carries r1 uploaded →
  options !! "audio_url" = None →
  carries r2 submitted →
  prop submitted "id" = JStr id →
  Forall pending before →
  carries r3 final →
  prop final "status" = JStr "completed" →
  let job := transcriptRequest (prop uploaded "upload_url") options in
  let status := status_request E (JStr id) in
  ∃ w',
    transcribeAudio E filePath options w =
      (Return {| text := prop final "text";
                 confidence := prop final "confidence";
                 language_code := prop final "language_code";
                 words := prop final "words";
                 utterances := prop final "utterances" |}, w') ∧
    job !! "audio_url" = Some (prop uploaded "upload_url") ∧
    req_url status = ASSEMBLYAI_BASE_URL +:+ "/transcript/" +:+ id ∧
    trace w' = trace w ++
      [ReadFileSync filePath;
       Fetch (upload_request E f);
       Fetch (submission E job)] ++
      pending_polls status (length before) ++ [Fetch status] ∧
    net w' = rest ∧ fs w' = fs w.
Proof.
  intros Hkey%String.eqb_neq Hf Hnet Hup Haudio Hsub Hid Hall Hfinal Hstatus.
  cbv zeta.
  destruct (upload_returns_url filePath w f r1 _ uploaded Hf Hnet Hup)
    as (w1 & Hrun1 & Hnet1 & Hfs1 & Htr1).
  destruct (start_returns_id (prop uploaded "upload_url") options w1 r2 _
              submitted Hnet1 Hsub) as (w2 & Hrun2 & Hnet2 & Hfs2 & Htr2).
  rewrite Hid in Hrun2.
  destruct (wait_returns_payload (JStr id) w2 before r3 final rest
              Hnet2 Hall Hfinal Hstatus) as (w3 & Hrun3 & Hnet3 & Hfs3 & Htr3).
  unfold transcribeAudio, try_catch. rewrite Hkey.
  unfold mbind, M_bind. rewrite Hrun1, Hrun2, Hrun3. cbn.
  eexists; split; [reflexivity|].
  split; [by rewrite transcriptRequest_lookup, Haudio by done|].
  split; [done|].
  rewrite Htr3, Htr2, Htr1, <- !app_assoc. cbn.
  repeat split; congruence.
Qed.

(** X14: when the vendor refuses the submission, [transcribeAudio] rejects
    with the error of [startTranscription] as it is; the upload and the
    submission are its only requests: no status is asked for and later
    answers are not consumed. *)
Theorem transcribe_stops_at_refused_submission filePath options w f
    r1 uploaded r2 rest :
  ASSEMBLYAI_API_KEY E ≠ "sua-chave-aqui" →
  fs w !! filePath = Some f →
  net w = NetReply r1 :: NetReply r2 :: rest →
  carries r1 uploaded →
  resp_ok r2 = false →
  ∃ w',
    transcribeAudio E filePath options w =
      (Throw (Error (http_failure "Erro ao iniciar transcrição: " r2)), w') ∧
    trace w' = trace w ++
      [ReadFileSync filePath;
       Fetch (upload_request E f);
       Fetch (submission E
                (transcriptRequest (prop uploaded "upload_url") options))] ∧
    net w' = rest ∧ fs w' = fs w.
Proof.
  intros Hkey%String.eqb_neq Hf Hnet Hup Hok.
  destruct (upload_returns_url filePath w f r1 _ uploaded Hf Hnet Hup)
    as (w1 & Hrun1 & Hnet1 & Hfs1 & Htr1).
  destruct (start_rejected (prop uploaded "upload_url") options w1 r2 rest
              Hnet1 Hok) as (w2 & Hrun2 & Hnet2 & Hfs2 & Htr2).
  unfold transcribeAudio, try_catch. rewrite Hkey.
  unfold mbind, M_bind. rewrite Hrun1, Hrun2. cbn.
  eexists; split; [reflexivity|]. cbn.
  rewrite Htr2, Htr1, <- !app_assoc. cbn.
  repeat split; congruence.
Qed.

End Pipeline.

Lemma transcribe_chains_vendor_calls_witness :
  let E := Sample.environment (Some "key") Sample.failing_encoder in
  let w := Scenario.world_with "a.wav" Scenario.audio
             [Scenario.reply {[ "upload_url" := JStr "u" ]};
              Scenario.reply {[ "id" := JStr "job-1" ]};
              vendor_reply "processing" ∅;
              vendor_reply "completed" {[ "text" := JStr "bom dia";
                                          "language_code" := JStr "pt" ]};
              vendor_reply "completed" ∅] in
  let job := transcriptRequest (JStr "u") {[ "language" := JStr "pt" ]} in
  let status := status_request E (JStr "job-1") in
  ∃ w',
    transcribeAudio E "a.wav" {[ "language" := JStr "pt" ]} w =
      (Return {| text := JStr "bom dia"; confidence := JUndefined;
                 language_code := JStr "pt"; words := JUndefined;
                 utterances := JUndefined |}, w') ∧
    job !! "audio_url" = Some (JStr "u") ∧
    req_url status = "https://api.assemblyai.com/v2/transcript/job-1" ∧
    trace w' =
      [ReadFileSync "a.wav";
       Fetch (upload_request E Scenario.audio);
       Fetch (submission E job);
       Fetch status; Sleep 3000; Fetch status] ∧
    net w' = [vendor_reply "completed" ∅] ∧
    fs w' = {[ "a.wav" := Scenario.audio ]}.
Proof.
  cbv zeta.
  refine (transcribe_chains_vendor_calls
            (Sample.environment (Some "key") Sample.failing_encoder)
            "a.wav" {[ "language" := JStr "pt" ]}
            (Scenario.world_with "a.wav" Scenario.audio
               [Scenario.reply {[ "upload_url" := JStr "u" ]};
                Scenario.reply {[ "id" := JStr "job-1" ]};
                vendor_reply "processing" ∅;
                vendor_reply "completed" {[ "text" := JStr "bom dia";
                                            "language_code" := JStr "pt" ]};
                vendor_reply "completed" ∅])
            Scenario.audio
            _ {[ "upload_url" := JStr "u" ]}
            _ {[ "id" := JStr "job-1" ]} "job-1"
            [vendor_reply "processing" ∅]
            _ (<["status" := JStr "completed"]>
                 {[ "text" := JStr "bom dia"; "language_code" := JStr "pt" ]})
            [vendor_reply "completed" ∅]
            _ eq_refl eq_refl _ eq_refl _ eq_refl _ _ eq_refl).
  - discriminate.
  - split; reflexivity.
  - split; reflexivity.
  - repeat constructor; eexists _, _; (split; [reflexivity|]);
      (split; [split; reflexivity|]); split; reflexivity.
  - split; reflexivity.
Defined.

Lemma transcribe_stops_at_refused_submission_witness :
  let E := Sample.environment (Some "key") Sample.failing_encoder in
  let w := Scenario.world_with "a.wav" Scenario.audio
             [Scenario.reply {[ "upload_url" := JStr "u" ]};
              Scenario.refusal 402 "no credit";
              vendor_reply "completed" ∅] in
  ∃ w',
    transcribeAudio E "a.wav" ∅ w =
      (Throw (Error "Erro ao iniciar transcrição: 402 - no credit"), w') ∧
    trace w' =
      [ReadFileSync "a.wav";
       Fetch (upload_request E Scenario.audio);
       Fetch (submission E (transcriptRequest (JStr "u") ∅))] ∧
    net w' = [vendor_reply "completed" ∅] ∧
    fs w' = {[ "a.wav" := Scenario.audio ]}.
Proof.
  cbv zeta.
  refine (transcribe_stops_at_refused_submission
            (Sample.environment (Some "key") Sample.failing_encoder)
            "a.wav" ∅
            (Scenario.world_with "a.wav" Scenario.audio
               [Scenario.reply {[ "upload_url" := JStr "u" ]};
                Scenario.refusal 402 "no credit";
                vendor_reply "completed" ∅])
            Scenario.audio
            _ {[ "upload_url" := JStr "u" ]}
            _ [vendor_reply "completed" ∅]
            _ eq_refl eq_refl _ eq_refl).
  - discriminate.
  - split; reflexivity.
Defined.

(** ** The credential *)

Section Credential.

Context (E : env).

Lemma api_key_nonempty : ASSEMBLYAI_API_KEY E ≠ "".
Proof.
  unfold ASSEMBLYAI_API_KEY.
  destruct (env_api_key E) as [key|]; [|done].
  destruct (String.eqb key "") eqn:Hkey; [done|].
  by apply String.eqb_neq.
Qed.

Lemma api_key_configured :
  ASSEMBLYAI_API_KEY E ≠ "sua-chave-aqui" ↔
  ∃ key, env_api_key E = Some key ∧ key ≠ "" ∧ key ≠ "sua-chave-aqui".
Proof.
  unfold ASSEMBLYAI_API_KEY. split.
  - destruct (env_api_key E) as [key|]; [|done].
    destruct (String.eqb key "") eqn:Hkey; [done|].
    apply String.eqb_neq in Hkey. intros Hne. by exists key.
  - intros (key & -> & Hne%String.eqb_neq & Hkey). by rewrite Hne.
Qed.

Lemma upload_reads_first filePath w :
  ∃ more,
    trace (uploadToAssemblyAI E filePath w).2 =
    trace w ++ ReadFileSync filePath :: more.
Proof.
  unfold uploadToAssemblyAI, try_catch. unfold_monad.
  unfold readFileSync, fetch. cbn.
  destruct (fs w !! filePath) as [f|]; cbn; [|by exists []].
  destruct (net w) as [|[e|r] rest]; cbn;
    try (eexists; by rewrite <- app_assoc).
  destruct (resp_ok r); cbn; [|eexists; by rewrite <- app_assoc].
  destruct (resp_json r) as [data|e]; cbn; [|eexists; by rewrite <- app_assoc].
  destruct data; cbn; eexists; by rewrite <- app_assoc.
Qed.

Lemma startTranscription_grows audioUrl options :
  keeps (emits (λ _, True)) (startTranscription E audioUrl options).
Proof.
  unfold startTranscription.
  pose proof (emits_fetch (λ _, True)). solve_keeps.
Qed.

Lemma waitForTranscription_grows transcriptId :
  keeps (emits (λ _, True)) (waitForTranscription E transcriptId).
Proof.
  pose proof (emits_fetch (λ _, True)) as Hfetch.
  pose proof (emits_sleep (λ _, True)) as Hsleep.
  assert (∀ fuel, keeps (emits (λ _, True)) (poll E fuel transcriptId)) as Hpoll.
  { induction fuel as [|fuel IH]; cbn [poll]; solve_keeps. }
  unfold waitForTranscription. solve_keeps.
Qed.

(** X15: the [hasAssemblyAI] flag that the health route answers is true
    exactly when the environment gives a credential that is neither empty
    nor the placeholder, and it tells what [transcribeAudio] does: with the
    flag set, the first external action of a transcription is reading the
    audio file for the upload; without it, a transcription changes
    nothing. *)
Theorem health_flag_tells_vendor_mode timestamp ffmpegStatic filePath options w :
  let w' := (transcribeAudio E filePath options w).2 in
  (∃ reply,
     health E timestamp ffmpegStatic w = (Return (), emit (Respond 200 reply) w) ∧
     reply !! "hasAssemblyAI" = Some (JBool (hasAssemblyAI E))) ∧
  (hasAssemblyAI E = true ↔
   ∃ key, env_api_key E = Some key ∧ key ≠ "" ∧ key ≠ "sua-chave-aqui") ∧
  if hasAssemblyAI E
  then ∃ more, trace w' = trace w ++ ReadFileSync filePath :: more
  else w' = w.
Proof.
  cbv zeta. split; [by eexists|].
  assert (hasAssemblyAI E =
          negb (String.eqb (ASSEMBLYAI_API_KEY E) "sua-chave-aqui")) as ->.
  { unfold hasAssemblyAI. cbn [truthy].
    pose proof api_key_nonempty as Hne%String.eqb_neq. by rewrite Hne. }
  split.
  - rewrite <- api_key_configured, negb_true_iff. apply String.eqb_neq.
  - unfold transcribeAudio, try_catch.
    destruct (String.eqb _ _); cbn [negb]; [done|].
    unfold mbind at 1, M_bind at 1.
    destruct (upload_reads_first filePath w) as (more & Hup).
    destruct (uploadToAssemblyAI E filePath w) as [[audioUrl|e|] w1];
      cbn in Hup |- *; [|by exists more..].
    match goal with
    | |- context [mbind ?k ?m w1] =>
        assert (emits (λ _, True) w1 (mbind k m w1).2)
          as (actions & Hrest & _);
          [|destruct (mbind k m w1) as [[result|e|] w2]; unfold_monad;
            cbn in Hrest |- *; exists (more ++ actions);
            by rewrite Hrest, Hup, <- app_assoc]
    end.
    apply (λ H : keeps (emits (λ _, True)) _, H w1).
    pose proof startTranscription_grows. pose proof waitForTranscription_grows.
    solve_keeps.
Qed.

End Credential.

(** ** Requests that the routes turn down *)

Section Refusals.

Context (E : env).

(** X16: the YouTube route starts nothing for a URL that [play.validate]
    does not classify as a video: it answers 400 (500 with the error's
    message when the validation itself throws), computes no temporary path,
    downloads, encodes and requests nothing, and its two clean-ups find
    their paths unset. *)
Theorem youtube_refuses_other_urls body w :
  play_validate E (prop body "url") ≠ inl (JStr "yt_video") →
  let reply := youtube_refusal (play_validate E (prop body "url")) in
  ∃ w',
    transcribe_youtube E body w = (Return (), w') ∧
    trace w' = trace w ++
      [Respond reply.1 reply.2; ExistsSync None; ExistsSync None] ∧
    fs w' = fs w ∧ net w' = net w ∧ ticks w' = ticks w.
Proof.
  intros Hvalidation. cbv zeta.
  unfold transcribe_youtube, scope, try_finally, try_catch, youtube_try,
    youtube_catch, youtube_finally, validate, call, assign, cleanupFile,
    try_catch, respond, existsSync.
  unfold_monad.
  destruct (play_validate E (prop body "url")) as [validation|e]; cbn.
  - rewrite strict_eq_str_false by congruence. cbn.
    eexists; split; [reflexivity|]. cbn. by rewrite <- !app_assoc.
  - eexists; split; [reflexivity|]. cbn. by rewrite <- !app_assoc.
Qed.

(** X17: without an upload the file route answers 400 and does nothing
    else; its two clean-ups find their paths unset. *)
Theorem file_route_without_upload body w :
  ∃ w',
    transcribe_file E None body w = (Return (), w') ∧
    trace w' = trace w ++
      [Respond 400 {[ "error" := JStr "Nenhum arquivo enviado" ]};
       ExistsSync None; ExistsSync None] ∧
    fs w' = fs w ∧ net w' = net w ∧ console w' = console w.
Proof.
  unfold transcribe_file, scope, try_finally, try_catch, file_try,
    file_finally, call, cleanupFile, try_catch, respond, existsSync.
  unfold_monad. cbn.
  eexists; split; [reflexivity|]. cbn. by rewrite <- !app_assoc.
Qed.

Lemma validateMediaFile_result filePath originalName w1 w2 :
  fs w1 = fs w2 →
  (validateMediaFile E filePath originalName w1).1 =
  (validateMediaFile E filePath originalName w2).1.
Proof.
  intros Hfs. unfold validateMediaFile. unfold_monad.
  unfold existsSync, statSync. cbn -[includes]. rewrite Hfs.
  destruct (fs w2 !! filePath) as [f|]; cbn -[includes]; [|done].
  rewrite Hfs. destruct (fs w2 !! filePath) as [g|]; cbn -[includes]; [|done].
  destruct (N.eqb (size g) 0); [done|].
  by destruct (includes _ _).
Qed.

Lemma validateMediaFile_inspects filePath originalName w :
  let w' := (validateMediaFile E filePath originalName w).2 in
  fs w' = fs w ∧ net w' = net w ∧
  ∃ actions, trace w' = trace w ++ actions ∧
             Forall (inspection filePath) actions.
Proof.
  cbv zeta. split; [|split].
  - apply (λ H : keeps same_storage (validateMediaFile E filePath originalName),
             H w).
    unfold validateMediaFile. solve_keeps.
  - apply (λ H : keeps same_network (validateMediaFile E filePath originalName),
             H w).
    unfold validateMediaFile. solve_keeps.
  - apply (λ H : keeps (emits (inspection filePath))
                   (validateMediaFile E filePath originalName), H w).
    unfold validateMediaFile.
    apply keeps_bind; [apply _ | apply emits_existsSync; by left |].
    intros found. destruct (negb found); [solve_keeps|].
    apply keeps_bind; [apply _ | apply emits_statSync; by right |].
    intros stats. solve_keeps.
Qed.

Lemma file_try_invalid file body w e w1 :
  validateMediaFile E (file_path file) (originalname file)
    (print "log" "Processando arquivo:" w) = (Throw e, w1) →
  try_catch (file_try E (Some file) body) (λ error, call (file_catch error))
    (None, w) =
  (Return (),
   (None, emit (Respond 400 {[ "error" := JStr ("Arquivo inválido: "
                                                +:+ message e) ]}) w1)).
Proof.
  intros Hrun.
  unfold try_catch at 1, file_try, call, try_catch, respond. unfold_monad.
  unfold act. cbn [fst snd]. rewrite Hrun. done.
Qed.

(** X18: an upload that [validateMediaFile] rejects (missing, empty, or of
    an extension that is not allowed) is answered with 400 and the
    validation's message; nothing is encoded, read or requested; the
    uploaded file is removed, or the failure to remove it is printed; no
    other file is touched. *)
Theorem file_route_rejects_invalid_upload file body w e :
  (validateMediaFile E (file_path file) (originalname file) w).1 = Throw e →
  ∃ w' actions,
    transcribe_file E (Some file) body w = (Return (), w') ∧
    trace w' = trace w ++ actions ∧
    Forall (λ a, pipeline_action a = false) actions ∧
    responses actions =
      [(400%N, {[ "error" := JStr ("Arquivo inválido: " +:+ message e) ]})] ∧
    net w' = net w ∧
    (∀ path, path ≠ file_path file → fs w' !! path = fs w !! path) ∧
    (fs w' !! file_path file = None ∨
     ("error", "Erro ao remover arquivo:") ∈ console w').
Proof.
  intros Hthrows.
  set (w0 := print "log" "Processando arquivo:" w).
  rewrite (validateMediaFile_result _ _ w w0) in Hthrows by done.
  destruct (validateMediaFile_inspects (file_path file) (originalname file) w0)
    as (Hfs1 & Hnet1 & checks & Htr1 & Hchecks).
  destruct (validateMediaFile E (file_path file) (originalname file) w0)
    as [o w1] eqn:Hrun.
  cbn in Hthrows, Hfs1, Hnet1, Htr1. subst o.
  pose proof (file_try_invalid file body w e w1 Hrun) as Htry.
  destruct (finally_runs _ (file_finally (Some file))
              (Some (file_path file)) None None w _ None _ Htry)
    as (w3 & w4 & Heff1 & Heff2 & Hroute); [done | done |].
  pose proof (cleanup_effect_file _ _ _ Heff1) as Hgone.
  destruct Heff1 as (Hnet3 & _ & Heff1). destruct Heff2 as (Hnet4 & _ & Heff2).
  cbn [mbind option_bind] in Heff1, Heff2.
  destruct Heff2 as (Htr4 & Hfs4 & Hconsole4).
  set (reply := Respond 400 {[ "error" := JStr ("Arquivo inválido: "
                                                +:+ message e) ]}) in *.
  assert (∃ cleanup,
            trace w3 = trace (emit reply w1) ++ cleanup ∧
            Forall (λ a, pipeline_action a = false) cleanup ∧
            responses cleanup = [] ∧
            ∀ path, path ≠ file_path file →
                    fs w3 !! path = fs (emit reply w1) !! path)
    as (cleanup & Htr3 & Hcleanup & Hquiet & Hframe).
  { destruct (fs (emit reply w1) !! file_path file) as [f|].
    - destruct Heff1 as [Htr3 Heff1]. eexists; split; [exact Htr3|].
      split; [by repeat constructor|]. split; [done|].
      intros path Hpath.
      destruct (unlink_error f); destruct Heff1 as [-> _]; [done|].
      cbn. by rewrite lookup_delete_ne.
    - destruct Heff1 as (Htr3 & -> & _). eexists; split; [exact Htr3|].
      split; [by repeat constructor|]. done. }
  exists w4, (checks ++ [reply] ++ cleanup ++ [ExistsSync None]).
  split; [exact Hroute|].
  split; [rewrite Htr4, Htr3; cbn; rewrite Htr1; by rewrite <- !app_assoc|].
  split.
  { rewrite !Forall_app. repeat split; try done; [|by repeat constructor..].
    eapply Forall_impl; [exact Hchecks|]. by intros a [-> | ->]. }
  split.
  { rewrite !responses_app, Hquiet.
    assert (responses checks = []) as ->; [|done].
    clear -Hchecks. induction Hchecks as [|a checks [-> | ->] _ IH]; done. }
  split; [cbn in *; congruence|].
  split.
  - intros path Hpath. rewrite Hfs4, Hframe by done. cbn. by rewrite Hfs1.
  - destruct Hgone as [Hgone | Hgone]; [left; by rewrite Hfs4|].
    right. rewrite Hconsole4. done.
Qed.

End Refusals.

(** ** Failures inside the pipeline *)

Section StageFailures.

Context (E : env).

(** What a clean-up adds to the trace and leaves alone. *)
Lemma cleanup_effect_frame p w w' :
  cleanup_effect p w w' →
  ∃ cleanup,
    trace w' = trace w ++ cleanup ∧
    Forall (λ a, pipeline_action a = false ∧ transcription_action a = false)
      cleanup ∧
    responses cleanup = [] ∧
    net w' = net w ∧
    (∃ more, console w' = console w ++ more) ∧
    (∀ path, fs w !! path = None → fs w' !! path = None).
Proof.
  intros (Hnet & _ & Heff).
  destruct (p ≫= _) as [f|].
  - destruct Heff as [Htrace Heff]. eexists; split; [exact Htrace|].
    split; [by repeat constructor|]. split; [done|]. split; [done|].
    destruct (unlink_error f); destruct Heff as [Hfs ->];
      (split; [by eexists|]); intros path Hpath; rewrite Hfs; [done|].
    destruct p as [q|]; cbn; [|done].
    destruct (decide (q = path)) as [->|Hne];
      [apply lookup_delete_eq | by rewrite lookup_delete_ne].
  - destruct Heff as (Htrace & Hfs & Hconsole). eexists; split; [exact Htrace|].
    split; [by repeat constructor|]. split; [done|]. split; [done|].
    split; [exists []; by rewrite app_nil_r|]. intros path. by rewrite Hfs.
Qed.

(** A route whose try block throws: the catch block answers 500 with the
    error's message and the finally block cleans both paths. *)
Lemma route_failure {F} (try_block : M_ (F * world) ())
    (catch_block : js_error → M ()) (finally_block : M_ (F * world) ())
    (init vars : F) (w w1 : world) (label failure : string) (e : js_error)
    (p1 p2 : string) :
  try_block (init, w) = (Throw e, (vars, w1)) →
  (∀ e, catch_block e =
        (console_error label;;
         respond 500 {[ "error" := JStr (failure +:+ message e) ]})) →
  (∀ w2, finally_block (vars, w2) =
         (call (cleanupFile (Some p1));; call (cleanupFile (Some p2)))
           (vars, w2)) →
  ∃ w' cleanup,
    scope init
      (try_finally (try_catch try_block (λ error, call (catch_block error)))
         finally_block) w = (Return (), w') ∧
    trace w' = trace w1 ++
      Respond 500 {[ "error" := JStr (failure +:+ message e) ]} :: cleanup ∧
    Forall (λ a, pipeline_action a = false ∧ transcription_action a = false)
      cleanup ∧
    responses cleanup = [] ∧
    net w' = net w1 ∧
    removed_or_reported p1 w' ∧ removed_or_reported p2 w'.
Proof.
  intros Htry Hcatch Hfinally.
  set (body_caught := try_catch try_block (λ error, call (catch_block error))).
  set (reply := Respond 500 {[ "error" := JStr (failure +:+ message e) ]}).
  assert (body_caught (init, w) =
          (Return (), (vars, emit reply (print "error" label w1)))) as Hcaught.
  { unfold body_caught, try_catch. by rewrite Htry, Hcatch. }
  destruct (finally_runs body_caught finally_block (Some p1) (Some p2)
              _ w _ vars _ Hcaught) as (w3 & w4 & Heff1 & Heff2 & Hroute);
    [done | done |].
  pose proof (cleanup_effect_file _ _ _ Heff1) as Hgone1.
  pose proof (cleanup_effect_file _ _ _ Heff2) as Hgone2.
  destruct (cleanup_effect_frame _ _ _ Heff1)
    as (c1 & Htr3 & Hc1 & Hq1 & Hnet3 & _ & _).
  destruct (cleanup_effect_frame _ _ _ Heff2)
    as (c2 & Htr4 & Hc2 & Hq2 & Hnet4 & [more Hconsole4] & Hkeep4).
  exists w4, (c1 ++ c2). split; [exact Hroute|].
  split; [rewrite Htr4, Htr3; cbn; by rewrite <- !app_assoc|].
  split; [by apply Forall_app|].
  split; [by rewrite responses_app, Hq1, Hq2|].
  split; [by rewrite Hnet4, Hnet3|].
  split; [|done].
  destruct Hgone1 as [Hgone1 | Hgone1]; [left; by apply Hkeep4|].
  right. rewrite Hconsole4. apply elem_of_app. by left.
Qed.

(** X19: when the download of a YouTube video fails, the route answers 500
    with the error's message right after the download: nothing is encoded,
    read or requested; whatever the download has left at the temporary
    path is removed, or the failure to remove it is printed. *)
Theorem youtube_download_failure body w e :
  play_validate E (prop body "url") = inl (JStr "yt_video") →
  let url := prop body "url" in
  let audio := "temp_youtube_" +:+ Str.of_N (Date_now E (ticks w)) +:+ ".webm" in
  dl_error (play_download E url audio) = Some e →
  ∃ w' cleanup,
    transcribe_youtube E body w = (Return (), w') ∧
    trace w' = trace w ++
      [Download url audio;
       Respond 500 {[ "error" := JStr ("Erro ao processar vídeo do YouTube: "
                                       +:+ message e) ]}] ++ cleanup ∧
    Forall (λ a, pipeline_action a = false ∧ transcription_action a = false)
      cleanup ∧
    responses cleanup = [] ∧
    net w' = net w ∧
    removed_or_reported audio w'.
Proof.
  intros Hvalid url audio Hdownload.
  pose proof (youtube_try_valid E body w Hvalid) as Htry.
  cbv zeta in Htry. fold url audio in Htry.
  set (w0 := tick (tick (print "log" "Processando YouTube com play-dl:" w)))
    in Htry.
  assert (∀ A (k : () → M A),
            ((download E url audio;;
              console_log "Áudio baixado, convertendo...") ≫= k) w0 =
            (Throw e, (download E url audio w0).2)) as Hstops.
  { intros A k. unfold mbind, M_bind, download at 1. by rewrite Hdownload. }
  rewrite Hstops in Htry. cbn [fst snd] in Htry.
  destruct (route_failure (youtube_try E body) youtube_catch youtube_finally
              _ _ w _ "Erro YouTube:" "Erro ao processar vídeo do YouTube: "
              e audio
              ("temp_youtube_" +:+ Str.of_N (Date_now E (S (ticks w))) +:+ ".wav")
              Htry)
    as (w' & cleanup & Hroute & Htrace & Hcleanup & Hquiet & Hnet & Hgone & _);
    [done | done |].
  exists w', cleanup. split; [exact Hroute|].
  split; [|split; [done|]; split; [done|]; split; [|done]].
  - rewrite Htrace. unfold download. cbn.
    destruct (dl_file _); cbn; by rewrite <- app_assoc.
  - rewrite Hnet. unfold download. cbn. by destruct (dl_file _).
Qed.

Lemma convert_attempt_result fuel inputPath outputPath w1 w2 :
  (convert_attempt E fuel inputPath outputPath w1).1 =
  (convert_attempt E fuel inputPath outputPath w2).1.
Proof.
  revert outputPath w1 w2.
  induction fuel as [|fuel IH]; intros outputPath w1 w2; [done|].
  rewrite !convert_attempt_S. cbv zeta.
  destruct (enc_error _); [|by destruct (enc_end _)].
  destruct (negb _ && _); [apply IH | done].
Qed.

(** X20: when the conversion of a valid upload fails, the file route
    answers 500 with the encoder's error; the transcription is not started
    (no file is read for an upload, nothing is requested from the vendor,
    no answer is consumed), and the uploaded file is removed, or the
    failure to remove it is printed. *)
Theorem file_conversion_failure_skips_vendor file body w f err :
  fs w !! file_path file = Some f →
  size f ≠ 0%N →
  includes allowedExtensions
    (toLowerCase E (path_extname E (originalname file))) = true →
  let converted :=
    path_join E "uploads"
      (path_basename_ext E (filename file) (path_extname E (filename file))
       +:+ "_converted.wav") in
  (convertVideoToAudio E (file_path file) converted w).1 = Throw err →
  ∃ w' actions,
    transcribe_file E (Some file) body w = (Return (), w') ∧
    trace w' = trace w ++ actions ∧
    Forall (λ a, transcription_action a = false) actions ∧
    responses actions =
      [(500%N, {[ "error" := JStr ("Erro ao processar arquivo: "
                                   +:+ message err) ]})] ∧
    net w' = net w ∧
    removed_or_reported (file_path file) w'.
Proof.
  intros Hf Hsize Hallowed converted Hfails.
  pose proof (file_try_valid E file body w f Hf Hsize Hallowed) as Htry.
  cbv zeta in Htry. fold converted in Htry.
  rewrite bind_log in Htry.
  match type of Htry with
  | context [mbind _ _ ?w0] => set (w1 := w0) in Htry
  end.
  destruct (convert_runs_encoder_only E (file_path file) converted w1)
    as ((runs & Hruns & Hcanonical) & Hnet1).
  unfold mbind, M_bind in Htry.
  destruct (convertVideoToAudio E (file_path file) converted w1)
    as [o w2] eqn:Hrun.
  assert (o = Throw err) as ->.
  { rewrite <- Hfails. change o with (o, w2).1. rewrite <- Hrun.
    apply convert_attempt_result. }
  cbn [fst snd] in Htry, Hruns, Hnet1.
  destruct (route_failure (file_try E (Some file) body) file_catch
              (file_finally (Some file)) _ _ w _ "Erro arquivo:"
              "Erro ao processar arquivo: " err (file_path file) converted Htry)
    as (w' & cleanup & Hroute & Htrace & Hcleanup & Hquiet & Hnet & Hgone & _);
    [done | done |].
  set (reply := Respond 500 {[ "error" := JStr ("Erro ao processar arquivo: "
                                                +:+ message err) ]}) in *.
  exists w', ([ExistsSync (Some (file_path file)); StatSync (file_path file)]
              ++ runs ++ [reply] ++ cleanup).
  split; [exact Hroute|].
  split; [rewrite Htrace, Hruns; unfold w1; cbn; by rewrite <- !app_assoc|].
  split.
  { repeat first [apply Forall_app; split | apply Forall_cons; split];
      try done.
    - eapply Forall_impl; [exact Hcanonical|]. by intros [].
    - eapply Forall_impl; [exact Hcleanup|]. by intros a [_ ?]. }
  split.
  { rewrite !responses_app, Hquiet. cbn.
    assert (responses runs = []) as ->; [|done].
    clear -Hcanonical. induction Hcanonical as [|[] runs Ha _ IH]; done. }
  split; [by rewrite Hnet, Hnet1|done].
Qed.

End StageFailures.

Lemma youtube_refuses_other_urls_witness :
  let E := Visitor.environment (inl (JBool false))
             {| dl_error := None; dl_finish := true; dl_file := None |} in
  ∃ w',
    transcribe_youtube E {[ "url" := JStr "https://example.com/page" ]}
      Sample.empty_world = (Return (), w') ∧
    trace w' =
      [Respond 400 {[ "error" := JStr "URL do YouTube inválida ou não suportada" ]};
       ExistsSync None; ExistsSync None] ∧
    fs w' = ∅ ∧ net w' = [] ∧ ticks w' = 0.
Proof.
  cbv zeta.
  refine (youtube_refuses_other_urls
            (Visitor.environment (inl (JBool false))
               {| dl_error := None; dl_finish := true; dl_file := None |})
            {[ "url" := JStr "https://example.com/page" ]}
            Sample.empty_world _).
  discriminate.
Defined.

Lemma file_route_rejects_invalid_upload_witness :
  let E := Sample.environment None Sample.failing_encoder in
  let w := Sample.storage_world "uploads/1700-clip.mp4"
             {| size := 0; unlink_error := None |} in
  ∃ w' actions,
    transcribe_file E (Some Sample.upload) ∅ w = (Return (), w') ∧
    trace w' = trace w ++ actions ∧
    Forall (λ a, pipeline_action a = false) actions ∧
    responses actions =
      [(400%N, {[ "error" := JStr "Arquivo inválido: Arquivo está vazio" ]})] ∧
    net w' = net w ∧
    (∀ path, path ≠ "uploads/1700-clip.mp4" → fs w' !! path = fs w !! path) ∧
    (fs w' !! "uploads/1700-clip.mp4" = None ∨
     ("error", "Erro ao remover arquivo:") ∈ console w').
Proof.
  cbv zeta.
  exact (file_route_rejects_invalid_upload
           (Sample.environment None Sample.failing_encoder)
           Sample.upload ∅
           (Sample.storage_world "uploads/1700-clip.mp4"
              {| size := 0; unlink_error := None |})
           (Error "Arquivo está vazio") eq_refl).
Defined.

Lemma youtube_download_failure_witness :
  let E := Visitor.environment (inl (JStr "yt_video"))
             {| dl_error := Some (Error "socket hang up"); dl_finish := false;
                dl_file := Some {| size := 10; unlink_error := None |} |} in
  let url := JStr "https://youtu.be/abc" in
  ∃ w' cleanup,
    transcribe_youtube E {[ "url" := url ]} Sample.empty_world
      = (Return (), w') ∧
    trace w' =
      [Download url "temp_youtube_1700000000000.webm";
       Respond 500 {[ "error" := JStr "Erro ao processar vídeo do YouTube: socket hang up" ]}]
      ++ cleanup ∧
    Forall (λ a, pipeline_action a = false ∧ transcription_action a = false)
      cleanup ∧
    responses cleanup = [] ∧
    net w' = [] ∧
    removed_or_reported "temp_youtube_1700000000000.webm" w'.
Proof.
  cbv zeta.
  exact (youtube_download_failure
           (Visitor.environment (inl (JStr "yt_video"))
              {| dl_error := Some (Error "socket hang up"); dl_finish := false;
                 dl_file := Some {| size := 10; unlink_error := None |} |})
           {[ "url" := JStr "https://youtu.be/abc" ]} Sample.empty_world
           (Error "socket hang up") eq_refl eq_refl).
Defined.

Lemma file_conversion_failure_skips_vendor_witness :
  let E := Sample.environment (Some "key") Sample.failing_encoder in
  let w := Sample.storage_world "uploads/1700-clip.mp4"
             {| size := 500; unlink_error := None |} in
  ∃ w' actions,
    transcribe_file E (Some Sample.upload) ∅ w = (Return (), w') ∧
    trace w' = trace w ++ actions ∧
    Forall (λ a, transcription_action a = false) actions ∧
    responses actions =
      [(500%N, {[ "error" := JStr "Erro ao processar arquivo: ffmpeg exited with code 1" ]})] ∧
    net w' = net w ∧
    removed_or_reported "uploads/1700-clip.mp4" w'.
Proof.
  cbv zeta.
  refine (file_conversion_failure_skips_vendor
            (Sample.environment (Some "key") Sample.failing_encoder)
            Sample.upload ∅
            (Sample.storage_world "uploads/1700-clip.mp4"
               {| size := 500; unlink_error := None |})
            {| size := 500; unlink_error := None |} Sample.encoder_error
            eq_refl _ eq_refl eq_refl).
  discriminate.
Defined.

(** ** The result of a conversion *)

Section ConversionResult.

Context (E : env).

Lemma convert_attempt_last_run fuel inputPath outputPath w :
  Str.occurrences ".mp3" outputPath < fuel →
  let run := convert_attempt E fuel inputPath outputPath w in
  ∃ earlier command target,
    trace run.2 = trace w ++ earlier ++ [Encode command target] ∧
    Forall (failed_run E) earlier ∧
    length earlier ≤ Str.occurrences ".mp3" outputPath ∧
    match run.1 with
    | Return path =>
        path = target ∧
        enc_error (ffmpeg_run E command target) = None ∧
        enc_end (ffmpeg_run E command target) = true
    | Throw e => enc_error (ffmpeg_run E command target) = Some e
    | Hang =>
        enc_error (ffmpeg_run E command target) = None ∧
        enc_end (ffmpeg_run E command target) = false
    end.
Proof.
  revert outputPath w.
  induction fuel as [|fuel IH]; intros outputPath w Hfuel; [lia|]. cbv zeta.
  rewrite convert_attempt_S. cbv zeta.
  set (command := build_command inputPath (Str.endsWith outputPath ".wav")).
  destruct (enc_error (ffmpeg_run E command outputPath)) as [err|] eqn:Herr.
  - destruct (negb _ && _) eqn:Hretry.
    + apply andb_true_iff in Hretry as [_ Hmp3].
      pose proof (occurrences_replace outputPath (occurrences_endsWith _ _ Hmp3)).
      match goal with
      | |- context [convert_attempt E fuel inputPath ?out ?w0] =>
          destruct (IH out w0)
            as (earlier & last & target & Htrace & Hfailed & Hlen & Hresult);
            [lia|]
      end.
      exists (Encode command outputPath :: earlier), last, target.
      split; [|split; [|split; [cbn [length]; lia | exact Hresult]]].
      * rewrite Htrace, !trace_print, trace_run_encoder, <- !app_assoc. done.
      * constructor; [|done]. cbn. by rewrite Herr.
    + exists [], command, outputPath. cbn [fst snd app length].
      rewrite trace_print, trace_run_encoder.
      repeat split; [constructor | lia | done].
  - destruct (enc_end (ffmpeg_run E command outputPath)) eqn:Hend;
      exists [], command, outputPath; cbn [fst snd app length];
      rewrite ?trace_print, trace_run_encoder;
      repeat split; first [constructor | lia | done].
Qed.

(** X21: [convertVideoToAudio] settles exactly when its last run of the
    encoder does, and with the result of that run: a returned path is the
    target of the last run, which has ended without an error; a rejection
    carries the error of the last run; and the call stays pending only on a
    last run that emits neither ['end'] nor ['error'].  Every earlier run
    has failed, and there are at most as many of them as the output path has
    occurrences of ".mp3". *)
Theorem convert_result_is_last_run inputPath outputPath w :
  let run := convertVideoToAudio E inputPath outputPath w in
  ∃ earlier command target,
    trace run.2 = trace w ++ earlier ++ [Encode command target] ∧
    Forall (failed_run E) earlier ∧
    length earlier ≤ Str.occurrences ".mp3" outputPath ∧
    match run.1 with
    | Return path =>
        path = target ∧
        enc_error (ffmpeg_run E command target) = None ∧
        enc_end (ffmpeg_run E command target) = true
    | Throw e => enc_error (ffmpeg_run E command target) = Some e
    | Hang =>
        enc_error (ffmpeg_run E command target) = None ∧
        enc_end (ffmpeg_run E command target) = false
    end.
Proof. apply convert_attempt_last_run. lia. Qed.

End ConversionResult.

(** ** POST /api/process-text *)

Section TextRoute.

Context (E : env).

(** X22: the text route always returns normally with exactly one response
    and no other external action.  The status is 400 when the text is
    missing or falsy.  When the text is to be translated, it is 500 if the
    conversion of the text to a string throws (an object with a "toString"
    key of its own, or an array that holds one) and 200 otherwise, the
    translation being a string that [formatText] accepts.  When it is not
    to be translated, the status is 500 if a text that is not a string is
    to be formatted, and 200 otherwise. *)
Theorem process_text_always_answers body w :
  let text := prop body "text" in
  let shouldTranslate := default_to (JBool true) (prop body "shouldTranslate") in
  let shouldFormat := default_to (JBool true) (prop body "shouldFormat") in
  ∃ reply w',
    process_text E body w = (Return (), w') ∧
    trace w' = trace w ++
      [Respond (process_text_status text shouldTranslate shouldFormat) reply] ∧
    fs w' = fs w ∧ net w' = net w.
Proof.
  cbv zeta. unfold process_text, process_text_try, process_text_status,
    translateText, template, formatText, try_catch, respond.
  unfold_monad.
  destruct (truthy (prop body "text")); cbn [negb];
    [|by eexists _, _].
  destruct (truthy (default_to _ (prop body "shouldTranslate"))).
  - destruct (renders (prop body "text")); [|by eexists _, _].
    destruct (truthy (default_to _ (prop body "shouldFormat")));
      by eexists _, _.
  - destruct (truthy (default_to _ (prop body "shouldFormat"))); cbn [andb];
      [|by eexists _, _].
    destruct (prop body "text"); cbn; by eexists _, _.
Qed.

(** X23: on a non-empty string the text route translates first and formats
    the translation: the answer is 200 with the text marked as translated
    (unless [shouldTranslate] is falsy) and then laid out by [formatText]
    (unless [shouldFormat] is falsy), next to the two flags as given. *)
Theorem process_text_translates_then_formats body s w :
  prop body "text" = JStr s →
  s ≠ "" →
  let shouldTranslate := default_to (JBool true) (prop body "shouldTranslate") in
  let shouldFormat := default_to (JBool true) (prop body "shouldFormat") in
  let translated :=
    if truthy shouldTranslate then "[TRADUÇÃO SIMULADA] " +:+ s else s in
  let processed :=
    if truthy shouldFormat then format_sentences translated else translated in
  process_text E body w =
  (Return (),
   emit (Respond 200
           {[ "processedText" := JStr processed;
              "operations" := JObj {[ "translated" := shouldTranslate;
                                      "formatted" := shouldFormat ]} ]}) w).
Proof.
  intros Htext Hs%String.eqb_neq. cbv zeta.
  unfold process_text, process_text_try, translateText, formatText, try_catch,
    respond.
  unfold_monad. rewrite Htext. cbn [truthy negb to_string]. rewrite Hs. cbn [negb].
  destruct (truthy (default_to _ (prop body "shouldTranslate")));
    by destruct (truthy (default_to _ (prop body "shouldFormat"))).
Qed.

End TextRoute.

Lemma process_text_always_answers_witness :
  let E := Sample.environment None Sample.failing_encoder in
  let body : gmap string jsval :=
    {[ "text" := JObj {[ "toString" := JNum 1 ]} ]} in
  ∃ reply w',
    process_text E body Sample.empty_world = (Return (), w') ∧
    trace w' = [Respond 500 reply] ∧
    fs w' = ∅ ∧ net w' = [].
Proof.
  cbv zeta.
  exact (process_text_always_answers
           (Sample.environment None Sample.failing_encoder)
           {[ "text" := JObj {[ "toString" := JNum 1 ]} ]}
           Sample.empty_world).
Defined.

Lemma process_text_translates_then_formats_witness :
  let E := Sample.environment None Sample.failing_encoder in
  process_text E {[ "text" := JStr "Oi. Tudo bem?"; "shouldTranslate" := JBool false ]}
    Sample.empty_world =
  (Return (),
   emit (Respond 200
           {[ "processedText" := JStr (format_sentences "Oi. Tudo bem?");
              "operations" := JObj {[ "translated" := JBool false;
                                      "formatted" := JBool true ]} ]})
     Sample.empty_world).
Proof.
  cbv zeta.
  refine (process_text_translates_then_formats
            (Sample.environment None Sample.failing_encoder)
            {[ "text" := JStr "Oi. Tudo bem?"; "shouldTranslate" := JBool false ]}
            "Oi. Tudo bem?" Sample.empty_world eq_refl _).
  discriminate.
Defined.

(** ** The request that the routes submit *)

(** X24: the options that the two transcription routes build from the
    [language] of the request body carry that one key at most, so the job
    they submit always has the audio URL, [punctuate] and [format_text]
    set; for a concrete language it has that language as [language_code]
    (and as [language]) and no [language_detection]; for a missing or
    falsy language and for 'auto' it has [language_detection] set and no
    language. *)
Theorem route_request_defaults (audioUrl language : jsval) :
  let request := transcriptRequest audioUrl (transcriptionOptions language) in
  request !! "audio_url" = Some audioUrl ∧
  request !! "punctuate" = Some (JBool true) ∧
  request !! "format_text" = Some (JBool true) ∧
  if truthy language && negb (strict_eq_str language "auto")
  then request !! "language_code" = Some language ∧
       request !! "language" = Some language ∧
       request !! "language_detection" = None
  else request !! "language_detection" = Some (JBool true) ∧
       request !! "language_code" = None ∧
       request !! "language" = None.
Proof.
  cbv zeta. unfold transcriptionOptions.
  destruct (truthy language && negb (strict_eq_str language "auto")) eqn:Hconcrete.
  - unfold transcriptRequest.
    replace (prop {[ "language" := language ]} "language") with language by done.
    rewrite Hconcrete. done.
  - unfold transcriptRequest.
    replace (prop (∅ : gmap string jsval) "language") with JUndefined by done.
    done.
Qed.
